(** * Switch-fleet documentation tool: topology crawl, snapshot store, diff engine

    A shallow embedding of the Python sources [topology_crawl.py],
    [history_json.py] and [ideia6_features.py], with the metrics of
    [excel_pipeline.py] that the crawl stores, and the properties of the
    crawl scheduler, the snapshot store and the migration deltas.

    Conventions of the embedding.
    - Python [str] values are Rocq [string]s that hold the UTF-8 bytes of
      the text.  The character classes used by [str.strip], [str.lower] and
      [str.isdigit] are the ones Python has on ASCII text with the
      superscript digits U+00B2, U+00B3 and U+00B9, which [str.isdigit]
      accepts and [int] rejects; any other character outside ASCII is in
      no class, and the statements that depend on the classes say which
      text they are about ([plain]).
    - Python [int] is [Z] (or [N] for the value of a string of digits);
      the limit of the interpreter on the length of a numeral is left out.
    - A [dict] whose iteration order is observed is an association list kept
      in insertion order; a [dict] or [set] used only through membership and
      lookup is a [gmap] or [gset].
    - A call that can raise returns a [res]; [try]/[except] is [catch]. *)

From Stdlib Require Import String Ascii List ZArith NArith Bool Lia DecimalString DecimalN.
From Stdlib Require Import Sorting.Sorted Sorting.Permutation.
From stdpp Require Import base gmap strings list.

Import ListNotations.
Local Open Scope string_scope.
Local Open Scope list_scope.

(** ** Python string primitives *)

Module PyStr.

(** The characters [str.strip()] removes: TAB, LF, VT, FF, CR, FS, GS, RS,
    US and the space. *)
Definition is_space (c : ascii) : bool :=
  let n := nat_of_ascii c in
  ((9 <=? n)%nat && (n <=? 13)%nat) || ((28 <=? n)%nat && (n <=? 32)%nat).

Definition is_digit (c : ascii) : bool :=
  let n := nat_of_ascii c in (48 <=? n)%nat && (n <=? 57)%nat.

Definition lower_char (c : ascii) : ascii :=
  let n := nat_of_ascii c in
  if (65 <=? n)%nat && (n <=? 90)%nat then ascii_of_nat (n + 32) else c.

(** [s.lower()] *)
Fixpoint lower (s : string) : string :=
  match s with
  | EmptyString => EmptyString
  | String c s' => String (lower_char c) (lower s')
  end.

Fixpoint lstrip (s : string) : string :=
  match s with
  | EmptyString => EmptyString
  | String c s' => if is_space c then lstrip s' else s
  end.

Fixpoint rstrip (s : string) : string :=
  match s with
  | EmptyString => EmptyString
  | String c s' =>
      match rstrip s' with
      | EmptyString => if is_space c then EmptyString else String c EmptyString
      | r => String c r
      end
  end.

(** [s.strip()] *)
Definition strip (s : string) : string := rstrip (lstrip s).

Fixpoint all_digits (s : string) : bool :=
  match s with
  | EmptyString => true
  | String c s' => is_digit c && all_digits s'
  end.

(** [s.isdecimal()]: at least one character, all of them among [0-9]. *)
Definition isdecimal (s : string) : bool :=
  match s with
  | EmptyString => false
  | _ => all_digits s
  end.

(** The second byte of a superscript digit, after the byte 194. *)
Definition is_superscript (c : ascii) : bool :=
  let n := nat_of_ascii c in
  (n =? 178)%nat || (n =? 179)%nat || (n =? 185)%nat.

(** Every character is a digit for [str.isdigit]: one of [0-9], or a
    superscript digit. *)
Fixpoint digit_chars (s : string) : bool :=
  match s with
  | EmptyString => true
  | String c s' =>
      if is_digit c then digit_chars s'
      else if Ascii.eqb c "194" then
        match s' with
        | String d s'' => is_superscript d && digit_chars s''
        | EmptyString => false
        end
      else false
  end.

(** [s.isdigit()]: at least one character, all of them digits. *)
Definition isdigit (s : string) : bool :=
  match s with
  | EmptyString => false
  | _ => digit_chars s
  end.

(** The text the character classes are exact on: ASCII characters and
    superscript digits. *)
Fixpoint plain (s : string) : bool :=
  match s with
  | EmptyString => true
  | String c s' =>
      if (nat_of_ascii c <? 128)%nat then plain s'
      else if Ascii.eqb c "194" then
        match s' with
        | String d s'' => is_superscript d && plain s''
        | EmptyString => false
        end
      else false
  end.

(** The truth value of a string: [bool(s)]. *)
Definition truthy (s : string) : bool :=
  match s with EmptyString => false | _ => true end.

(** [a or b] on strings. *)
Definition or_else (a b : string) : string := if truthy a then a else b.

(** [sub in s] *)
Fixpoint contains (sub s : string) : bool :=
  String.prefix sub s ||
  match s with
  | EmptyString => false
  | String _ s' => contains sub s'
  end.

(** [s.endswith(suf)] *)
Fixpoint endswith (suf s : string) : bool :=
  String.eqb suf s ||
  match s with
  | EmptyString => false
  | String _ s' => endswith suf s'
  end.

(** [s.replace(old, new)] for a non-empty [old]: occurrences are replaced
    from the left and do not overlap.  [skip] counts the characters of a
    match that is being consumed. *)
Fixpoint replace_from (old new : string) (skip : nat) (s : string) : string :=
  match s with
  | EmptyString => EmptyString
  | String c s' =>
      match skip with
      | S k => replace_from old new k s'
      | O =>
          if String.prefix old s
          then new ++ replace_from old new (String.length old - 1) s'
          else String c (replace_from old new 0 s')
      end
  end.

Definition replace (old new s : string) : string := replace_from old new 0 s.

(** [s.split(c)] for a one-character separator: never an empty list. *)
Fixpoint split (sep : ascii) (s : string) : list string :=
  match s with
  | EmptyString => [EmptyString]
  | String c s' =>
      if Ascii.eqb c sep then EmptyString :: split sep s'
      else match split sep s' with
           | h :: t => String c h :: t
           | [] => [String c EmptyString]
           end
  end.

(** [s.split(c, 1)] when [c] occurs in [s]: the text before the first
    occurrence and the text after it; [None] when [c] does not occur. *)
Fixpoint split_once (sep : ascii) (s : string) : option (string * string) :=
  match s with
  | EmptyString => None
  | String c s' =>
      if Ascii.eqb c sep then Some (EmptyString, s')
      else match split_once sep s' with
           | Some (a, b) => Some (String c a, b)
           | None => None
           end
  end.

(** [s.split(sub)[0]]: the text before the first occurrence of [sub], all
    of [s] when there is none. *)
Fixpoint before_first (sub s : string) : string :=
  if String.prefix sub s then EmptyString
  else match s with
       | EmptyString => EmptyString
       | String c s' => String c (before_first sub s')
       end.




(** The value of a string of decimal digits: [int(s)] when it returns. *)
Definition digit_val (c : ascii) : N := N.of_nat (nat_of_ascii c - 48).

Fixpoint int_acc (acc : N) (s : string) : N :=
  match s with
  | EmptyString => acc
  | String c s' => int_acc (10 * acc + digit_val c)%N s'
  end.

Definition int (s : string) : N := int_acc 0 s.

(** [str(n)] for a natural number. *)
Definition str (n : N) : string := NilZero.string_of_uint (N.to_uint n).


(** [os.path.join(a, b)] on POSIX. *)
Definition path_join (a b : string) : string :=
  if String.prefix "/" b then b
  else if negb (truthy a) || endswith "/" a then a ++ b
  else a ++ "/" ++ b.

End PyStr.

(** ** Exceptions

    A Python call that can raise returns [Raise e]; [catch] is
    [try: ... except Exception: ...]. *)

Inductive exn : Type := ValueError | OSError | IndexError | OtherError.

Inductive res (A : Type) : Type :=
| Ok (a : A)
| Raise (e : exn).
Arguments Ok {A} a.
Arguments Raise {A} e.

Definition res_bind {A B} (r : res A) (k : A -> res B) : res B :=
  match r with
  | Ok a => k a
  | Raise e => Raise e
  end.

Definition catch {A} (r : res A) (handler : exn -> res A) : res A :=
  match r with
  | Ok a => Ok a
  | Raise e => handler e
  end.

Definition raises {A} (r : res A) : Prop := exists e, r = Raise e.


(** [for x in l: ...f(x)...]: the results in order, or the first exception. *)
Fixpoint map_res {A B} (f : A -> res B) (l : list A) : res (list B) :=
  match l with
  | [] => Ok []
  | x :: l' =>
      res_bind (f x) (fun y => res_bind (map_res f l') (fun ys => Ok (y :: ys)))
  end.

(** [int(s)] for a string that [str.isdigit] accepts: [int] takes the
    decimal digits only. *)
Definition to_int (s : string) : res N :=
  if PyStr.isdecimal s then Ok (PyStr.int s) else Raise ValueError.

(** First index of a list whose element satisfies [p]. *)
Fixpoint find_idx {A} (p : A -> bool) (l : list A) : option nat :=
  match l with
  | [] => None
  | x :: l' => if p x then Some 0 else option_map S (find_idx p l')
  end.

Definition nonempty {A} (l : list A) : bool :=
  match l with [] => false | _ => true end.

(** ** Sorting, sets and dictionaries

    [sorted(l, key=f)] is stable: an insertion sort that puts an element in
    front of the first one whose key is not smaller. *)

Section Sorting.
Context {A K : Type}.
Variable le : K -> K -> bool.
Variable key : A -> K.

Fixpoint insert_by (x : A) (l : list A) : list A :=
  match l with
  | [] => [x]
  | y :: l' => if le (key x) (key y) then x :: l else y :: insert_by x l'
  end.

Definition sorted_by (l : list A) : list A := foldr insert_by [] l.
End Sorting.

(** [sorted(l, key=f)] for a key that can raise: the keys are computed
    first, one per element and in order. *)
Definition sorted_by_res {A K : Type} (le : K -> K -> bool) (key : A -> res K)
    (l : list A) : res (list A) :=
  res_bind (map_res key l) (fun ks =>
    Ok (map snd (sorted_by le fst (combine ks l)))).

(** The order of Python on pairs of strings (tuples compare
    lexicographically). *)
Definition pair_leb (a b : string * string) : bool :=
  if String.eqb (fst a) (fst b) then String.leb (snd a) (snd b)
  else String.leb (fst a) (fst b).


Definition sorted_pairs (s : gset (string * string)) : list (string * string) :=
  sorted_by pair_leb id (elements s).

(** A [dict] in insertion order: assigning to a key that is present keeps
    its position. *)
Module PyDict.
Section Dict.
Context {K : Type} `{EqDecision K} {V : Type}.

Definition dict : Type := list (K * V).

Fixpoint get (k : K) (d : dict) : option V :=
  match d with
  | [] => None
  | (k', v) :: d' => if decide (k' = k) then Some v else get k d'
  end.

Fixpoint set (k : K) (v : V) (d : dict) : dict :=
  match d with
  | [] => [(k, v)]
  | (k', v') :: d' =>
      if decide (k' = k) then (k, v) :: d' else (k', v') :: set k v d'
  end.
End Dict.
Arguments dict K V : clear implicits.
End PyDict.

(** ** topology_crawl.py *)

Module Crawl.
Import PyStr.

(** One collected command: [(cmd, raw, headers, rows)]. *)
Definition item : Type := string * string * list string * list (list string).
Definition collected : Type := list item.

Record DeviceKey : Type := { serial : option string; mgmt_ip : option string }.

(** [o or d] for an optional string: [None] and the empty string are false. *)
Definition opt_or (o : option string) (d : string) : string :=
  match o with
  | Some s => or_else s d
  | None => d
  end.

Definition opt_truthy (o : option string) : bool :=
  match o with
  | Some s => truthy s
  | None => false
  end.

(** [DeviceKey.best]: [self.serial or self.mgmt_ip or "unknown"]. *)
Definition best (k : DeviceKey) : string :=
  opt_or (serial k) (opt_or (mgmt_ip k) "unknown").

(** The dataclass [Neighbor]; its second field is [mgmt_ip] in the source. *)
Record Neighbor : Type := { device_id : string; neigh_mgmt_ip : option string }.

Definition _norm (s : string) : string := strip s.

(** [{str(h).strip().lower(): i for i, h in enumerate(headers)}]: a later
    header with the same normalised name overwrites the index. *)
Definition _headers_index_map (headers : list string) : gmap string nat :=
  foldl (fun m ih => <[lower (strip (snd ih)) := fst ih]> m) ∅
        (imap pair headers).

Definition _find_col_idx (headers exact contains_ : list string) : option nat :=
  match headers with
  | [] => None
  | _ =>
      let exact := map (fun e => replace " " "_" (lower (strip e))) exact in
      let contains_ := map (fun c => lower (strip c)) contains_ in
      let norm := map (fun h => lower (strip h)) headers in
      let norm_underscore := map (replace " " "_") norm in
      match find_idx (fun h => existsb (String.eqb h) exact) norm_underscore with
      | Some i => Some i
      | None => find_idx (fun h => existsb (fun c => contains c h) contains_) norm
      end
  end.

(** First loop of [_extract_device_key_from_collected]: the serial of
    [show version].  The variable [serial] is assigned even when the cell
    is empty; the loop stops at the first non-empty one. *)
Fixpoint serial_from_version (serial : option string) (c : collected)
  : option string :=
  match c with
  | [] => serial
  | (cmd, _, headers, rows) :: rest =>
      let cl := lower (strip cmd) in
      if contains "show version" cl && nonempty headers && nonempty rows then
        match _headers_index_map headers !! "serial", rows with
        | Some i, r0 :: _ =>
            if (i <? length r0)%nat then
              let s := _norm (nth i r0 "") in
              if truthy s then Some s else serial_from_version (Some s) rest
            else serial_from_version serial rest
        | _, _ => serial_from_version serial rest
        end
      else serial_from_version serial rest
  end.

(** [for r in rows: sv = _norm(r[i]) if i < len(r) else ""; if sv: ...] *)
Fixpoint first_cell (i : nat) (rows : list (list string)) : option string :=
  match rows with
  | [] => None
  | r :: rest =>
      let sv := if (i <? length r)%nat then _norm (nth i r "") else "" in
      if truthy sv then Some sv else first_cell i rest
  end.

(** Second loop: the serial of [show inventory]. *)
Fixpoint serial_from_inventory (serial : option string) (c : collected)
  : option string :=
  match c with
  | [] => serial
  | (cmd, _, headers, rows) :: rest =>
      let cl := lower (strip cmd) in
      let serial :=
        if contains "show inventory" cl && nonempty headers && nonempty rows then
          match _find_col_idx headers ["serial"; "sn"] ["serial"] with
          | Some i =>
              match first_cell i rows with
              | Some sv => Some sv
              | None => serial
              end
          | None => serial
          end
        else serial in
      if opt_truthy serial then serial else serial_from_inventory serial rest
  end.

(** The key is built as [DeviceKey(serial=serial)]: [mgmt_ip] keeps its
    default [None]. *)
Definition _extract_device_key_from_collected (c : collected) : DeviceKey :=
  let serial := serial_from_version None c in
  let serial :=
    if opt_truthy serial then serial else serial_from_inventory serial c in
  {| serial := serial; mgmt_ip := None |}.

Definition not_advertised (s : string) : string :=
  if truthy s && negb (String.eqb (lower s) "not advertised") then s else "".

Definition cell (idx : option nat) (r : list string) : string :=
  match idx with
  | Some i => if (i <? length r)%nat then strip (nth i r "") else ""
  | None => ""
  end.

Definition neighbor_of_row (dev_idx ip_idx : option nat) (r : list string)
  : Neighbor :=
  let dev := not_advertised (cell dev_idx r) in
  let ipv := not_advertised (cell ip_idx r) in
  {| device_id := dev;
     neigh_mgmt_ip := if truthy ipv then Some ipv else None |}.

(** The inner function [collect_from] of
    [_extract_neighbors_from_collected]. *)
Fixpoint collect_from (cmd_name_match : string) (c : collected)
  : list Neighbor :=
  match c with
  | [] => []
  | (cmd, _, headers, rows) :: rest =>
      if negb (contains cmd_name_match (lower cmd)) then
        collect_from cmd_name_match rest
      else if negb (nonempty headers) || negb (nonempty rows) then
        collect_from cmd_name_match rest
      else
        let dev_idx :=
          _find_col_idx headers
            ["neighbor_name"; "Neighbour_name"; "destination_host";
             "device_id"; "device"; "remote_system_name"; "system_name"]
            ["device id"; "destination"; "system name"; "remote_system"] in
        let ip_idx :=
          _find_col_idx headers
            ["mgmt_address"; "Mgmt_address"; "management_ip"; "mgmt_ip";
             "ip_address"; "management_address"]
            ["ip address"; "management address"; "mgmt addr"] in
        map (neighbor_of_row dev_idx ip_idx) rows
          ++ collect_from cmd_name_match rest
  end.

Definition _extract_neighbors_from_collected (c : collected) : list Neighbor :=
  match collect_from "cdp neighbors detail" c with
  | [] => collect_from "lldp neighbors detail" c
  | out => out
  end.

(** *** The crawl loop

    The collector, the resolver, the [ipaddress] library and the report
    stage are outside this module: they are parameters of the crawl.
    [username], [password], [enable] and [port] are only handed to
    [collect] and are part of that parameter. *)

Inductive event : Type :=
| Ev_collect (ip : string)
| Ev_makedirs (dir : string)
| Ev_metrics_from_collected (host : string)
| Ev_save_snapshot (base_dir host ts host_ip : string)
| Ev_save_raw_outputs (host base_dir ts : string)
| Ev_create_excel (host ts xlsx_path : string)
| Ev_ideia6_run_pipeline (host ts xlsx_path host_ip : string)
| Ev_cleanup_execucao_keep_newest (xlsx_path : string)
| Ev_log_failure (ip : string).


(** The local variables of [crawl_topology] that the loop mutates, and the
    trace of the external calls made so far. *)
Record cstate : Type := {
  queue : list (string * Z);
  seen_ips : gset string;
  visited_keys : gset string;
  results : list (string * string);
  trace : list event
}.

Definition set_queue (q : list (string * Z)) (s : cstate) : cstate :=
  {| queue := q; seen_ips := seen_ips s; visited_keys := visited_keys s;
     results := results s; trace := trace s |}.

Definition add_seen (ip : string) (s : cstate) : cstate :=
  {| queue := queue s; seen_ips := {[ip]} ∪ seen_ips s;
     visited_keys := visited_keys s; results := results s; trace := trace s |}.

Definition add_visited (k : string) (s : cstate) : cstate :=
  {| queue := queue s; seen_ips := seen_ips s;
     visited_keys := {[k]} ∪ visited_keys s; results := results s;
     trace := trace s |}.

Definition add_result (r : string * string) (s : cstate) : cstate :=
  {| queue := queue s; seen_ips := seen_ips s; visited_keys := visited_keys s;
     results := results s ++ [r]; trace := trace s |}.

Definition add_event (e : event) (s : cstate) : cstate :=
  {| queue := queue s; seen_ips := seen_ips s; visited_keys := visited_keys s;
     results := results s; trace := trace s ++ [e] |}.

(** A statement of the loop body: it may raise, and the mutations made
    before the exception stay. *)
Definition M (A : Type) : Type := cstate -> res A * cstate.

Definition ret {A} (a : A) : M A := fun s => (Ok a, s).

Definition bind {A B} (m : M A) (k : A -> M B) : M B :=
  fun s =>
    match m s with
    | (Ok a, s') => k a s'
    | (Raise e, s') => (Raise e, s')
    end.

Definition lift {A} (r : res A) : M A := fun s => (r, s).

Definition modify (f : cstate -> cstate) : M unit := fun s => (Ok tt, f s).

Definition try_except {A} (m : M A) (handler : exn -> M A) : M A :=
  fun s =>
    match m s with
    | (Ok a, s') => (Ok a, s')
    | (Raise e, s') => handler e s'
    end.

Notation "'let!' x ':=' m 'in' k" := (bind m (fun x => k))
  (at level 10, x pattern, k at level 200).

Fixpoint for_each {A} (f : A -> M unit) (l : list A) : M unit :=
  match l with
  | [] => ret tt
  | x :: l' => let! _ := f x in for_each f l'
  end.

Section Crawler.
Context {addr net : Type}.
(** [ipaddress.ip_address], [ipaddress.ip_network(_, strict=False)] and
    [addr in net]. *)
Variable ip_address : string -> res addr.
Variable ip_network : string -> res net.
Variable net_contains : net -> addr -> bool.
(** [socket.gethostbyname] *)
Variable gethostbyname : string -> res string.
(** [collect(ip, ...)]: [(hostname, ts, collected, outdir)]. *)
Variable collect : string -> res (string * string * collected * string).
(** Whether an external call of the report stage returns or raises. *)
Variable io_ok : event -> bool.

(** The arguments of [crawl_topology]; [hostmap] is the dictionary after
    [hostmap = hostmap or {}]. *)
Variable max_depth : Z.
Variable allowed_subnets : option (list string).
Variable dns_fallback : bool.
Variable hostmap : gmap string string.
Variable out_dir_override : option string.

(** The [for cidr in allowed] loop: a network that does not parse is
    skipped by [except Exception: continue]. *)
Fixpoint in_any_network (ipx : addr) (allowed : list string) : res bool :=
  match allowed with
  | [] => Ok false
  | cidr :: rest =>
      match catch (res_bind (ip_network cidr)
                            (fun n => Ok (net_contains n ipx)))
                  (fun _ => Ok false) with
      | Ok true => Ok true
      | Ok false => in_any_network ipx rest
      | Raise e => Raise e
      end
  end.

Definition _in_allowed_subnets (ip : string) (allowed : option (list string))
  : res bool :=
  match allowed with
  | None | Some [] => Ok true
  | Some allowed =>
      catch (res_bind (ip_address ip) (fun ipx => in_any_network ipx allowed))
            (fun _ => Ok false)
  end.

Definition _resolve_dns (name : string) : option string :=
  match gethostbyname name with
  | Ok a => Some a
  | Raise _ => None
  end.

(** An external call: recorded in the trace, then it returns or raises. *)
Definition call (e : event) : M unit :=
  fun s => (if io_ok e then Ok tt else Raise OSError, add_event e s).

(** The address a neighbour is reached at (the variable [nip] after the
    table, DNS and host-map steps); the variable [source] is only
    logged. *)
Definition resolve_address (n : Neighbor) : string :=
  let nip := strip (opt_or (neigh_mgmt_ip n) "") in
  let nip :=
    if negb (truthy nip) && dns_fallback && truthy (device_id n) then
      match _resolve_dns (device_id n) with
      | Some resolved => if truthy resolved then resolved else nip
      | None => nip
      end
    else nip in
  match hostmap !! device_id n with
  | Some a => a
  | None => nip
  end.

(** One pass of [for n in neighs]. *)
Definition enqueue_neighbor (depth : Z) (n : Neighbor) : M unit :=
  let nip := resolve_address n in
  if negb (truthy nip) then ret tt
  else
    let! ok := lift (_in_allowed_subnets nip allowed_subnets) in
    if negb ok then ret tt
    else
      modify (fun s =>
        if decide (nip ∈ seen_ips s) then s
        else set_queue (queue s ++ [(nip, (depth + 1)%Z)]) s).

(** Step 4 of the loop body. *)
Definition expand (depth : Z) (c : collected) : M unit :=
  if (depth <? max_depth)%Z then
    for_each (enqueue_neighbor depth) (_extract_neighbors_from_collected c)
  else ret tt.

(** Step 3 of the loop body, for a key not visited before. *)
Definition report (ip host ts outdir xlsx_path : string) (c : collected)
  : M unit :=
  let! _ := call (Ev_metrics_from_collected host) in
  let! _ := call (Ev_save_snapshot outdir host ts ip) in
  let base_dir_txt :=
    if opt_truthy out_dir_override then opt_or out_dir_override "" else outdir in
  let! _ := call (Ev_save_raw_outputs host base_dir_txt ts) in
  let! _ := call (Ev_create_excel host ts xlsx_path) in
  let! _ := try_except (call (Ev_ideia6_run_pipeline host ts xlsx_path ip))
                       (fun _ => ret tt) in
  let! _ := try_except (call (Ev_cleanup_execucao_keep_newest xlsx_path))
                       (fun _ => ret tt) in
  modify (add_result (host, xlsx_path)).

(** The body of the [try] block. *)
Definition visit (ip : string) (depth : Z) : M unit :=
  let! _ := modify (add_event (Ev_collect ip)) in
  let! (host, ts, c, outdir) := lift (collect ip) in
  let! outdir :=
    (if opt_truthy out_dir_override then
       let o := opt_or out_dir_override "" in
       let! _ := call (Ev_makedirs o) in ret o
     else ret outdir) in
  let xlsx_path := path_join outdir (host ++ "_levantamento.xlsx") in
  let key_id := best (_extract_device_key_from_collected c) in
  let! _ :=
    (fun s =>
       if decide (key_id ∈ visited_keys s) then ret tt s
       else (let! _ := modify (add_visited key_id) in
             report ip host ts outdir xlsx_path c) s) in
  expand depth c.

(** One pass of the [while queue] loop, after [queue.pop(0)]. *)
Definition iteration (ip : string) (depth : Z) : M unit :=
  fun s =>
    if decide (ip ∈ seen_ips s) then ret tt s
    else
      (let! _ := modify (add_seen ip) in
       let! ok := lift (_in_allowed_subnets ip allowed_subnets) in
       if negb ok then ret tt
       else try_except (visit ip depth)
                       (fun _ => modify (add_event (Ev_log_failure ip)))) s.

(** The [while queue] loop; [None] when the fuel runs out first. *)
Fixpoint crawl_loop (fuel : nat) (s : cstate) : option (res unit * cstate) :=
  match queue s with
  | [] => Some (Ok tt, s)
  | (ip, depth) :: q =>
      match fuel with
      | O => None
      | S fuel' =>
          match iteration ip depth (set_queue q s) with
          | (Ok _, s') => crawl_loop fuel' s'
          | (Raise e, s') => Some (Raise e, s')
          end
      end
  end.

Definition initial (seed_ip : string) : cstate :=
  {| queue := [(seed_ip, 0%Z)]; seen_ips := ∅; visited_keys := ∅;
     results := []; trace := [] |}.

(** [crawl_topology]: the returned list, or the exception that escapes. *)
Definition crawl_topology (fuel : nat) (seed_ip : string)
  : option (res (list (string * string))) :=
  match crawl_loop fuel (initial seed_ip) with
  | Some (Ok _, s) => Some (Ok (results s))
  | Some (Raise e, _) => Some (Raise e)
  | None => None
  end.

End Crawler.

End Crawl.

(** ** The IPv4 fragment of [ipaddress]

    The dotted-quad addresses and the [a.b.c.d/len] networks, as the
    library parses them; used to run the crawl on concrete inputs.  IPv6
    text and the netmask notation lie outside this fragment. *)

Module IPv4.
Import PyStr.

(** [IPv4Address._parse_octet] *)
Definition parse_octet (o : string) : option N :=
  if negb (isdecimal o) then None
  else if (3 <? String.length o)%nat then None
  else if negb (String.eqb o "0") && String.prefix "0" o then None
  else if (255 <? int o)%N then None
  else Some (int o).

Definition ip_int (s : string) : option N :=
  match map parse_octet (split "." s) with
  | [Some a; Some b; Some c; Some d] =>
      Some (N.lor (N.shiftl a 24) (N.lor (N.shiftl b 16) (N.lor (N.shiftl c 8) d)))
  | _ => None
  end.

Definition ip_address (s : string) : res N :=
  match ip_int s with
  | Some a => Ok a
  | None => Raise ValueError
  end.

Definition prefix_len (s : string) : option N :=
  if isdecimal s && (int s <=? 32)%N then Some (int s) else None.

(** A network is its address and its prefix length; with [strict=False]
    the host bits of the address are ignored. *)
Definition ip_network (s : string) : res (N * N) :=
  match split "/" s with
  | [a] =>
      match ip_int a with
      | Some x => Ok (x, 32%N)
      | None => Raise ValueError
      end
  | [a; p] =>
      match ip_int a, prefix_len p with
      | Some x, Some len => Ok (x, len)
      | _, _ => Raise ValueError
      end
  | _ => Raise ValueError
  end.

Definition net_contains (n : N * N) (a : N) : bool :=
  let host_bits := (32 - snd n)%N in
  N.eqb (N.shiftr a host_bits) (N.shiftr (fst n) host_bits).

End IPv4.

(** ** history_json.py

    The state is the content of the history directory of one host,
    [<base_dir>/_history/<hostname>]: the set of its entry names.  An entry
    name has no separator, so that [os.path.basename(os.path.join(d, f))] is
    [f]: the model lists, sorts and removes entries by name.  The write of
    the temporary file and its rename are one step: it adds the final
    file, or it raises and the temporary file stays in the directory. *)

Module History.
Import PyStr.

Definition _host_hist_dir (base_dir hostname : string) : string :=
  path_join (path_join base_dir "_history") hostname.

Definition snapshot_name (ts : string) : string := ts ++ ".json".

Definition snapshot_path (base_dir hostname ts : string) : string :=
  path_join (_host_hist_dir base_dir hostname) (snapshot_name ts).

(** The timestamps the collector produces,
    [strftime("%Y-%m-%d_%H-%M-%S")]: digits, hyphens and underscores. *)
Definition ts_char (c : ascii) : bool :=
  is_digit c || Ascii.eqb c "-" || Ascii.eqb c "_".

Fixpoint is_timestamp (ts : string) : bool :=
  match ts with
  | EmptyString => true
  | String c ts' => ts_char c && is_timestamp ts'
  end.

(** The sort key of [list_snapshots]:
    [os.path.basename(p).split(".json")[0]]. *)
Definition snapshot_key (name : string) : string := before_first ".json" name.

Definition list_snapshots (dir : gset string) : list string :=
  sorted_by String.leb snapshot_key
            (filter (fun f => endswith ".json" f) (elements dir)).

(** [files[0:stop]] *)
Definition slice_to {A} (stop : Z) (l : list A) : list A :=
  if (stop <? 0)%Z
  then take (Z.to_nat (Z.of_nat (length l) + stop)) l
  else take (Z.to_nat stop) l.

Section Store.
(** [tempfile.mkstemp(prefix="snap_", suffix=".json", dir=...)]: the name of
    the file it creates in the directory. *)
Variable tmp_name : gset string -> string.
(** Whether the write of the snapshot file succeeds, and whether
    [os.remove] of an entry succeeds or raises [OSError]. *)
Variable write_ok : string -> bool.
Variable remove_ok : string -> bool.

(** [try: os.remove(old) except OSError: pass] *)
Definition remove_quietly (dir : gset string) (old : string) : gset string :=
  if remove_ok old then dir ∖ {[old]} else dir.

Definition save_snapshot (base_dir hostname ts : string) (max_keep : Z)
    (dir : gset string) : res string * gset string :=
  let dst := snapshot_path base_dir hostname ts in
  if negb (write_ok dst) then (Raise OSError, {[tmp_name dir]} ∪ dir)
  else
    let dir := {[snapshot_name ts]} ∪ dir in
    let files := list_snapshots dir in
    let len := Z.of_nat (length files) in
    let dir :=
      if (max_keep <? len)%Z
      then foldl remove_quietly dir (slice_to (len - max_keep) files)
      else dir in
    (Ok dst, dir).

(** Saving a sequence of timestamps, one after the other, for one host;
    stops at the first save that raises. *)
Fixpoint save_all (base_dir hostname : string) (max_keep : Z)
    (tss : list string) (dir : gset string) : res unit * gset string :=
  match tss with
  | [] => (Ok tt, dir)
  | ts :: rest =>
      match save_snapshot base_dir hostname ts max_keep dir with
      | (Ok _, dir') => save_all base_dir hostname max_keep rest dir'
      | (Raise e, dir') => (Raise e, dir')
      end
  end.
End Store.

End History.

(** ** ideia6_features.py: from snapshots to migration deltas *)

Module Diff.
Import PyStr.

(** A parsed row: lower-case header to cell, in column order. *)
Definition row : Type := PyDict.dict string string.

(** [{ "<cmd lower>": { "parsed": [...] } }], in the order of the items. *)
Definition cmdmap : Type := PyDict.dict string (list row).

(** A stored snapshot; [meta] plays no part in the deltas. *)
Record snapshot : Type := {
  hostname : string;
  timestamp : string;
  items : list Crawl.item
}.

(** [for i, h in enumerate(low): if i < len(r): d[h] = str(r[i])] *)
Definition parse_row (low : list string) (r : list string) : row :=
  foldl (fun d ih =>
           if (fst ih <? length r)%nat
           then PyDict.set (snd ih) (nth (fst ih) r "") d
           else d)
        [] (imap pair low).

Definition _snapshot_to_cmdmap (snap : option snapshot) : cmdmap :=
  match snap with
  | None => []
  | Some snap =>
      foldl (fun out (it : Crawl.item) =>
               let '(cmd, _, headers, rows) := it in
               let cmd := lower (strip cmd) in
               let headers := map strip headers in
               if nonempty headers && nonempty rows
               then PyDict.set cmd (map (parse_row (map lower headers)) rows) out
               else PyDict.set cmd [] out)
            [] (items snap)
  end.

(** The first command whose name contains [key]. *)
Fixpoint _get_parsed (m : cmdmap) (key : string) : list row :=
  match m with
  | [] => []
  | (k, v) :: m' => if contains (lower key) k then v else _get_parsed m' key
  end.

Definition _norm_ifname (s : string) : string :=
  let s := strip s in
  let s := replace "FastEthernet" "Fa"
             (replace "TenGigabitEthernet" "Te"
                (replace "GigabitEthernet" "Gi" s)) in
  replace "Ethernet" "Eth"
    (replace "Port-Channel" "Po" (replace "Port-channel" "Po" s)).

(** [str(x) for x in range(a, b + 1)] *)
Definition range_strs (a b : N) : list string :=
  map (fun i => str (a + N.of_nat i)) (seq 0 (N.to_nat (b + 1 - a))).

(** One comma-separated part of the allowed list.  Both ends of a range
    go through [int] once [str.isdigit] has accepted them; a part with a
    hyphen that is no such range gives nothing. *)
Definition expand_part (p : string) : res (list string) :=
  if contains "-" p then
    match split_once "-" p with
    | Some (a, b) =>
        if isdigit a && isdigit b then
          res_bind (to_int a) (fun m =>
          res_bind (to_int b) (fun n => Ok (range_strs m n)))
        else Ok []
    | None => Ok []
    end
  else Ok [p].

(** The sort key [(0, int(x)) if x.isdigit() else (1, x)] and the order of
    Python on such pairs; [allowed_key] is the key when [int] returns. *)
Definition allowed_key (x : string) : N + string :=
  if isdigit x then inl (int x) else inr x.

Definition allowed_key_res (x : string) : res (N + string) :=
  if isdigit x then res_bind (to_int x) (fun n => Ok (inl n)) else Ok (inr x).

Definition allowed_key_leb (a b : N + string) : bool :=
  match a, b with
  | inl m, inl n => (m <=? n)%N
  | inl _, inr _ => true
  | inr _, inl _ => false
  | inr s, inr t => String.leb s t
  end.

(** [_split_allowed]: an exception of the sort is caught and the tokens
    are then sorted as plain strings; an exception of the expansion
    escapes. *)
Definition _split_allowed (s : string) : res (list string) :=
  let s := replace " " "" s in
  if negb (truthy s) || String.eqb s "none" then Ok []
  else
    res_bind (map_res expand_part (split "," s)) (fun outs =>
    let out := filter (fun x => truthy x) (concat outs) in
    let tokens := elements (list_to_set out : gset string) in
    catch (sorted_by_res allowed_key_leb allowed_key_res tokens)
          (fun _ => Ok (sorted_by String.leb id tokens))).



(** [_pick(d, *keys)]: the first value that is not blank. *)
Fixpoint _pick (d : row) (keys : list string) : string :=
  match keys with
  | [] => ""
  | k :: ks =>
      match PyDict.get k d with
      | Some v => if truthy (strip v) then v else _pick d ks
      | None => _pick d ks
      end
  end.

(** *** VLANs *)






(** *** Interfaces *)

Record IfAttrs : Type := { status : string; vlan : string }.

#[export] Instance IfAttrs_eq_dec : EqDecision IfAttrs.
Proof. solve_decision. Defined.





(** *** Port-channels *)

Record PoAttrs : Type := { state : string; members : string }.

#[export] Instance PoAttrs_eq_dec : EqDecision PoAttrs.
Proof. solve_decision. Defined.







(** *** Trunks *)

Record TrunkAttrs : Type := { native : string; allowed : string }.

#[export] Instance TrunkAttrs_eq_dec : EqDecision TrunkAttrs.
Proof. solve_decision. Defined.





(** *** Neighbours *)

(** [_nk]: keys in lower case, spaces and hyphens turned into
    underscores; a later key with the same normal form overwrites. *)
Definition _nk (d : row) : row :=
  foldl (fun out kv =>
           PyDict.set (replace "-" "_" (replace " " "_" (lower (strip (fst kv)))))
                      (snd kv) out)
        [] d.

Record NeighborRow : Type := {
  neighbor : string; local_if : string; neighbor_if : string; proto : string
}.

Definition _neighbor_rows_from_parsed (lst : list row) (proto : string)
  : list NeighborRow :=
  flat_map (fun raw =>
              let d := _nk raw in
              let neighbor :=
                strip (_pick d ["neighbor"; "neighbor_name"; "device_id";
                                "system_name"; "system_name_value"; "chassis_id"]) in
              if negb (truthy neighbor) then []
              else
                let local_if :=
                  _norm_ifname (_pick d ["local_if"; "local_interface"; "local_port";
                                         "local port"; "interface"]) in
                let neighbor_if :=
                  _norm_ifname (_pick d ["neighbor_if"; "neighbor_interface";
                                         "neighbor_port"; "port_id"; "port description";
                                         "port_description"; "port_id_value"]) in
                [{| neighbor := neighbor; local_if := local_if;
                    neighbor_if := neighbor_if; proto := proto |}])
           lst.

(** The CDP rows of a snapshot and its LLDP rows. *)
Definition cdp_rows (m : cmdmap) : list NeighborRow :=
  _neighbor_rows_from_parsed (_get_parsed m "show cdp neighbors detail") "CDP".

Definition lldp_rows (m : cmdmap) : list NeighborRow :=
  let lldp := _get_parsed m "show lldp neighbors detail" in
  let lldp := if nonempty lldp then lldp else _get_parsed m "show lldp neighbors" in
  _neighbor_rows_from_parsed lldp "LLDP".

Definition _collect_neighbors (m : cmdmap) : list NeighborRow :=
  cdp_rows m ++ lldp_rows m.

Definition neighbor_key (r : NeighborRow) : string * string :=
  (lower (strip (neighbor r)), lower (strip (neighbor_if r))).

Definition set_local_if (v : string) (r : NeighborRow) : NeighborRow :=
  {| neighbor := neighbor r; local_if := v;
     neighbor_if := neighbor_if r; proto := proto r |}.

Definition merge_row (merged : gmap (string * string) NeighborRow)
    (r : NeighborRow) : gmap (string * string) NeighborRow :=
  let k := neighbor_key r in
  match merged !! k with
  | None => <[k := r]> merged
  | Some m =>
      if negb (truthy (local_if m)) && truthy (local_if r)
      then <[k := set_local_if (local_if r) m]> merged
      else merged
  end.

Definition _merge_by_neighbor_port (rows : list NeighborRow)
  : gmap (string * string) NeighborRow :=
  foldl merge_row ∅ rows.

Record NeighborRef : Type := {
  ref_neighbor : string; ref_local_if : string; ref_neighbor_if : string
}.

Definition neighbor_ref (r : NeighborRow) : NeighborRef :=
  {| ref_neighbor := neighbor r; ref_local_if := local_if r;
     ref_neighbor_if := neighbor_if r |}.

Record NeighborDelta : Type := {
  neigh_added : list NeighborRef;
  neigh_removed : list NeighborRef
}.

(** [for k in keys: r = rows[k]; ...]: every key of the list is a key of
    the dictionary. *)
Definition refs_of (rows : gmap (string * string) NeighborRow)
    (keys : list (string * string)) : list NeighborRef :=
  omap (fun k => neighbor_ref <$> rows !! k) keys.

Definition diff_neighbors (prev_map curr_map : cmdmap) : NeighborDelta :=
  let prev_rows := _merge_by_neighbor_port (_collect_neighbors prev_map) in
  let curr_rows := _merge_by_neighbor_port (_collect_neighbors curr_map) in
  let added_keys := sorted_pairs (dom curr_rows ∖ dom prev_rows) in
  let removed_keys := sorted_pairs (dom prev_rows ∖ dom curr_rows) in
  {| neigh_added := refs_of curr_rows added_keys;
     neigh_removed := refs_of prev_rows removed_keys |}.




End Diff.

(** ** history_json.py: reading the history back *)

Module HistoryRead.
Import PyStr History.

Section Load.
Context {data : Type}.
(** [load_snapshot(path)]: the content of an entry, or the exception of
    [open] or [json.load]. *)
Variable load_snapshot : string -> res data.

(** [get_last_two]: [files[-2]] is loaded before [files[-1]]. *)
Definition get_last_two (dir : gset string) : res (option data * option data) :=
  match rev (list_snapshots dir) with
  | [] => Ok (None, None)
  | [c] => res_bind (load_snapshot c) (fun dc => Ok (None, Some dc))
  | c :: p :: _ =>
      res_bind (load_snapshot p) (fun dp =>
      res_bind (load_snapshot c) (fun dc => Ok (Some dp, Some dc)))
  end.
End Load.

End HistoryRead.

(** ** excel_pipeline.py: the metrics stored with a snapshot *)

Module Metrics.
Import PyStr.

Record metrics : Type := {
  interfaces_total : N;
  interfaces_up : N;
  interfaces_down : N;
  vlans_active : N;
  cdp_total : N;
  inventory_total : N
}.

Definition no_metrics : metrics :=
  {| interfaces_total := 0; interfaces_up := 0; interfaces_down := 0;
     vlans_active := 0; cdp_total := 0; inventory_total := 0 |}.

(** [_idx_contains] of excel_utils.py: the first header that contains one
    of the candidates. *)
Definition _idx_contains (headers candidates : list string) : option nat :=
  match headers with
  | [] => None
  | _ =>
      find_idx (fun h => existsb (fun cand => contains cand h) candidates)
               (map (fun h => lower (strip h)) headers)
  end.

(** [str(r[i]).strip().lower() if i is not None and i < len(r) else ""] *)
Definition lower_cell (idx : option nat) (r : list string) : string :=
  lower (Crawl.cell idx r).

(** [extract_active_vlans_from_table]: the status cell counts only when it
    is not empty. *)
Definition extract_active_vlans_from_table (headers : list string)
    (rows : list (list string)) : gset string :=
  if negb (nonempty headers) || negb (nonempty rows) then ∅
  else
    let vidx := _idx_contains headers ["vlan"; "vlan id"; "vlan-id"] in
    let sidx := _idx_contains headers ["status"; "state"] in
    list_to_set
      (flat_map (fun r =>
                   let vid := Crawl.cell vidx r in
                   let st := lower_cell sidx r in
                   if isdigit vid
                      && (contains "active" st
                          || match sidx with None => true | Some _ => false end)
                   then [vid] else [])
                rows).

(** [port.startswith(("po", "port-channel", "vlan", ...))] *)
Definition is_virtual_port (port : string) : bool :=
  existsb (fun p => String.prefix p port)
          ["po"; "port-channel"; "vlan"; "lo"; "loopback"; "tunnel"; "nve";
           "virtual"].

(** The row is left out of the counters: its port cell names a virtual
    interface. *)
Definition skipped (p_idx : option nat) (r : list string) : bool :=
  match p_idx with
  | Some i => (i <? length r)%nat && is_virtual_port (lower (strip (nth i r "")))
  | None => false
  end.

(** [s in ("connected", "up")] for the status cell of the row. *)
Definition is_up (s_idx : option nat) (r : list string) : bool :=
  let s := lower_cell s_idx r in
  String.eqb s "connected" || String.eqb s "up".

(** The body of [for r in rows] in the interface branch. *)
Definition count_row (p_idx s_idx : option nat) (m : metrics) (r : list string)
  : metrics :=
  if skipped p_idx r then m
  else if is_up s_idx r then
    {| interfaces_total := interfaces_total m + 1;
       interfaces_up := interfaces_up m + 1;
       interfaces_down := interfaces_down m;
       vlans_active := vlans_active m;
       cdp_total := cdp_total m;
       inventory_total := inventory_total m |}
  else
    {| interfaces_total := interfaces_total m + 1;
       interfaces_up := interfaces_up m;
       interfaces_down := interfaces_down m + 1;
       vlans_active := vlans_active m;
       cdp_total := cdp_total m;
       inventory_total := inventory_total m |}.

(** The columns [port] and [status] of an interface table. *)
Definition port_idx (headers : list string) : option nat :=
  find_idx (String.eqb "port") (map (fun x => lower (strip x)) headers).

Definition status_idx (headers : list string) : option nat :=
  find_idx (String.eqb "status") (map (fun x => lower (strip x)) headers).

(** The item goes through the interface branch. *)
Definition is_interface_table (it : Crawl.item) : bool :=
  let '(cmd, _, headers, _) := it in
  contains "show interfaces status" (lower (strip cmd)) && nonempty headers.

Section Raw.
(** [extract_active_vlans_from_raw] reads the raw text with a regular
    expression; it is a parameter here. *)
Variable extract_active_vlans_from_raw : string -> gset string.

(** The body of [for cmd, raw, headers, rows in collected]. *)
Definition step (m : metrics) (it : Crawl.item) : metrics :=
  let '(cmd, raw, headers, rows) := it in
  let cl := lower (strip cmd) in
  if is_interface_table it then
    foldl (count_row (port_idx headers) (status_idx headers)) m rows
  else if contains "show vlan brief" cl then
    let vset :=
      if nonempty headers && nonempty rows
      then extract_active_vlans_from_table headers rows else ∅ in
    let vset :=
      if bool_decide (vset = ∅) && truthy raw
      then extract_active_vlans_from_raw raw else vset in
    {| interfaces_total := interfaces_total m;
       interfaces_up := interfaces_up m;
       interfaces_down := interfaces_down m;
       vlans_active := N.of_nat (size vset);
       cdp_total := cdp_total m;
       inventory_total := inventory_total m |}
  else if contains "cdp neighbors" cl then
    {| interfaces_total := interfaces_total m;
       interfaces_up := interfaces_up m;
       interfaces_down := interfaces_down m;
       vlans_active := vlans_active m;
       cdp_total := N.max (cdp_total m) (N.of_nat (length rows));
       inventory_total := inventory_total m |}
  else if contains "show inventory" cl then
    {| interfaces_total := interfaces_total m;
       interfaces_up := interfaces_up m;
       interfaces_down := interfaces_down m;
       vlans_active := vlans_active m;
       cdp_total := cdp_total m;
       inventory_total := N.max (inventory_total m) (N.of_nat (length rows)) |}
  else m.

Definition metrics_from_collected (c : Crawl.collected) : metrics :=
  foldl step no_metrics c.
End Raw.

End Metrics.

(** ** history_json.py: the quick difference of two snapshots *)

Module SimpleDiff.
Import PyStr.

(** [by_cmd_map]: a later item with the same command replaces the earlier
    one. *)
Definition by_cmd_map (snap : Diff.snapshot) : gmap string Crawl.item :=
  foldl (fun m (it : Crawl.item) =>
           let '(cmd, _, _, _) := it in <[lower cmd := it]> m)
        ∅ (Diff.items snap).

Definition rows_of (o : option Crawl.item) : list (list string) :=
  match o with
  | Some (_, _, _, rows) => rows
  | None => []
  end.

(** One entry of [rows_delta]. *)
Record RowsDelta : Type := { rd_prev : N; rd_curr : N; rd_delta : Z }.

Definition rows_delta_of (p c : N) : RowsDelta :=
  {| rd_prev := p; rd_curr := c; rd_delta := Z.of_N c - Z.of_N p |}.

Definition rows_delta (pmap cmap : gmap string Crawl.item)
  : gmap string RowsDelta :=
  set_to_map (fun cmd =>
                (cmd, rows_delta_of (N.of_nat (length (rows_of (pmap !! cmd))))
                                    (N.of_nat (length (rows_of (cmap !! cmd))))))
             (dom pmap ∪ dom cmap).

(** [for r in rows: v = str(r[idx]).strip(); if v.isdigit(): vlans.add(v)].
    The index is not guarded: a row without the column raises
    [IndexError]. *)
Fixpoint column_vlans (idx : nat) (rows : list (list string))
  : res (list string) :=
  match rows with
  | [] => Ok []
  | r :: rest =>
      match nth_error r idx with
      | None => Raise IndexError
      | Some c =>
          let v := strip c in
          res_bind (column_vlans idx rest) (fun l =>
            Ok (if isdigit v then v :: l else l))
      end
  end.

(** One of the two blocks of [extract_vlans]: taken when the command
    contains [name] and the headers have a [vlan] column. *)
Definition vlans_if (name : string) (it : Crawl.item) : res (list string) :=
  let '(cmd, _, headers, rows) := it in
  if contains name (lower cmd) then
    match find_idx (String.eqb "vlan") (map lower headers) with
    | Some idx => column_vlans idx rows
    | None => Ok []
    end
  else Ok [].

Definition extract_vlans (it : Crawl.item) : res (gset string) :=
  res_bind (vlans_if "show vlan brief" it) (fun a =>
  res_bind (vlans_if "show interfaces status" it) (fun b =>
  Ok (list_to_set (a ++ b)))).

(** [vlanset]: the union over all the items, in their order. *)
Fixpoint vlanset_items (l : list Crawl.item) : res (gset string) :=
  match l with
  | [] => Ok ∅
  | it :: rest =>
      res_bind (extract_vlans it) (fun v =>
      res_bind (vlanset_items rest) (fun w => Ok (v ∪ w)))
  end.

Definition vlanset (snap : Diff.snapshot) : res (gset string) :=
  vlanset_items (Diff.items snap).

(** [count_connected]: here the index is guarded. *)
Definition count_connected (o : option Crawl.item) : N :=
  match o with
  | None => 0
  | Some (_, _, headers, rows) =>
      match find_idx (String.eqb "status") (map lower headers) with
      | None => 0
      | Some sidx =>
          N.of_nat (length (List.filter
            (fun r =>
               let st := if (sidx <? length r)%nat
                         then strip (lower (nth sidx r "")) else "" in
               String.eqb st "connected" || String.eqb st "up")
            rows))
      end
  end.

Record Dif : Type := {
  dif_rows_delta : gmap string RowsDelta;
  vlans_added : list string;
  vlans_removed : list string;
  interfaces_connected_delta : RowsDelta
}.

(** The result of [simple_diff]: the empty dictionary when a snapshot is
    missing, the four entries otherwise. *)
Inductive outcome : Type :=
| Nothing
| Full (d : Dif).

(** [simple_diff]: the VLAN sets are read first, which may raise
    [IndexError]; they hold every cell that [str.isdigit] accepts, and
    [sorted(..., key=int)] raises [ValueError] on one that [int] rejects. *)
Definition simple_diff (prev curr : option Diff.snapshot) : res outcome :=
  match prev, curr with
  | Some prev, Some curr =>
      let pmap := by_cmd_map prev in
      let cmap := by_cmd_map curr in
      res_bind (vlanset prev) (fun prev_v =>
      res_bind (vlanset curr) (fun curr_v =>
      res_bind (sorted_by_res N.leb to_int (elements (curr_v ∖ prev_v)))
               (fun added =>
      res_bind (sorted_by_res N.leb to_int (elements (prev_v ∖ curr_v)))
               (fun removed =>
      Ok (Full
            {| dif_rows_delta := rows_delta pmap cmap;
               vlans_added := added;
               vlans_removed := removed;
               interfaces_connected_delta :=
                 rows_delta_of
                   (count_connected (pmap !! "show interfaces status"))
                   (count_connected (cmap !! "show interfaces status")) |})))))
  | _, _ => Ok Nothing
  end.

End SimpleDiff.

(** ** Concrete devices for the runs below *)

Module Scenario.
Import Crawl.

(** Switch A: no serial in [show version], one CDP neighbour B. *)
Definition device_a : collected :=
  [("show version", "", ["hostname"; "serial"], [["A"; ""]]);
   ("show cdp neighbors detail", "", ["device_id"; "mgmt_address"],
    [["B"; "10.0.0.2"]])].

(** Switch B: no serial column at all, one CDP neighbour named by a host
    name only. *)
Definition device_b : collected :=
  [("show version", "", ["hostname"], [["B"]]);
   ("show cdp neighbors detail", "", ["device_id"; "mgmt_address"],
    [["switch-c"; ""]])].

Definition collect (ip : string) : res (string * string * collected * string) :=
  if String.eqb ip "10.0.0.1" then Ok ("A", "2024-01-01_10-00-00", device_a, "/out/A")
  else if String.eqb ip "10.0.0.2" then Ok ("B", "2024-01-01_10-00-05", device_b, "/out/B")
  else Raise OSError.

(** No name resolves, and every call of the report stage succeeds. *)
Definition no_dns (name : string) : res string := Raise OSError.
Definition all_ok (e : event) : bool := true.

Definition crawl (max_depth : Z) (allowed : option (list string))
    (hostmap : gmap string string) (fuel : nat) (seed_ip : string)
  : option (res (list (string * string))) :=
  crawl_topology IPv4.ip_address IPv4.ip_network IPv4.net_contains
                 no_dns collect all_ok max_depth allowed true hostmap None
                 fuel seed_ip.

Definition step (max_depth : Z) (allowed : option (list string))
    (hostmap : gmap string string) (ip : string) (depth : Z) : M unit :=
  iteration IPv4.ip_address IPv4.ip_network IPv4.net_contains
            no_dns collect all_ok max_depth allowed true hostmap None ip depth.

Definition enqueue (allowed : option (list string))
    (hostmap : gmap string string) (depth : Z) (n : Neighbor) : M unit :=
  enqueue_neighbor IPv4.ip_address IPv4.ip_network IPv4.net_contains
                   no_dns allowed true hostmap depth n.

(** A state in which the key ["unknown"] was visited at 10.0.0.1. *)
Definition after_a : cstate :=
  {| queue := []; seen_ips := {["10.0.0.1"]}; visited_keys := {["unknown"]};
     results := [("A", "/out/A/A_levantamento.xlsx")]; trace := [] |}.

End Scenario.

(** ** Concrete snapshots for the examples below *)

Module Example.


(** A snapshot in which CDP and LLDP report the same adjacency; only LLDP
    gives the local interface. *)
Definition both_protocols : Diff.snapshot :=
  {| Diff.hostname := "A"; Diff.timestamp := "2024-01-01_10-00-00";
     Diff.items :=
       [("show cdp neighbors detail", "",
         ["device_id"; "port_id"], [["SW-B"; "GigabitEthernet0/1"]]);
        ("show lldp neighbors detail", "",
         ["system_name"; "local_interface"; "port_id"],
         [["sw-b"; "Gi1/0/24"; "Gi0/1"]])] |}.

(** The same neighbour and remote port, first seen by CDP on one local
    interface and later by LLDP on another. *)
Definition uplink_before : Diff.snapshot :=
  {| Diff.hostname := "A"; Diff.timestamp := "2024-01-01_10-00-00";
     Diff.items :=
       [("show cdp neighbors detail", "",
         ["device_id"; "local_interface"; "port_id"],
         [["SW-B"; "Gi1/0/1"; "Gi0/1"]])] |}.

Definition uplink_after : Diff.snapshot :=
  {| Diff.hostname := "A"; Diff.timestamp := "2024-01-02_10-00-00";
     Diff.items :=
       [("show lldp neighbors detail", "",
         ["system_name"; "local_interface"; "port_id"],
         [["sw-b"; "Gi1/0/2"; "Gi0/1"]])] |}.

(** A VLAN table with the id 10, and one in which the id is the
    superscript digit U+00B2. *)
Definition vlan_ten : Diff.snapshot :=
  {| Diff.hostname := "A"; Diff.timestamp := "2024-01-01_10-00-00";
     Diff.items := [("show vlan brief", "", ["vlan"; "name"], [["10"; "users"]])] |}.

Definition vlan_superscript : Diff.snapshot :=
  {| Diff.hostname := "A"; Diff.timestamp := "2024-01-02_10-00-00";
     Diff.items := [("show vlan brief", "", ["vlan"; "name"], [["²"; "users"]])] |}.

(** The three timestamps of a retention run with [max_keep = 2]. *)
Definition three_saves : list string :=
  ["2024-01-03_00-00-00"; "2024-01-01_00-00-00"; "2024-01-02_00-00-00"].

End Example.

(** Histories for the runs of the snapshot store. *)
Module Store.

(** Two snapshots and a file that is none. *)
Definition two_snapshots : gset string :=
  {["2024-01-01_00-00-00.json"; "2024-01-02_00-00-00.json"; "notes.txt"]}.

(** A name that [mkstemp] may create. *)
Definition mkstemp (dir : gset string) : string := "snap_k3x9q2ab.json".

(** A reader under which every entry holds its own name. *)
Definition read_name (f : string) : res string := Ok f.

(** A reader that fails on the snapshot of 2 January. *)
Definition read_damaged (f : string) : res string :=
  if String.eqb f "2024-01-02_00-00-00.json" then Raise ValueError else Ok f.

End Store.

(** * Facts about the primitives *)

Section SortingFacts.
Context {A K : Type}.
Variable le : K -> K -> bool.
Variable key : A -> K.
Hypothesis le_total : forall a b, le a b = true \/ le b a = true.
Hypothesis le_trans : forall a b c, le a b = true -> le b c = true -> le a c = true.

Definition key_le (x y : A) : Prop := le (key x) (key y) = true.

Lemma insert_by_perm x l : Permutation (insert_by le key x l) (x :: l).
Proof.
  induction l as [|y l IH]; simpl; [done|].
  destruct (le (key x) (key y)); [done|].
  rewrite IH. apply perm_swap.
Qed.

Lemma sorted_by_perm l : Permutation (sorted_by le key l) l.
Proof.
  induction l as [|x l IH]; simpl; [done|].
  fold (sorted_by le key l). rewrite insert_by_perm. by constructor.
Qed.

Lemma sorted_by_length l : length (sorted_by le key l) = length l.
Proof. apply Permutation_length, sorted_by_perm. Qed.

Lemma sorted_by_elem x l : x ∈ sorted_by le key l <-> x ∈ l.
Proof. by rewrite sorted_by_perm. Qed.

Lemma sorted_by_NoDup l : NoDup l -> NoDup (sorted_by le key l).
Proof. intros H. by rewrite sorted_by_perm. Qed.

Lemma insert_by_sorted x l :
  StronglySorted key_le l -> StronglySorted key_le (insert_by le key x l).
Proof.
  induction 1 as [|y l Hs IH Hall]; simpl.
  { repeat constructor. }
  destruct (le (key x) (key y)) eqn:Hxy.
  - constructor; [by constructor|].
    constructor; [exact Hxy|].
    eapply Forall_impl; [exact Hall|].
    intros z Hz. unfold key_le in *. by eapply le_trans.
  - constructor; [exact IH|].
    assert (Hyx : key_le y x).
    { unfold key_le. destruct (le_total (key x) (key y)); congruence. }
    rewrite insert_by_perm. by constructor.
Qed.

Lemma sorted_by_sorted l : StronglySorted key_le (sorted_by le key l).
Proof.
  induction l as [|x l IH]; simpl; [constructor|].
  by apply insert_by_sorted.
Qed.

(** The head of a sorted list has the least key. *)
Lemma sorted_by_head_least l r rest x :
  sorted_by le key l = r :: rest -> x ∈ l -> key_le r x.
Proof.
  intros Heq Hx.
  pose proof (sorted_by_sorted l) as Hs. rewrite Heq in Hs.
  apply sorted_by_elem in Hx. rewrite Heq in Hx.
  inversion Hs as [|? ? _ Hall]; subst.
  apply elem_of_cons in Hx as [->|Hx].
  - unfold key_le. destruct (le_total (key r) (key r)); done.
  - rewrite Forall_forall in Hall. by apply Hall.
Qed.
End SortingFacts.

Section StringFacts.
Import PyStr.

Lemma string_leb_trans a b c :
  String.leb a b = true -> String.leb b c = true -> String.leb a c = true.
Proof.
  unfold String.leb. revert b c.
  induction a as [|x a IH]; intros [|y b] [|z c]; simpl; try done.
  unfold Ascii.compare.
  destruct (N.compare_spec (N_of_ascii x) (N_of_ascii y)),
           (N.compare_spec (N_of_ascii y) (N_of_ascii z)),
           (N.compare_spec (N_of_ascii x) (N_of_ascii z));
    try done; try lia.
  apply IH.
Qed.

Lemma string_leb_refl a : String.leb a a = true.
Proof. destruct (String.leb_total a a); done. Qed.

Lemma endswith_app suf s : endswith suf (s ++ suf) = true.
Proof.
  induction s as [|c s IH]; simpl.
  - destruct suf; simpl; rewrite ?String.eqb_refl, ?Ascii.eqb_refl; done.
  - rewrite IH. apply orb_true_r.
Qed.

End StringFacts.

Section ResFacts.
Context {A B : Type}.

Lemma map_res_Ok (f : A -> res B) (g : A -> B) l :
  (forall x, x ∈ l -> f x = Ok (g x)) -> map_res f l = Ok (map g l).
Proof.
  induction l as [|x l IH]; intros Hf; [done|].
  cbn [map_res map]. rewrite (Hf x) by left. cbn [res_bind].
  rewrite IH by (intros y Hy; apply Hf; by right). done.
Qed.


Lemma map_res_error (f : A -> res B) l e :
  map_res f l = Raise e -> exists x, x ∈ l /\ f x = Raise e.
Proof.
  induction l as [|y l IH]; cbn [map_res]; [done|].
  destruct (f y) as [b|e'] eqn:Hy; cbn [res_bind].
  - destruct (map_res f l) as [ys|e''] eqn:Hl; cbn [res_bind]; [done|].
    intros [= ->]. destruct (IH eq_refl) as (x & Hx & Hfx).
    exists x. split; [by right|done].
  - intros [= ->]. exists y. split; [left|done].
Qed.

Lemma map_res_inv (f : A -> res B) l ys :
  map_res f l = Ok ys -> Forall2 (fun x y => f x = Ok y) l ys.
Proof.
  revert ys. induction l as [|x l IH]; intros ys; cbn [map_res].
  - intros [= <-]. constructor.
  - destruct (f x) as [y|] eqn:Hx; [|done]. cbn [res_bind].
    destruct (map_res f l) as [ys'|] eqn:Hl; [|done]. cbn [res_bind].
    intros [= <-]. constructor; [done|by apply IH].
Qed.

End ResFacts.

Section SortedByRes.
Context {A K : Type}.
Variable le : K -> K -> bool.

Lemma insert_by_decorated (k : A -> K) x (L : list (K * A)) :
  Forall (fun p => fst p = k (snd p)) L ->
  map snd (insert_by le fst (k x, x) L) = insert_by le k x (map snd L)
  /\ Forall (fun p => fst p = k (snd p)) (insert_by le fst (k x, x) L).
Proof.
  induction 1 as [|[a b] L Hp HL IH]; cbn [insert_by map fst snd].
  - split; [done|]. by repeat constructor.
  - cbn in Hp. subst a. destruct (le (k x) (k b)).
    + split; [done|]. repeat constructor; done.
    + destruct IH as [IH1 IH2]. cbn [map snd]. rewrite IH1. split; [done|].
      by constructor.
Qed.

Lemma sorted_by_decorated (k : A -> K) l :
  map snd (sorted_by le fst (combine (map k l) l)) = sorted_by le k l
  /\ Forall (fun p => fst p = k (snd p)) (sorted_by le fst (combine (map k l) l)).
Proof.
  induction l as [|x l [IH1 IH2]]; [split; [done|constructor]|].
  cbn [map combine]. unfold sorted_by in *. cbn [foldr].
  destruct (insert_by_decorated k x _ IH2) as [H1 H2].
  split; [by rewrite H1, IH1|done].
Qed.

(** When no key raises, the sort is the sort by the keys. *)
Lemma sorted_by_res_Ok (key : A -> res K) (k : A -> K) l :
  (forall x, x ∈ l -> key x = Ok (k x)) ->
  sorted_by_res le key l = Ok (sorted_by le k l).
Proof.
  intros Hk. unfold sorted_by_res. rewrite (map_res_Ok key k l Hk).
  cbn [res_bind]. f_equal. apply sorted_by_decorated.
Qed.

End SortedByRes.

(** * Properties of the crawl scheduler *)

Section CrawlProperties.
Import PyStr Crawl.
Context {addr net : Type}.
Variable ip_address : string -> res addr.
Variable ip_network : string -> res net.
Variable net_contains : net -> addr -> bool.
Variable gethostbyname : string -> res string.
Variable collect : string -> res (string * string * collected * string).
Variable io_ok : event -> bool.
Variable max_depth : Z.
Variable allowed_subnets : option (list string).
Variable dns_fallback : bool.
Variable hostmap : gmap string string.
Variable out_dir_override : option string.

Local Abbreviation in_allowed :=
  (_in_allowed_subnets ip_address ip_network net_contains).
Local Abbreviation in_any := (in_any_network ip_network net_contains).
Local Abbreviation resolve := (resolve_address gethostbyname dns_fallback hostmap).
Local Abbreviation enqueue :=
  (enqueue_neighbor ip_address ip_network net_contains gethostbyname
     allowed_subnets dns_fallback hostmap).
Local Abbreviation expand_ :=
  (expand ip_address ip_network net_contains gethostbyname max_depth
     allowed_subnets dns_fallback hostmap).
Local Abbreviation report_ := (report io_ok out_dir_override).
Local Abbreviation visit_ :=
  (visit ip_address ip_network net_contains gethostbyname collect io_ok
     max_depth allowed_subnets dns_fallback hostmap out_dir_override).
Local Abbreviation iteration_ :=
  (iteration ip_address ip_network net_contains gethostbyname collect io_ok
     max_depth allowed_subnets dns_fallback hostmap out_dir_override).
Local Abbreviation crawl_loop_ :=
  (crawl_loop ip_address ip_network net_contains gethostbyname collect io_ok
     max_depth allowed_subnets dns_fallback hostmap out_dir_override).

Lemma set_queue_same s : set_queue (queue s) s = s.
Proof. by destruct s. Qed.

Lemma in_any_network_ok ipx l : exists b, in_any ipx l = Ok b.
Proof.
  induction l as [|cidr l IH]; simpl; [by eexists|].
  destruct (ip_network cidr) as [n|e]; simpl; [|exact IH].
  destruct (net_contains n ipx); [by eexists|exact IH].
Qed.

Lemma in_allowed_subnets_ok ip allowed : exists b, in_allowed ip allowed = Ok b.
Proof.
  destruct allowed as [[|c l]|]; unfold _in_allowed_subnets; try by eexists.
  destruct (ip_address ip) as [ipx|e]; cbn [res_bind catch]; [|by eexists].
  destruct (in_any_network_ok ipx (c :: l)) as [b ->]. by eexists.
Qed.




Lemma call_ok e s : io_ok e = true -> call io_ok e s = (Ok tt, add_event e s).
Proof. intros H. unfold call. by rewrite H. Qed.


(** The part of the [try] block before the identity check. *)
Definition effective_outdir (outdir : string) : string :=
  if opt_truthy out_dir_override then opt_or out_dir_override "" else outdir.

Definition after_collect (ip : string) (s : cstate) : cstate :=
  let s := add_event (Ev_collect ip) (add_seen ip s) in
  if opt_truthy out_dir_override
  then add_event (Ev_makedirs (opt_or out_dir_override "")) s
  else s.

Lemma iteration_unfold ip depth host ts c outdir s :
  ip ∉ seen_ips s ->
  in_allowed ip allowed_subnets = Ok true ->
  collect ip = Ok (host, ts, c, outdir) ->
  (opt_truthy out_dir_override = true ->
   io_ok (Ev_makedirs (opt_or out_dir_override "")) = true) ->
  iteration_ ip depth s =
    let s1 := after_collect ip s in
    let outdir := effective_outdir outdir in
    let xlsx_path := path_join outdir (host ++ "_levantamento.xlsx") in
    let key_id := best (_extract_device_key_from_collected c) in
    try_except
      (let! _ :=
         (fun s =>
            if decide (key_id ∈ visited_keys s) then ret tt s
            else (let! _ := modify (add_visited key_id) in
                  report_ ip host ts outdir xlsx_path c) s) in
       expand_ depth c)
      (fun _ => modify (add_event (Ev_log_failure ip))) s1.
Proof.
  intros Hseen Hall Hcol Hmk. unfold iteration.
  destruct (decide (ip ∈ seen_ips s)) as [|_]; [done|].
  unfold Crawl.bind at 1. unfold modify at 1.
  unfold Crawl.bind at 1. unfold lift at 1. rewrite Hall. cbn [negb].
  unfold visit, try_except, after_collect, effective_outdir.
  unfold Crawl.bind at 1. unfold modify at 1.
  unfold Crawl.bind at 1. unfold lift at 1. rewrite Hcol.
  unfold Crawl.bind at 1.
  destruct (opt_truthy out_dir_override) eqn:Hov.
  - unfold Crawl.bind at 1. rewrite call_ok by auto. unfold ret at 1. reflexivity.
  - unfold ret at 1. reflexivity.
Qed.




(** C3: a neighbour whose name is a key of the host map is reached at the
    mapped address, whatever the adjacency table or the resolver gave; that
    address is the one checked against the allow-list and queued. *)
Theorem hostmap_overrides_resolution n a depth s :
  hostmap !! device_id n = Some a ->
  resolve n = a
  /\ (truthy a = true -> in_allowed a allowed_subnets = Ok true ->
      a ∉ seen_ips s ->
      enqueue depth n s
      = (Ok tt, set_queue (queue s ++ [(a, (depth + 1)%Z)]) s)).
Proof.
  intros Hmap.
  assert (Hres : resolve n = a) by (unfold resolve_address; by rewrite Hmap).
  split; [done|]. intros Ha Hall Hseen.
  unfold enqueue_neighbor. rewrite Hres, Ha. cbn [negb].
  unfold Crawl.bind, lift. rewrite Hall. cbn [negb]. unfold modify.
  by destruct (decide (a ∈ seen_ips s)).
Qed.

Lemma iteration_returns ip depth s :
  exists s', iteration_ ip depth s = (Ok tt, s').
Proof.
  unfold iteration. destruct (decide (ip ∈ seen_ips s)); [by eexists|].
  unfold Crawl.bind at 1. unfold modify at 1.
  unfold Crawl.bind at 1. unfold lift at 1.
  destruct (in_allowed_subnets_ok ip allowed_subnets) as [b ->].
  destruct b; cbn [negb]; [|by eexists].
  unfold try_except.
  destruct (visit_ ip depth (add_seen ip s)) as [[[]|e] s']; [by eexists|].
  unfold modify. by eexists.
Qed.

Lemma crawl_loop_never_raises fuel s e s' :
  crawl_loop_ fuel s <> Some (Raise e, s').
Proof.
  revert s. induction fuel as [|fuel IH]; intros s; simpl.
  - destruct (queue s) as [|[ip depth] q]; discriminate.
  - destruct (queue s) as [|[ip depth] q]; [discriminate|].
    destruct (iteration_returns ip depth (set_queue q s)) as [s1 ->]. apply IH.
Qed.

Lemma in_any_network_skip ipx cidr l1 l2 :
  raises (ip_network cidr) ->
  in_any ipx (l1 ++ cidr :: l2) = in_any ipx (l1 ++ l2).
Proof.
  intros [e He]. induction l1 as [|c l1 IH]; simpl.
  - by rewrite He.
  - by rewrite IH.
Qed.

End CrawlProperties.

Section AllowListProperties.
Import PyStr Crawl.
Context {addr net : Type}.
Variable ip_address : string -> res addr.
Variable ip_network : string -> res net.
Variable net_contains : net -> addr -> bool.
Variable gethostbyname : string -> res string.
Variable collect : string -> res (string * string * collected * string).
Variable io_ok : event -> bool.
Variable max_depth : Z.
Variable dns_fallback : bool.
Variable hostmap : gmap string string.
Variable out_dir_override : option string.

Local Abbreviation in_allowed :=
  (_in_allowed_subnets ip_address ip_network net_contains).
Local Abbreviation in_any := (in_any_network ip_network net_contains).
Local Abbreviation resolve := (resolve_address gethostbyname dns_fallback hostmap).
Local Abbreviation enqueue_with allowed :=
  (enqueue_neighbor ip_address ip_network net_contains gethostbyname
     allowed dns_fallback hostmap).
Local Abbreviation crawl_loop_with allowed :=
  (crawl_loop ip_address ip_network net_contains gethostbyname collect io_ok
     max_depth allowed dns_fallback hostmap out_dir_override).

(** C4 (amended): an allow-list entry that does not parse as a network
    never makes the check or the crawl raise.  The parse error is caught
    and the entry is passed over: it matches no address, and the answer is
    the one of the other entries. *)
Theorem unparsable_cidr_is_skipped ip ipx cidr l1 l2 fuel s :
  raises (ip_network cidr) ->
  (exists b, in_allowed ip (Some (l1 ++ cidr :: l2)) = Ok b)
  /\ in_any ipx [cidr] = Ok false
  /\ in_any ipx (l1 ++ cidr :: l2) = in_any ipx (l1 ++ l2)
  /\ (forall e s',
        crawl_loop_with (Some (l1 ++ cidr :: l2)) fuel s <> Some (Raise e, s')).
Proof.
  intros Hbad. split; [apply in_allowed_subnets_ok|].
  split; [|split].
  - apply (in_any_network_skip _ _ ipx cidr [] [] Hbad).
  - by apply in_any_network_skip.
  - intros e s'. apply crawl_loop_never_raises.
Qed.

(** C10: with no allow-list, or an empty one, the check accepts every
    string, parsable or not; with an allow-list that has an entry it
    rejects every string that is not an address.  A neighbour resolved to
    such a string is therefore dropped under a non-empty allow-list and
    queued under an empty one. *)
Theorem non_ip_text_and_the_allow_list ip c l n depth s :
  in_allowed ip None = Ok true
  /\ in_allowed ip (Some []) = Ok true
  /\ (raises (ip_address ip) ->
      in_allowed ip (Some (c :: l)) = Ok false
      /\ (resolve n = ip -> truthy ip = true ->
          enqueue_with (Some (c :: l)) depth n s = (Ok tt, s)
          /\ (ip ∉ seen_ips s ->
              enqueue_with (Some []) depth n s
              = (Ok tt, set_queue (queue s ++ [(ip, (depth + 1)%Z)]) s)
              /\ enqueue_with None depth n s
                 = (Ok tt, set_queue (queue s ++ [(ip, (depth + 1)%Z)]) s)))).
Proof.
  split; [done|]. split; [done|]. intros [e He].
  assert (Hrej : in_allowed ip (Some (c :: l)) = Ok false).
  { unfold _in_allowed_subnets. by rewrite He. }
  split; [done|]. intros Hres Htr.
  unfold enqueue_neighbor. rewrite Hres, Htr. cbn [negb].
  unfold Crawl.bind, lift. rewrite Hrej. cbn [negb]. split; [done|].
  intros Hseen. cbn [_in_allowed_subnets negb]. unfold modify.
  by destruct (decide (ip ∈ seen_ips s)).
Qed.

End AllowListProperties.

(** ** The crawl on concrete devices *)

Section CrawlRuns.
Import PyStr Crawl.


Lemma hostmap_overrides_resolution_witness :
  resolve_address Scenario.no_dns true {["B" := "10.9.9.9"]}
    {| device_id := "B"; neigh_mgmt_ip := Some "10.0.0.2" |} = "10.9.9.9".
Proof.
  apply (hostmap_overrides_resolution
           IPv4.ip_address IPv4.ip_network IPv4.net_contains Scenario.no_dns
           None true {["B" := "10.9.9.9"]}
           {| device_id := "B"; neigh_mgmt_ip := Some "10.0.0.2" |}
           "10.9.9.9" 0 Scenario.after_a).
  by vm_compute.
Defined.

(** C4, as stated, fails: with the allow-list ["bogus"; "10.0.0.0/24"] the
    crawl does not raise, it reports the seed. *)
Lemma unparsable_cidr_does_not_fail_the_crawl :
  raises (IPv4.ip_network "bogus")
  /\ Scenario.crawl 0 (Some ["bogus"; "10.0.0.0/24"]) ∅ 5 "10.0.0.1"
     = Some (Ok [("A", "/out/A/A_levantamento.xlsx")]).
Proof. split; [by exists ValueError|by vm_compute]. Qed.

Lemma unparsable_cidr_is_skipped_witness :
  raises (IPv4.ip_network "bogus")
  /\ in_any_network IPv4.ip_network IPv4.net_contains 167772161%N
       ["bogus"; "10.0.0.0/24"]
     = in_any_network IPv4.ip_network IPv4.net_contains 167772161%N
         ["10.0.0.0/24"].
Proof.
  assert (Hbad : raises (IPv4.ip_network "bogus")) by (by exists ValueError).
  split; [exact Hbad|].
  apply (unparsable_cidr_is_skipped
           IPv4.ip_address IPv4.ip_network IPv4.net_contains Scenario.no_dns
           Scenario.collect Scenario.all_ok 1 true ∅ None
           "10.0.0.1" 167772161%N "bogus" [] ["10.0.0.0/24"] 5
           (initial "10.0.0.1") Hbad).
Defined.

Lemma non_ip_text_and_the_allow_list_witness :
  raises (IPv4.ip_address "sw-c.lan")
  /\ Scenario.enqueue (Some ["10.0.0.0/24"]) {["switch-c" := "sw-c.lan"]} 0
       {| device_id := "switch-c"; neigh_mgmt_ip := None |} Scenario.after_a
     = (Ok tt, Scenario.after_a)
  /\ Scenario.enqueue (Some []) {["switch-c" := "sw-c.lan"]} 0
       {| device_id := "switch-c"; neigh_mgmt_ip := None |} Scenario.after_a
     = (Ok tt, set_queue [("sw-c.lan", 1%Z)] Scenario.after_a).
Proof.
  assert (Hbad : raises (IPv4.ip_address "sw-c.lan")) by (by exists ValueError).
  split; [exact Hbad|].
  destruct (non_ip_text_and_the_allow_list
              IPv4.ip_address IPv4.ip_network IPv4.net_contains Scenario.no_dns
              true {["switch-c" := "sw-c.lan"]}
              "sw-c.lan" "10.0.0.0/24" []
              {| device_id := "switch-c"; neigh_mgmt_ip := None |}
              0 Scenario.after_a)
    as (_ & _ & H).
  destruct (H Hbad) as (_ & H2).
  destruct (H2 eq_refl eq_refl) as (Hdrop & H3).
  split; [exact Hdrop|].
  apply H3. by vm_compute.
Defined.

(** C1: the key built from the collected tables never holds the
    management address, so that every device without a serial number gets
    the key ["unknown"]: of the two serial-less switches A (10.0.0.1) and
    B (10.0.0.2), only A receives a report. *)
Theorem serialless_devices_share_the_key_unknown :
  (forall c, mgmt_ip (_extract_device_key_from_collected c) = None)
  /\ (forall c, best (_extract_device_key_from_collected c)
               = opt_or (serial (_extract_device_key_from_collected c)) "unknown")
  /\ best (_extract_device_key_from_collected Scenario.device_a) = "unknown"
  /\ best (_extract_device_key_from_collected Scenario.device_b) = "unknown"
  /\ Scenario.crawl 1 None ∅ 5 "10.0.0.1"
     = Some (Ok [("A", "/out/A/A_levantamento.xlsx")]).
Proof.
  split; [done|]. split; [done|]. split; [by vm_compute|].
  split; by vm_compute.
Qed.

End CrawlRuns.

(** * Properties of the snapshot store *)

Section HistoryProperties.
Import PyStr History.
Variable tmp_name : gset string -> string.

Local Abbreviation snaps dir :=
  (filter (fun f => endswith ".json" f) (elements dir)).
Local Abbreviation save :=
  (save_snapshot tmp_name (fun _ => true) (fun _ => true)).

Lemma ts_char_not_dot c : ts_char c = true -> c <> "."%char.
Proof. intros H ->. discriminate H. Qed.

(** The sort key of the file of a timestamp is the timestamp. *)
Lemma key_of_name ts :
  is_timestamp ts = true -> snapshot_key (snapshot_name ts) = ts.
Proof.
  unfold snapshot_key, snapshot_name.
  induction ts as [|c ts IH]; [done|].
  intros [Hc Hts]%andb_true_iff.
  change (String c ts +:+ ".json") with (String c (ts +:+ ".json")).
  cbn [before_first String.prefix].
  destruct (ascii_dec "." c) as [<-|_]; [discriminate Hc|].
  by rewrite IH.
Qed.

Lemma name_inj t1 t2 :
  is_timestamp t1 = true -> is_timestamp t2 = true ->
  snapshot_name t1 = snapshot_name t2 -> t1 = t2.
Proof.
  intros H1 H2 Heq.
  rewrite <- (key_of_name t1 H1), <- (key_of_name t2 H2). by rewrite Heq.
Qed.

Lemma name_is_snapshot ts : endswith ".json" (snapshot_name ts) = true.
Proof. apply endswith_app. Qed.

Lemma list_snapshots_length (dir : gset string) :
  length (list_snapshots dir) = length (snaps dir).
Proof. apply sorted_by_length. Qed.

Lemma elem_of_list_snapshots f (dir : gset string) :
  f ∈ list_snapshots dir <-> endswith ".json" f = true /\ f ∈ dir.
Proof.
  unfold list_snapshots.
  rewrite sorted_by_elem, list_elem_of_filter, elem_of_elements.
  by rewrite Is_true_true.
Qed.

Lemma snaps_insert (dir : gset string) f :
  f ∉ dir -> endswith ".json" f = true ->
  snaps ({[f]} ∪ dir) ≡ₚ f :: snaps dir.
Proof.
  intros Hf Hjson. rewrite elements_union_singleton by done.
  rewrite filter_cons_True; [done|]. by rewrite Hjson.
Qed.

Lemma snaps_remove (dir : gset string) f :
  f ∈ dir -> endswith ".json" f = true ->
  snaps dir ≡ₚ f :: snaps (dir ∖ {[f]}).
Proof.
  intros Hf Hjson.
  rewrite (union_difference_singleton_L f dir Hf) at 1.
  apply snaps_insert; [|done].
  intros [_ Hnot]%elem_of_difference. apply Hnot. by apply elem_of_singleton.
Qed.

(** What holds of the directory once the timestamps [written] have been
    saved, keeping at most [m] files. *)
Record retained (m : nat) (written : list string) (dir : gset string) : Prop := {
  ret_names : forall f, f ∈ dir -> exists t, t ∈ written /\ f = snapshot_name t;
  ret_count : length (snaps dir) = Nat.min (length written) m;
  ret_oldest : forall t g, t ∈ written -> g ∈ written ->
                 snapshot_name t ∉ dir -> snapshot_name g ∈ dir ->
                 String.leb t g = true;
  ret_all : length written <= m ->
            forall t, t ∈ written -> snapshot_name t ∈ dir
}.

Lemma retained_empty m : retained m [] ∅.
Proof.
  split.
  - intros f Hf. by apply elem_of_empty in Hf.
  - by rewrite elements_empty.
  - intros t g Ht. by apply elem_of_nil in Ht.
  - intros _ t Ht. by apply elem_of_nil in Ht.
Qed.

Lemma elem_of_snoc (t ts : string) written :
  t ∈ written ++ [ts] <-> t ∈ written \/ t = ts.
Proof. rewrite elem_of_app, list_elem_of_singleton. done. Qed.

Lemma save_snapshot_unfold base host ts mk dir :
  save base host ts mk dir =
    (Ok (snapshot_path base host ts),
     let dir1 := {[snapshot_name ts]} ∪ dir in
     let files := list_snapshots dir1 in
     let len := Z.of_nat (length files) in
     if (mk <? len)%Z
     then foldl (remove_quietly (fun _ => true)) dir1 (slice_to (len - mk) files)
     else dir1).
Proof. reflexivity. Qed.

(** One more save keeps the invariant. *)
Lemma save_keeps_retained base host mk written ts dir :
  (0 <= mk)%Z ->
  is_timestamp ts = true ->
  Forall (fun t => is_timestamp t = true) written ->
  ts ∉ written ->
  retained (Z.to_nat mk) written dir ->
  exists dir',
    save base host ts mk dir = (Ok (snapshot_path base host ts), dir')
    /\ retained (Z.to_nat mk) (written ++ [ts]) dir'.
Proof.
  intros Hmk Hts Hw Hnew [HA HB HC HD].
  rewrite Forall_forall in Hw.
  rewrite save_snapshot_unfold. eexists. split; [reflexivity|].
  set (dir1 := {[snapshot_name ts]} ∪ dir).
  assert (Hfresh : snapshot_name ts ∉ dir).
  { intros Hin. destruct (HA _ Hin) as (t & Ht & Heq).
    apply name_inj in Heq; [by subst|done|by apply Hw]. }
  assert (Hperm : snaps dir1 ≡ₚ snapshot_name ts :: snaps dir).
  { apply snaps_insert; [done|apply name_is_snapshot]. }
  assert (Hlen : length (list_snapshots dir1) = S (length (snaps dir))).
  { by rewrite list_snapshots_length, Hperm. }
  assert (HA1 : forall f, f ∈ dir1 ->
                  exists t, t ∈ written ++ [ts] /\ f = snapshot_name t).
  { intros f [Hx|Hf]%elem_of_union.
    - apply elem_of_singleton in Hx as ->. exists ts.
      split; [apply elem_of_snoc; by right|done].
    - destruct (HA f Hf) as (t & Ht & ->). exists t.
      split; [apply elem_of_snoc; by left|done]. }
  assert (Hw1 : forall t, t ∈ written ++ [ts] -> is_timestamp t = true).
  { intros t [Ht| ->]%elem_of_snoc; [by apply Hw|done]. }
  cbv zeta. fold dir1. rewrite Hlen.
  destruct (mk <? Z.of_nat (S (length (snaps dir))))%Z eqn:Hcmp.
  - (* one file over the limit: the first of the sorted list goes *)
    apply Z.ltb_lt in Hcmp.
    assert (Hfull : length (snaps dir) = Z.to_nat mk) by lia.
    assert (Hmany : Z.to_nat mk <= length written) by lia.
    replace (Z.of_nat (S (length (snaps dir))) - mk)%Z with 1%Z by lia.
    destruct (list_snapshots dir1) as [|r rest] eqn:Hfiles; [discriminate Hlen|].
    change (foldl (remove_quietly (fun _ => true)) dir1 (slice_to 1 (r :: rest)))
      with (dir1 ∖ {[r]}).
    assert (Hr : endswith ".json" r = true /\ r ∈ dir1).
    { apply elem_of_list_snapshots. rewrite Hfiles. left. }
    destruct Hr as [Hrj Hrd].
    assert (Hleast : forall g, g ∈ written ++ [ts] -> snapshot_name g ∈ dir1 ->
                       String.leb (snapshot_key r) g = true).
    { intros g Hg Hgd.
      rewrite <- (key_of_name g) by (by apply Hw1).
      apply (sorted_by_head_least String.leb snapshot_key
               String.leb_total string_leb_trans (snaps dir1) r rest);
        [exact Hfiles|].
      apply list_elem_of_filter. split; [by rewrite name_is_snapshot|].
      by apply elem_of_elements. }
    destruct (HA1 r Hrd) as (tr & Htr & ->).
    rewrite key_of_name in Hleast by (by apply Hw1).
    split.
    + intros f [Hf _]%elem_of_difference. by apply HA1.
    + pose proof (snaps_remove dir1 _ Hrd Hrj) as Hp.
      apply Permutation_length in Hp. rewrite Hperm in Hp. simpl in Hp.
      rewrite length_app. simpl. lia.
    + intros t g Ht Hg Htgone Hgkept.
      apply elem_of_difference in Hgkept as [Hgd Hgr].
      destruct (decide (snapshot_name t = snapshot_name tr)) as [Heq|Hne].
      { apply name_inj in Heq; [|by apply Hw1..]. subst t. by apply Hleast. }
      assert (Htd : snapshot_name t ∉ dir1).
      { intros Hin. apply Htgone, elem_of_difference. split; [done|].
        by rewrite elem_of_singleton. }
      assert (Htw : t ∈ written /\ snapshot_name t ∉ dir).
      { apply elem_of_snoc in Ht as [Ht| ->].
        - split; [done|]. intros Hin. by apply Htd, elem_of_union_r.
        - exfalso. by apply Htd, elem_of_union_l, elem_of_singleton. }
      destruct Htw as [Htw Htnd].
      apply elem_of_union in Hgd as [Hgnew|Hgold].
      * (* the file just written stays: it is not older than the one removed *)
        apply elem_of_singleton in Hgnew.
        apply name_inj in Hgnew; [|by apply Hw1|done]. subst g.
        assert (Htrw : tr ∈ written /\ snapshot_name tr ∈ dir).
        { apply elem_of_snoc in Htr as [Htr| ->].
          - split; [done|]. apply elem_of_union in Hrd as [Hx|Hx]; [|done].
            apply elem_of_singleton in Hx. exfalso.
            apply Hgr, elem_of_singleton. by rewrite Hx.
          - exfalso. by apply Hgr, elem_of_singleton. }
        destruct Htrw as [Htrw Htrd].
        eapply string_leb_trans; [by apply (HC t tr)|].
        apply Hleast; [apply elem_of_snoc; by right|].
        by apply elem_of_union_l, elem_of_singleton.
      * apply (HC t g); try done.
        apply elem_of_snoc in Hg as [Hg| ->]; [done|].
        by destruct Hfresh.
    + rewrite length_app. simpl. lia.
  - (* within the limit: nothing is removed *)
    apply Z.ltb_ge in Hcmp.
    assert (Hfew : length written < Z.to_nat mk) by lia.
    split.
    + exact HA1.
    + rewrite Hperm, length_app. simpl. lia.
    + intros t g Ht Hg Htgone _. exfalso. apply Htgone.
      apply elem_of_snoc in Ht as [Ht| ->];
        [|by apply elem_of_union_l, elem_of_singleton].
      apply elem_of_union_r, HD; [lia|done].
    + intros _ t Ht.
      apply elem_of_snoc in Ht as [Ht| ->];
        [|by apply elem_of_union_l, elem_of_singleton].
      apply elem_of_union_r, HD; [lia|done].
Qed.

Lemma save_all_retained base host mk tss written dir :
  (0 <= mk)%Z ->
  Forall (fun t => is_timestamp t = true) (written ++ tss) ->
  NoDup (written ++ tss) ->
  retained (Z.to_nat mk) written dir ->
  exists dir',
    save_all tmp_name (fun _ => true) (fun _ => true) base host mk tss dir = (Ok tt, dir')
    /\ retained (Z.to_nat mk) (written ++ tss) dir'.
Proof.
  intros Hmk. revert written dir.
  induction tss as [|ts tss IH]; intros written dir Hts Hnd Hret.
  { exists dir. by rewrite app_nil_r. }
  rewrite cons_middle, app_assoc in Hts, Hnd |- *.
  pose proof Hts as [Hts1 _]%Forall_app. pose proof Hts1 as [Hw Hts0]%Forall_app.
  pose proof Hnd as [Hnd1 _]%NoDup_app. apply NoDup_app in Hnd1 as (_ & Hnew & _).
  destruct (save_keeps_retained base host mk written ts dir) as (dir1 & Hsave & Hret1);
    try done.
  { by inversion Hts0. }
  { intros Hin. apply (Hnew ts Hin). left. }
  destruct (IH (written ++ [ts]) dir1 Hts Hnd Hret1) as (dir' & Hall & Hret').
  exists dir'. split; [|done].
  cbn [save_all]. by rewrite Hsave.
Qed.

Lemma leb_ne_ltb (a b : string) :
  String.leb a b = true -> a <> b -> String.ltb a b = true.
Proof.
  unfold String.leb, String.ltb. intros Hle Hne.
  destruct (String.compare a b) eqn:Hc; try done.
  by apply String.compare_eq_iff in Hc.
Qed.

(** The number of saved timestamps whose file is still there. *)
Lemma retained_kept_count m tss dir :
  Forall (fun t => is_timestamp t = true) tss -> NoDup tss ->
  retained m tss dir ->
  length (filter (fun t => snapshot_name t ∈ dir) tss) = length (snaps dir).
Proof.
  intros Hts Hnd [HA _ _ _]. rewrite Forall_forall in Hts.
  rewrite <- (length_fmap snapshot_name).
  apply Permutation_length, NoDup_Permutation.
  - apply NoDup_fmap_2_strong; [|by apply NoDup_filter].
    intros t1 t2 [_ H1]%list_elem_of_filter [_ H2]%list_elem_of_filter.
    apply name_inj; by apply Hts.
  - apply NoDup_filter, NoDup_elements.
  - intros f. rewrite list_elem_of_fmap, list_elem_of_filter, elem_of_elements.
    split.
    + intros (t & -> & [Hin _]%list_elem_of_filter).
      split; [by rewrite name_is_snapshot|done].
    + intros [_ Hf]. destruct (HA f Hf) as (t & Ht & ->).
      exists t. split; [done|]. by apply list_elem_of_filter.
Qed.

End HistoryProperties.

(** C8: with [max_keep >= 0], after [max_keep + k] snapshots with pairwise
    different timestamps were saved for a host, exactly [max_keep] snapshot
    files are left, [k] of the saved ones are gone, and each one that is
    gone is older than each one that is left.  A removal that fails does not
    make [save_snapshot] fail: it returns the path of the new file. *)
Theorem retention_keeps_the_newest tmp_name base host (max_keep : Z) (k : nat)
    tss :
  (0 <= max_keep)%Z ->
  NoDup tss ->
  Forall (fun t => History.is_timestamp t = true) tss ->
  length tss = (Z.to_nat max_keep + k)%nat ->
  (exists dir,
      History.save_all tmp_name (fun _ => true) (fun _ => true) base host max_keep tss ∅
      = (Ok tt, dir)
      /\ length (History.list_snapshots dir) = Z.to_nat max_keep
      /\ (forall f, f ∈ dir -> exists t, t ∈ tss /\ f = History.snapshot_name t)
      /\ length (filter (fun t => History.snapshot_name t ∉ dir) tss) = k
      /\ (forall t g, t ∈ tss -> g ∈ tss ->
            History.snapshot_name t ∉ dir -> History.snapshot_name g ∈ dir ->
            String.ltb t g = true))
  /\ (forall write_ok remove_ok ts dir0,
        write_ok (History.snapshot_path base host ts) = true ->
        fst (History.save_snapshot tmp_name write_ok remove_ok base host ts max_keep dir0)
        = Ok (History.snapshot_path base host ts)).
Proof.
  intros Hmk Hnd Hts Hlen. split.
  - destruct (save_all_retained tmp_name base host max_keep tss [] ∅ Hmk Hts Hnd
                (retained_empty _)) as (dir & Hsave & Hret).
    cbn [app] in Hret. exists dir. split; [exact Hsave|].
    pose proof (retained_kept_count _ _ _ Hts Hnd Hret) as Hkept.
    pose proof (filter_app_complement (fun t => History.snapshot_name t ∈ dir) tss)
      as Hsplit.
    apply Permutation_length in Hsplit. rewrite length_app in Hsplit.
    destruct Hret as [HA HB HC HD].
    split; [|split; [|split]].
    + rewrite list_snapshots_length, HB. lia.
    + exact HA.
    + change (fun t => History.snapshot_name t ∉ dir)
        with (fun t => ¬ History.snapshot_name t ∈ dir). lia.
    + intros t g Ht Hg Hgone Hkeptg. apply leb_ne_ltb; [by apply HC|].
      intros ->. by apply Hgone.
  - intros write_ok remove_ok ts dir0 Hw.
    unfold History.save_snapshot. by rewrite Hw.
Qed.


Lemma retention_keeps_the_newest_witness :
  exists dir,
    History.save_all Store.mkstemp (fun _ => true) (fun _ => true) "/out" "A" 2
                     Example.three_saves ∅ = (Ok tt, dir)
    /\ length (History.list_snapshots dir) = 2%nat
    /\ length (filter (fun t => History.snapshot_name t ∉ dir) Example.three_saves)
       = 1%nat.
Proof.
  destruct (retention_keeps_the_newest Store.mkstemp "/out" "A" 2 1
              Example.three_saves)
    as [(dir & Hsave & Hlen & _ & Hgone & _) _].
  - lia.
  - compute_done.
  - repeat constructor.
  - reflexivity.
  - exists dir. split; [exact Hsave|]. split; [exact Hlen|exact Hgone].
Defined.

(** * Properties of the diff engine *)

Section SplitAllowed.
Import PyStr Diff.

Definition key_order (a b : string) : Prop :=
  allowed_key_leb (allowed_key a) (allowed_key b) = true.

Lemma allowed_key_leb_total a b :
  allowed_key_leb a b = true \/ allowed_key_leb b a = true.
Proof.
  destruct a as [m|s], b as [n|t]; simpl; auto.
  - destruct (N.leb_spec m n); [by left|right]. apply N.leb_le. lia.
  - apply String.leb_total.
Qed.

Lemma allowed_key_leb_trans a b c :
  allowed_key_leb a b = true -> allowed_key_leb b c = true ->
  allowed_key_leb a c = true.
Proof.
  destruct a as [m|s], b as [n|t], c as [p|u]; simpl; try done.
  - rewrite !N.leb_le. lia.
  - apply string_leb_trans.
Qed.


Lemma isdecimal_isdigit x : isdecimal x = true -> isdigit x = true.
Proof.
  destruct x as [|c x]; [done|]. cbn [isdecimal isdigit].
  generalize (String c x). clear. intros s.
  induction s as [|c s IH]; [done|]. cbn [all_digits digit_chars].
  intros [Hc Hs]%andb_true_iff. rewrite Hc. by apply IH.
Qed.








End SplitAllowed.

Section DiffProperties.
Import PyStr Diff.


Lemma elem_of_flat_map {A B} (f : A -> list B) l y :
  y ∈ flat_map f l <-> exists x, x ∈ l /\ y ∈ f x.
Proof.
  rewrite list_elem_of_In, in_flat_map. split.
  - intros (x & Hx & Hy). exists x. by rewrite !list_elem_of_In.
  - intros (x & Hx & Hy). exists x. by rewrite <- !list_elem_of_In.
Qed.


Lemma elem_of_sorted_pairs (k : string * string) (s : gset (string * string)) :
  k ∈ sorted_pairs s <-> k ∈ s.
Proof. unfold sorted_pairs. by rewrite sorted_by_elem, elem_of_elements. Qed.

Lemma sorted_pairs_NoDup (s : gset (string * string)) : NoDup (sorted_pairs s).
Proof. apply sorted_by_NoDup, NoDup_elements. Qed.






(** *** Merging the neighbour rows *)

(** What holds of the dictionary built from [rows]. *)
Record merged_from (rows : list NeighborRow)
    (merged : gmap (string * string) NeighborRow) : Prop := {
  merged_key : forall k r, merged !! k = Some r ->
    neighbor_key r = k
    /\ exists row, row ∈ rows /\ neighbor_key row = k /\ local_if r = local_if row;
  merged_all : forall row, row ∈ rows ->
    exists r, merged !! neighbor_key row = Some r
              /\ (truthy (local_if row) = true -> truthy (local_if r) = true)
}.

Lemma merged_from_nil : merged_from [] ∅.
Proof.
  split.
  - intros k r Hk. by rewrite lookup_empty in Hk.
  - intros row Hrow. by apply elem_of_nil in Hrow.
Qed.

Lemma elem_of_snoc_row (r x : NeighborRow) rows :
  r ∈ rows ++ [x] <-> r ∈ rows \/ r = x.
Proof. by rewrite elem_of_app, list_elem_of_singleton. Qed.

Lemma merge_row_keeps rows merged x :
  merged_from rows merged -> merged_from (rows ++ [x]) (merge_row merged x).
Proof.
  intros [Hkey Hall]. unfold merge_row.
  destruct (merged !! neighbor_key x) as [m|] eqn:Hm.
  - destruct (Hkey _ _ Hm) as (Hmk & mrow & Hmrow & Hmrk & Hml).
    destruct (negb (truthy (local_if m)) && truthy (local_if x)) eqn:Hcond.
    + apply andb_true_iff in Hcond as [_ Hx].
      split.
      * intros k r Hk. destruct (decide (k = neighbor_key x)) as [->|Hne].
        -- rewrite lookup_insert_eq in Hk. injection Hk as <-.
           split; [exact Hmk|]. exists x. split; [apply elem_of_snoc_row; by right|done].
        -- rewrite lookup_insert_ne in Hk by done.
           destruct (Hkey _ _ Hk) as (? & row & ? & ? & ?).
           split; [done|]. exists row. split; [apply elem_of_snoc_row; by left|done].
      * intros row Hrow.
        destruct (decide (neighbor_key row = neighbor_key x)) as [Heq|Hne].
        -- rewrite Heq, lookup_insert_eq. eexists. split; [reflexivity|]. by intros _.
        -- rewrite lookup_insert_ne by done.
           apply elem_of_snoc_row in Hrow as [Hrow| ->]; [by apply Hall|done].
    + split.
      * intros k r Hk. destruct (Hkey _ _ Hk) as (? & row & ? & ? & ?).
        split; [done|]. exists row. split; [apply elem_of_snoc_row; by left|done].
      * intros row Hrow. apply elem_of_snoc_row in Hrow as [Hrow| ->]; [by apply Hall|].
        exists m. split; [done|]. intros Hx. rewrite Hx, andb_true_r in Hcond.
        by apply negb_false_iff in Hcond.
  - split.
    + intros k r Hk. destruct (decide (k = neighbor_key x)) as [->|Hne].
      * rewrite lookup_insert_eq in Hk. injection Hk as <-.
        split; [done|]. exists x. split; [apply elem_of_snoc_row; by right|done].
      * rewrite lookup_insert_ne in Hk by done.
        destruct (Hkey _ _ Hk) as (? & row & ? & ? & ?).
        split; [done|]. exists row. split; [apply elem_of_snoc_row; by left|done].
    + intros row Hrow.
      destruct (decide (neighbor_key row = neighbor_key x)) as [Heq|Hne].
      * apply elem_of_snoc_row in Hrow as [Hrow| ->].
        -- destruct (Hall _ Hrow) as (r & Hr & _). rewrite Heq, Hm in Hr. done.
        -- rewrite lookup_insert_eq. by eexists.
      * rewrite lookup_insert_ne by done.
        apply elem_of_snoc_row in Hrow as [Hrow| ->]; [by apply Hall|done].
Qed.

Lemma merge_by_neighbor_port_spec rows :
  merged_from rows (_merge_by_neighbor_port rows).
Proof.
  unfold _merge_by_neighbor_port.
  induction rows as [|x rows IH] using rev_ind; [apply merged_from_nil|].
  rewrite foldl_snoc. by apply merge_row_keeps.
Qed.

(** The composite key of a reported adjacency. *)
Definition ref_key (e : NeighborRef) : string * string :=
  (lower (strip (ref_neighbor e)), lower (strip (ref_neighbor_if e))).

Lemma refs_of_keys rows keys :
  (forall k, k ∈ keys -> k ∈ dom (_merge_by_neighbor_port rows)) ->
  ref_key <$> refs_of (_merge_by_neighbor_port rows) keys = keys.
Proof.
  intros Hdom. induction keys as [|k keys IH]; [done|].
  assert (Hk : k ∈ dom (_merge_by_neighbor_port rows)) by (apply Hdom; left).
  apply elem_of_dom in Hk as [r Hr].
  unfold refs_of. cbn [omap list_omap]. rewrite Hr. cbn [fmap option_fmap option_map].
  rewrite fmap_cons. fold (refs_of (_merge_by_neighbor_port rows) keys).
  rewrite IH by (intros k' Hk'; apply Hdom; by right).
  f_equal. destruct (merge_by_neighbor_port_spec rows) as [Hkey _].
  by destruct (Hkey _ _ Hr) as [Hrk _].
Qed.

Lemma at_most_once {A K : Type} `{EqDecision K} (f : A -> K) (k : K) (l : list A) :
  NoDup (f <$> l) -> length (filter (fun e => f e = k) l) <= 1.
Proof.
  induction l as [|x l IH]; [simpl; lia|].
  rewrite fmap_cons. intros [Hx Hl]%NoDup_cons.
  destruct (decide (f x = k)) as [Heq|Hne].
  - rewrite filter_cons_True by done. simpl.
    destruct (filter (fun e => f e = k) l) as [|y t] eqn:Hf; [simpl; lia|].
    exfalso. apply Hx.
    assert (Hy : y ∈ filter (fun e => f e = k) l) by (rewrite Hf; left).
    apply list_elem_of_filter in Hy as [Hyk Hyl].
    rewrite Heq, <- Hyk. by apply list_elem_of_fmap_2.
  - rewrite filter_cons_False by done. by apply IH.
Qed.

Lemma diff_neighbors_keys_NoDup prev cur :
  NoDup (ref_key <$> neigh_added (diff_neighbors prev cur))
  /\ NoDup (ref_key <$> neigh_removed (diff_neighbors prev cur)).
Proof.
  unfold diff_neighbors. cbn [neigh_added neigh_removed]. split.
  - rewrite refs_of_keys; [apply sorted_pairs_NoDup|].
    intros k Hk. by apply elem_of_sorted_pairs, elem_of_difference in Hk as [Hk _].
  - rewrite refs_of_keys; [apply sorted_pairs_NoDup|].
    intros k Hk. by apply elem_of_sorted_pairs, elem_of_difference in Hk as [Hk _].
Qed.

(** C9: when CDP and LLDP both report an adjacency (same neighbour name and
    same remote port, up to case and surrounding blanks), the merged
    dictionary has one entry under that key; its local interface is the one
    of a row with that key, and it is populated as soon as the CDP row or
    the LLDP row has one.  In the delta between any two snapshots no
    composite key occurs twice among the added or among the removed
    adjacencies. *)
Theorem adjacency_seen_by_both_protocols_is_merged
    (prev cur : cmdmap) (c l : NeighborRow) :
  c ∈ cdp_rows cur -> l ∈ lldp_rows cur -> neighbor_key c = neighbor_key l ->
  (exists r,
      _merge_by_neighbor_port (_collect_neighbors cur) !! neighbor_key c = Some r
      /\ neighbor_key r = neighbor_key c
      /\ (truthy (local_if c) = true \/ truthy (local_if l) = true ->
          truthy (local_if r) = true)
      /\ exists row, row ∈ _collect_neighbors cur
                     /\ neighbor_key row = neighbor_key c
                     /\ local_if r = local_if row)
  /\ NoDup (ref_key <$> neigh_added (diff_neighbors prev cur))
  /\ NoDup (ref_key <$> neigh_removed (diff_neighbors cur prev))
  /\ length (filter (fun e => ref_key e = neighbor_key c)
                    (neigh_added (diff_neighbors prev cur))) <= 1
  /\ length (filter (fun e => ref_key e = neighbor_key c)
                    (neigh_removed (diff_neighbors cur prev))) <= 1.
Proof.
  intros Hc Hl Hkey.
  destruct (merge_by_neighbor_port_spec (_collect_neighbors cur)) as [Hmk Hall].
  assert (Hc' : c ∈ _collect_neighbors cur) by (apply elem_of_app; by left).
  assert (Hl' : l ∈ _collect_neighbors cur) by (apply elem_of_app; by right).
  destruct (Hall c Hc') as (r & Hr & Hrc).
  destruct (Hall l Hl') as (r' & Hr' & Hrl).
  rewrite <- Hkey, Hr in Hr'. injection Hr' as <-.
  destruct (Hmk _ _ Hr) as (Hrk & row & Hrow & Hrowk & Hrowl).
  destruct (diff_neighbors_keys_NoDup prev cur) as [Hadd _].
  destruct (diff_neighbors_keys_NoDup cur prev) as [_ Hrem].
  split.
  { exists r. split; [done|]. split; [done|]. split; [intros [?|?]; auto|].
    by exists row. }
  split; [done|]. split; [done|].
  split; by apply at_most_once.
Qed.

(** *** The first snapshot of a device *)





Lemma adjacency_seen_by_both_protocols_is_merged_witness :
  exists r,
    _merge_by_neighbor_port
      (_collect_neighbors (_snapshot_to_cmdmap (Some Example.both_protocols)))
      !! ("sw-b", "gi0/1") = Some r
    /\ truthy (local_if r) = true.
Proof.
  set (m := _snapshot_to_cmdmap (Some Example.both_protocols)).
  destruct (adjacency_seen_by_both_protocols_is_merged [] m
              {| neighbor := "SW-B"; local_if := ""; neighbor_if := "Gi0/1";
                 proto := "CDP" |}
              {| neighbor := "sw-b"; local_if := "Gi1/0/24"; neighbor_if := "Gi0/1";
                 proto := "LLDP" |})
    as [(r & Hr & _ & Hpop & _) _].
  - vm_compute. left.
  - vm_compute. left.
  - by vm_compute.
  - exists r. split; [exact Hr|]. apply Hpop. by right.
Defined.

End DiffProperties.

(** * Further properties of the crawl scheduler *)

Section CrawlInvariants.
Import PyStr Crawl.
Context {addr net : Type}.
Variable ip_address : string -> res addr.
Variable ip_network : string -> res net.
Variable net_contains : net -> addr -> bool.
Variable gethostbyname : string -> res string.
Variable collect : string -> res (string * string * collected * string).
Variable io_ok : event -> bool.
Variable max_depth : Z.
Variable allowed_subnets : option (list string).
Variable dns_fallback : bool.
Variable hostmap : gmap string string.
Variable out_dir_override : option string.

Local Abbreviation in_allowed :=
  (_in_allowed_subnets ip_address ip_network net_contains).
Local Abbreviation resolve := (resolve_address gethostbyname dns_fallback hostmap).
Local Abbreviation enqueue :=
  (enqueue_neighbor ip_address ip_network net_contains gethostbyname
     allowed_subnets dns_fallback hostmap).
Local Abbreviation expand_ :=
  (expand ip_address ip_network net_contains gethostbyname max_depth
     allowed_subnets dns_fallback hostmap).
Local Abbreviation report_ := (report io_ok out_dir_override).
Local Abbreviation visit_ :=
  (visit ip_address ip_network net_contains gethostbyname collect io_ok
     max_depth allowed_subnets dns_fallback hostmap out_dir_override).
Local Abbreviation iteration_ :=
  (iteration ip_address ip_network net_contains gethostbyname collect io_ok
     max_depth allowed_subnets dns_fallback hostmap out_dir_override).
Local Abbreviation crawl_loop_ :=
  (crawl_loop ip_address ip_network net_contains gethostbyname collect io_ok
     max_depth allowed_subnets dns_fallback hostmap out_dir_override).

(** The addresses [collect] was called with, in order. *)
Definition collected_ips (tr : list event) : list string :=
  omap (fun e => match e with Ev_collect ip => Some ip | _ => None end) tr.

Lemma collected_ips_snoc tr e :
  collected_ips (tr ++ [e]) =
    collected_ips tr ++ match e with Ev_collect ip => [ip] | _ => [] end.
Proof. unfold collected_ips. rewrite omap_app. by destruct e. Qed.

(** An entry appended while the device popped at [depth] is expanded. *)
Definition child_entry (depth : Z) (seen : gset string) (e : string * Z) : Prop :=
  snd e = (depth + 1)%Z /\ (depth < max_depth)%Z
  /\ in_allowed (fst e) allowed_subnets = Ok true /\ (fst e ∉ seen)
  /\ truthy (fst e) = true.

Lemma enqueue_neighbor_effect depth n s :
  (depth < max_depth)%Z ->
  exists extra,
    enqueue depth n s = (Ok tt, set_queue (queue s ++ extra) s)
    /\ Forall (child_entry depth (seen_ips s)) extra.
Proof.
  intros Hd. unfold enqueue_neighbor.
  destruct (truthy (resolve n)) eqn:Htr; cbn [negb].
  2:{ exists []. unfold ret. by rewrite app_nil_r, set_queue_same. }
  unfold Crawl.bind, lift.
  destruct (in_allowed_subnets_ok ip_address ip_network net_contains
              (resolve n) allowed_subnets) as [b Hb].
  rewrite Hb. destruct b; cbn [negb].
  2:{ exists []. unfold ret. by rewrite app_nil_r, set_queue_same. }
  unfold modify. destruct (decide (resolve n ∈ seen_ips s)) as [Hin|Hnot].
  - exists []. by rewrite app_nil_r, set_queue_same.
  - eexists. split; [reflexivity|]. by repeat constructor.
Qed.

Lemma for_each_enqueue_effect depth l s :
  (depth < max_depth)%Z ->
  exists extra,
    for_each (enqueue depth) l s = (Ok tt, set_queue (queue s ++ extra) s)
    /\ Forall (child_entry depth (seen_ips s)) extra.
Proof.
  intros Hd. revert s. induction l as [|n l IH]; intros s; cbn [for_each].
  { exists []. unfold ret. by rewrite app_nil_r, set_queue_same. }
  unfold Crawl.bind.
  destruct (enqueue_neighbor_effect depth n s Hd) as (e1 & -> & H1).
  destruct (IH (set_queue (queue s ++ e1) s)) as (e2 & -> & H2).
  exists (e1 ++ e2). split.
  - cbn. by rewrite app_assoc.
  - apply Forall_app. split; [done|exact H2].
Qed.

Lemma expand_effect depth c s :
  exists extra,
    expand_ depth c s = (Ok tt, set_queue (queue s ++ extra) s)
    /\ Forall (child_entry depth (seen_ips s)) extra.
Proof.
  unfold expand. destruct (depth <? max_depth)%Z eqn:Hd.
  - apply for_each_enqueue_effect. by apply Z.ltb_lt.
  - exists []. unfold ret. by rewrite app_nil_r, set_queue_same.
Qed.

(** What the report stage can change: the trace, by calls other than
    [collect], and the result list, by at most its own entry. *)
Lemma report_effect ip host ts outdir xlsx_path c s :
  let out := report_ ip host ts outdir xlsx_path c s in
  queue (snd out) = queue s
  /\ seen_ips (snd out) = seen_ips s
  /\ visited_keys (snd out) = visited_keys s
  /\ collected_ips (trace (snd out)) = collected_ips (trace s)
  /\ ((fst out = Ok tt /\ results (snd out) = results s ++ [(host, xlsx_path)])
      \/ ((exists e, fst out = Raise e) /\ results (snd out) = results s)).
Proof.
  unfold report, Crawl.bind, call, try_except, modify, ret.
  repeat match goal with
         | |- context [io_ok ?e] => destruct (io_ok e)
         end;
    cbn; rewrite ?collected_ips_snoc, ?app_nil_r;
    (repeat split; try done); eauto.
Qed.

(** The state while a device is being visited, before its neighbours are
    expanded: [ip] is seen and collected, at most one key and one result
    were added, the queue is untouched. *)
Definition visiting (ip : string) (s s2 : cstate) : Prop :=
  seen_ips s2 = {[ip]} ∪ seen_ips s
  /\ collected_ips (trace s2) = collected_ips (trace s) ++ [ip]
  /\ ((visited_keys s2 = visited_keys s /\ results s2 = results s)
      \/ exists k, (k ∉ visited_keys s)
                   /\ visited_keys s2 = {[k]} ∪ visited_keys s
                   /\ (results s2 = results s
                       \/ exists r, results s2 = results s ++ [r]))
  /\ queue s2 = queue s.

(** The state after the pass over a device that was collected. *)
Definition visited_step (ip : string) (depth : Z) (s s' : cstate) : Prop :=
  seen_ips s' = {[ip]} ∪ seen_ips s
  /\ collected_ips (trace s') = collected_ips (trace s) ++ [ip]
  /\ ((visited_keys s' = visited_keys s /\ results s' = results s)
      \/ exists k, (k ∉ visited_keys s)
                   /\ visited_keys s' = {[k]} ∪ visited_keys s
                   /\ (results s' = results s
                       \/ exists r, results s' = results s ++ [r]))
  /\ exists extra, queue s' = queue s ++ extra
                   /\ Forall (child_entry depth (seen_ips s')) extra.

(** The state between the call of [collect] and the identity check. *)
Definition collecting (ip : string) (s s2 : cstate) : Prop :=
  seen_ips s2 = {[ip]} ∪ seen_ips s
  /\ collected_ips (trace s2) = collected_ips (trace s) ++ [ip]
  /\ visited_keys s2 = visited_keys s
  /\ results s2 = results s
  /\ queue s2 = queue s.

Lemma collecting_start ip s :
  collecting ip s (add_event (Ev_collect ip) (add_seen ip s)).
Proof. unfold collecting. cbn. by rewrite collected_ips_snoc. Qed.

Lemma collecting_event ip s s2 e :
  match e with Ev_collect _ => False | _ => True end ->
  collecting ip s s2 -> collecting ip s (add_event e s2).
Proof.
  intros He (H1 & H2 & H3 & H4 & H5). unfold collecting. cbn.
  rewrite collected_ips_snoc. destruct e; try done; by rewrite app_nil_r.
Qed.

Lemma collecting_visiting ip s s2 : collecting ip s s2 -> visiting ip s s2.
Proof.
  intros (H1 & H2 & H3 & H4 & H5). unfold visiting.
  split; [done|]. split; [done|]. split; [by left|done].
Qed.

Lemma visiting_fail ip depth s s2 :
  visiting ip s s2 -> visited_step ip depth s (add_event (Ev_log_failure ip) s2).
Proof.
  intros (H1 & H2 & H3 & H4). unfold visited_step. cbn.
  rewrite collected_ips_snoc, app_nil_r.
  split; [done|]. split; [done|]. split; [done|].
  exists []. by rewrite app_nil_r.
Qed.

Lemma visiting_expand ip depth c s s2 :
  visiting ip s s2 ->
  exists s', expand_ depth c s2 = (Ok tt, s') /\ visited_step ip depth s s'.
Proof.
  intros (H1 & H2 & H3 & H4).
  destruct (expand_effect depth c s2) as (extra & -> & Hex).
  eexists. split; [reflexivity|]. unfold visited_step. cbn.
  split; [done|]. split; [done|]. split; [done|].
  exists extra. by rewrite H4.
Qed.

(** The three ways one pass of the loop ends; none of them raises. *)
Lemma iteration_shape ip depth s :
  exists s',
    iteration_ ip depth s = (Ok tt, s')
    /\ ((ip ∈ seen_ips s /\ s' = s)
        \/ ((ip ∉ seen_ips s) /\ in_allowed ip allowed_subnets = Ok false
            /\ s' = add_seen ip s)
        \/ ((ip ∉ seen_ips s) /\ in_allowed ip allowed_subnets = Ok true
            /\ visited_step ip depth s s')).
Proof.
  unfold iteration.
  destruct (decide (ip ∈ seen_ips s)) as [Hin|Hnot]; [exists s; by auto|].
  unfold Crawl.bind at 1. unfold modify at 1.
  unfold Crawl.bind at 1. unfold lift at 1.
  destruct (in_allowed_subnets_ok ip_address ip_network net_contains
              ip allowed_subnets) as [b Hb].
  rewrite Hb. destruct b; cbn [negb].
  2:{ exists (add_seen ip s). split; [done|]. right. left. done. }
  assert (Hgoal : exists s', try_except (visit_ ip depth)
                    (fun _ => modify (add_event (Ev_log_failure ip)))
                    (add_seen ip s) = (Ok tt, s')
                  /\ visited_step ip depth s s').
  2:{ destruct Hgoal as (s' & Hs' & Hstep). exists s'. split; [done|].
      right. right. done. }
  pose proof (collecting_start ip s) as Hv.
  unfold try_except, visit.
  unfold Crawl.bind at 1. unfold modify at 1.
  unfold Crawl.bind at 1. unfold lift at 1.
  set (s1 := add_event (Ev_collect ip) (add_seen ip s)) in *.
  destruct (collect ip) as [[[[host ts] c] outdir]|e].
  2:{ eexists. split; [reflexivity|]. by apply visiting_fail, collecting_visiting. }
  unfold Crawl.bind at 1.
  assert (Hout : exists s2 r,
             (if opt_truthy out_dir_override
              then
                (let! _ := call io_ok (Ev_makedirs (opt_or out_dir_override "")) in
                 ret (opt_or out_dir_override ""))
              else ret outdir) s1 = (r, s2) /\ collecting ip s s2).
  { destruct (opt_truthy out_dir_override).
    - unfold Crawl.bind, call, ret.
      destruct (io_ok _); eexists _, _; (split; [reflexivity|]);
        by apply collecting_event.
    - unfold ret. by eexists _, _. }
  destruct Hout as (s2 & r & -> & Hv2). clear Hv s1.
  destruct r as [od|e].
  2:{ eexists. split; [reflexivity|]. by apply visiting_fail, collecting_visiting. }
  unfold Crawl.bind at 1.
  set (key := best (_extract_device_key_from_collected c)).
  set (xlsx := path_join od (host +:+ "_levantamento.xlsx")).
  destruct (decide (key ∈ visited_keys s2)) as [Hk|Hk].
  { unfold ret at 1.
    destruct (visiting_expand ip depth c s s2 (collecting_visiting _ _ _ Hv2))
      as (s' & -> & Hstep).
    by exists s'. }
  unfold Crawl.bind at 1. unfold modify at 1.
  pose proof (report_effect ip host ts od xlsx c (add_visited key s2)) as Hrep.
  cbv zeta in Hrep.
  destruct (report_ ip host ts od xlsx c (add_visited key s2)) as [r s3].
  cbn [fst snd] in Hrep. destruct Hrep as (Hq & Hs & Hvk & Hc & Hres).
  destruct Hv2 as (V1 & V2 & V3 & V4 & V5).
  assert (Hv3 : visiting ip s s3).
  { unfold visiting.
    cbn [add_visited queue seen_ips visited_keys trace results] in Hq, Hs, Hvk, Hc, Hres.
    split; [congruence|]. split; [congruence|]. split; [|congruence].
    right. exists key. rewrite V3 in Hk. split; [done|].
    split; [by rewrite Hvk, V3|].
    destruct Hres as [[_ Hr]|[_ Hr]]; rewrite Hr, V4; eauto. }
  destruct Hres as [[-> _]|[[e ->] _]].
  - destruct (visiting_expand ip depth c s s3 Hv3) as (s' & -> & Hstep).
    by exists s'.
  - eexists. split; [reflexivity|]. by apply visiting_fail.
Qed.

(** What every state of a crawl run satisfies. *)
Record crawl_inv (s : cstate) : Prop := {
  inv_nodup : NoDup (collected_ips (trace s));
  inv_seen : forall ip, ip ∈ collected_ips (trace s) ->
               ip ∈ seen_ips s /\ in_allowed ip allowed_subnets = Ok true;
  inv_keys : length (results s) <= size (visited_keys s);
  inv_collects : length (results s) <= length (collected_ips (trace s))
}.

Lemma crawl_inv_initial seed_ip : crawl_inv (initial seed_ip).
Proof.
  split; cbn.
  - constructor.
  - intros ip Hip. by apply elem_of_nil in Hip.
  - lia.
  - lia.
Qed.

Lemma crawl_inv_set_queue q s : crawl_inv s -> crawl_inv (set_queue q s).
Proof. intros [H1 H2 H3 H4]. by split. Qed.

Lemma crawl_inv_iteration ip depth s s' :
  iteration_ ip depth s = (Ok tt, s') -> crawl_inv s -> crawl_inv s'.
Proof.
  intros Hit [H1 H2 H3 H4].
  destruct (iteration_shape ip depth s) as (s1 & Hs1 & Hshape).
  rewrite Hit in Hs1. injection Hs1 as <-.
  destruct Hshape as [[_ ->]|[(Hnot & _ & ->)|(Hnot & Hall & Hstep)]].
  - by split.
  - split; cbn; try done.
    intros ip' Hip'. destruct (H2 ip' Hip') as [Hs Ha].
    split; [by apply elem_of_union_r|done].
  - destruct Hstep as (Hseen & Hcol & Hkeys & _).
    assert (Hfresh : ip ∉ collected_ips (trace s)).
    { intros Hin. by destruct (H2 ip Hin). }
    split.
    + rewrite Hcol. apply NoDup_app. split; [done|].
      split; [|apply NoDup_singleton].
      intros x Hx Hx'. apply list_elem_of_singleton in Hx'. by subst.
    + intros ip' Hip'. rewrite Hcol in Hip'. rewrite Hseen.
      apply elem_of_app in Hip' as [Hip'|Hip'].
      * destruct (H2 ip' Hip'). split; [by apply elem_of_union_r|done].
      * apply list_elem_of_singleton in Hip' as ->.
        split; [by apply elem_of_union_l, elem_of_singleton|done].
    + destruct Hkeys as [[-> ->]|(k & Hk & -> & Hres)]; [done|].
      rewrite size_union by (by apply disjoint_singleton_l).
      rewrite size_singleton.
      destruct Hres as [->|[r ->]]; [lia|]. rewrite length_app. simpl. lia.
    + rewrite Hcol, length_app. simpl.
      destruct Hkeys as [[_ ->]|(k & _ & _ & [->|[r ->]])]; try lia.
      rewrite length_app. simpl. lia.
Qed.

Lemma crawl_loop_inv fuel s r s' :
  crawl_loop_ fuel s = Some (r, s') -> crawl_inv s ->
  r = Ok tt /\ queue s' = [] /\ crawl_inv s'.
Proof.
  revert s. induction fuel as [|fuel IH]; intros s; cbn [crawl_loop].
  - destruct (queue s) as [|[ip depth] q] eqn:Hq; [|discriminate].
    intros [= <- <-] Hinv. done.
  - destruct (queue s) as [|[ip depth] q] eqn:Hq.
    { intros [= <- <-] Hinv. done. }
    destruct (iteration_shape ip depth (set_queue q s)) as (s1 & Hs1 & _).
    rewrite Hs1. intros Hloop Hinv. apply (IH s1 Hloop).
    eapply crawl_inv_iteration; [exact Hs1|]. by apply crawl_inv_set_queue.
Qed.

(** X1: within one crawl run no address is handed to [collect] twice, and
    every address that is collected passed the allow-list check. *)
Theorem crawl_collects_each_allowed_address_once fuel seed_ip r s' :
  crawl_loop_ fuel (initial seed_ip) = Some (r, s') ->
  NoDup (collected_ips (trace s'))
  /\ forall ip, ip ∈ collected_ips (trace s') ->
               in_allowed ip allowed_subnets = Ok true.
Proof.
  intros Hrun.
  destruct (crawl_loop_inv fuel _ r s' Hrun (crawl_inv_initial seed_ip))
    as (_ & _ & [H1 H2 _ _]).
  split; [done|]. intros ip Hip. by destruct (H2 ip Hip).
Qed.

(** X2: a finished crawl ends with an empty queue and without an
    exception, and its result list is no longer than the number of devices
    collected nor than the number of distinct identity keys met. *)
Theorem crawl_reports_at_most_one_per_key fuel seed_ip r s' :
  crawl_loop_ fuel (initial seed_ip) = Some (r, s') ->
  r = Ok tt /\ queue s' = []
  /\ length (results s') <= size (visited_keys s')
  /\ length (results s') <= length (collected_ips (trace s')).
Proof.
  intros Hrun.
  destruct (crawl_loop_inv fuel _ r s' Hrun (crawl_inv_initial seed_ip))
    as (-> & Hq & [_ _ H3 H4]).
  done.
Qed.

(** X3: with [max_depth <= 0] nothing is expanded: the loop ends after the
    pass over the seed, which is the only address collected, and at most
    one report is returned. *)
Theorem crawl_without_depth_stops_at_the_seed seed_ip :
  (max_depth <= 0)%Z ->
  exists s',
    crawl_loop_ 1 (initial seed_ip) = Some (Ok tt, s')
    /\ queue s' = []
    /\ (forall ip, ip ∈ collected_ips (trace s') -> ip = seed_ip)
    /\ length (results s') <= 1.
Proof.
  intros Hd. cbn [crawl_loop initial queue].
  destruct (iteration_shape seed_ip 0 (set_queue [] (initial seed_ip)))
    as (s1 & Hs1 & Hshape).
  rewrite Hs1.
  assert (Hs1' : queue s1 = []
                 /\ (forall ip, ip ∈ collected_ips (trace s1) -> ip = seed_ip)
                 /\ length (results s1) <= 1).
  { destruct Hshape as [[Hin _]|[(_ & _ & ->)|(_ & _ & Hstep)]].
    - by apply elem_of_empty in Hin.
    - cbn. split; [done|]. split; [|lia]. intros ip Hip. by apply elem_of_nil in Hip.
    - destruct Hstep as (_ & Hcol & Hkeys & extra & Hq & Hex).
      cbn in Hcol, Hq. split; [|split].
      + destruct extra as [|e extra]; [done|].
        apply Forall_cons in Hex as [(_ & Hlt & _) _]. lia.
      + intros ip Hip. rewrite Hcol in Hip. by apply list_elem_of_singleton in Hip.
      + destruct Hkeys as [[_ ->]|(k & _ & _ & [->|[r ->]])]; cbn; lia. }
  destruct Hs1' as (Hq & Hc & Hr). exists s1.
  cbn [crawl_loop]. rewrite Hq. done.
Qed.

(** X4: a device that cannot be collected is given up without touching
    the rest of the run: the failure is logged, the address stays seen, and
    the results, the visited keys and the queue are as before; the loop goes
    on with the next entry. *)
Theorem collect_failure_is_isolated fuel ip depth q s :
  queue s = (ip, depth) :: q ->
  ip ∉ seen_ips s ->
  in_allowed ip allowed_subnets = Ok true ->
  raises (collect ip) ->
  let s' := add_event (Ev_log_failure ip)
              (add_event (Ev_collect ip) (add_seen ip (set_queue q s))) in
  iteration_ ip depth (set_queue q s) = (Ok tt, s')
  /\ results s' = results s /\ visited_keys s' = visited_keys s /\ queue s' = q
  /\ crawl_loop_ (S fuel) s = crawl_loop_ fuel s'.
Proof.
  intros Hq Hseen Hall [e He] s'.
  assert (Hit : iteration_ ip depth (set_queue q s) = (Ok tt, s')).
  { unfold iteration. cbn [seen_ips set_queue].
    destruct (decide (ip ∈ seen_ips s)) as [|_]; [done|].
    unfold Crawl.bind at 1. unfold modify at 1.
    unfold Crawl.bind at 1. unfold lift at 1. rewrite Hall. cbn [negb].
    unfold try_except, visit.
    unfold Crawl.bind at 1. unfold modify at 1.
    unfold Crawl.bind at 1. unfold lift at 1. by rewrite He. }
  split; [exact Hit|]. repeat split.
  cbn [crawl_loop]. by rewrite Hq, Hit.
Qed.

(** X5: when the snapshot of a device met for the first time cannot be
    saved, the pass is abandoned after the key was marked visited: no report
    is added and no neighbour is queued, whatever the depth, but the key
    stays in the visited set. *)
Theorem failed_report_still_marks_the_key ip depth host ts c outdir s :
  ip ∉ seen_ips s ->
  in_allowed ip allowed_subnets = Ok true ->
  collect ip = Ok (host, ts, c, outdir) ->
  opt_truthy out_dir_override = false ->
  best (_extract_device_key_from_collected c) ∉ visited_keys s ->
  io_ok (Ev_metrics_from_collected host) = true ->
  io_ok (Ev_save_snapshot outdir host ts ip) = false ->
  exists s',
    iteration_ ip depth s = (Ok tt, s')
    /\ results s' = results s
    /\ queue s' = queue s
    /\ visited_keys s' =
         {[best (_extract_device_key_from_collected c)]} ∪ visited_keys s
    /\ last (trace s') = Some (Ev_log_failure ip).
Proof.
  intros Hseen Hall Hcol Hov Hkey Hmet Hsave.
  rewrite (iteration_unfold ip_address ip_network net_contains gethostbyname
             collect io_ok max_depth allowed_subnets dns_fallback hostmap
             out_dir_override ip depth host ts c outdir s Hseen Hall Hcol)
    by (rewrite Hov; discriminate).
  unfold after_collect, effective_outdir. rewrite Hov. cbv zeta.
  unfold try_except. unfold Crawl.bind at 1.
  cbn [visited_keys add_event add_seen].
  destruct (decide (_ ∈ visited_keys s)) as [|_]; [done|].
  unfold Crawl.bind at 1. unfold modify at 1.
  unfold report. unfold Crawl.bind at 1. rewrite call_ok by done.
  unfold Crawl.bind at 1. unfold call at 1. rewrite Hsave.
  unfold modify. eexists. split; [reflexivity|]. cbn.
  repeat split. by rewrite last_snoc.
Qed.

End CrawlInvariants.

Section CrawlInvariantRuns.
Import PyStr Crawl.

(** The loop of [Scenario.crawl]. *)
Local Abbreviation scenario_loop max_depth allowed :=
  (crawl_loop IPv4.ip_address IPv4.ip_network IPv4.net_contains
     Scenario.no_dns Scenario.collect Scenario.all_ok max_depth allowed true ∅ None).

Lemma crawl_collects_each_allowed_address_once_witness :
  exists r s',
    scenario_loop 1 (Some ["10.0.0.0/24"]) 5 (initial "10.0.0.1") = Some (r, s')
    /\ NoDup (collected_ips (trace s')).
Proof.
  destruct (scenario_loop 1 (Some ["10.0.0.0/24"]) 5 (initial "10.0.0.1"))
    as [[r s']|] eqn:Hrun; [|by vm_compute in Hrun].
  exists r, s'. split; [reflexivity|].
  by destruct (crawl_collects_each_allowed_address_once _ _ _ _ _ _ _ _ _ _ _
                 _ _ _ _ Hrun).
Defined.

Lemma crawl_reports_at_most_one_per_key_witness :
  exists r s',
    scenario_loop 1 None 5 (initial "10.0.0.1") = Some (r, s')
    /\ length (results s') <= size (visited_keys s').
Proof.
  destruct (scenario_loop 1 None 5 (initial "10.0.0.1"))
    as [[r s']|] eqn:Hrun; [|by vm_compute in Hrun].
  exists r, s'. split; [reflexivity|].
  by destruct (crawl_reports_at_most_one_per_key _ _ _ _ _ _ _ _ _ _ _
                 _ _ _ _ Hrun) as (_ & _ & H & _).
Defined.

Lemma crawl_without_depth_stops_at_the_seed_witness :
  exists s',
    scenario_loop 0 None 1 (initial "10.0.0.1") = Some (Ok tt, s')
    /\ length (results s') <= 1.
Proof.
  destruct (crawl_without_depth_stops_at_the_seed
              IPv4.ip_address IPv4.ip_network IPv4.net_contains
              Scenario.no_dns Scenario.collect Scenario.all_ok 0 None true ∅ None
              "10.0.0.1") as (s' & Hrun & _ & _ & Hlen); [lia|].
  exists s'. by split.
Defined.

(** A queue whose head is an address that cannot be reached. *)
Definition unreachable_first : cstate :=
  {| queue := [("10.0.0.9", 1%Z); ("10.0.0.2", 1%Z)];
     seen_ips := {["10.0.0.1"]}; visited_keys := {["unknown"]};
     results := [("A", "/out/A/A_levantamento.xlsx")]; trace := [] |}.

Lemma collect_failure_is_isolated_witness :
  scenario_loop 1 None 3 unreachable_first
  = scenario_loop 1 None 2
      (add_event (Ev_log_failure "10.0.0.9")
         (add_event (Ev_collect "10.0.0.9")
            (add_seen "10.0.0.9" (set_queue [("10.0.0.2", 1%Z)] unreachable_first)))).
Proof.
  apply (collect_failure_is_isolated
           IPv4.ip_address IPv4.ip_network IPv4.net_contains
           Scenario.no_dns Scenario.collect Scenario.all_ok 1 None true ∅ None
           2 "10.0.0.9" 1 [("10.0.0.2", 1%Z)] unreachable_first).
  - reflexivity.
  - by vm_compute.
  - reflexivity.
  - by exists OSError.
Defined.

(** The report stage in which [save_snapshot] raises. *)
Definition snapshot_fails (e : event) : bool :=
  match e with Ev_save_snapshot _ _ _ _ => false | _ => true end.

Lemma failed_report_still_marks_the_key_witness :
  exists s',
    iteration IPv4.ip_address IPv4.ip_network IPv4.net_contains
      Scenario.no_dns Scenario.collect snapshot_fails 1 None true ∅ None
      "10.0.0.1" 0 (set_queue [] (initial "10.0.0.1")) = (Ok tt, s')
    /\ results s' = [] /\ queue s' = [] /\ "unknown" ∈ visited_keys s'.
Proof.
  destruct (failed_report_still_marks_the_key
              IPv4.ip_address IPv4.ip_network IPv4.net_contains
              Scenario.no_dns Scenario.collect snapshot_fails 1 None true ∅ None
              "10.0.0.1" 0 "A" "2024-01-01_10-00-00" Scenario.device_a "/out/A"
              (set_queue [] (initial "10.0.0.1")))
    as (s' & Hit & Hres & Hq & Hvis & _); try reflexivity; try (by vm_compute).
  exists s'. split; [exact Hit|]. split; [exact Hres|]. split; [exact Hq|].
  rewrite Hvis. apply elem_of_union_l, elem_of_singleton. by vm_compute.
Defined.

End CrawlInvariantRuns.

(** * Column lookup, neighbours and the identity key *)

Section CrawlHelpers.
Import PyStr Crawl.

Lemma find_idx_Some {A} (p : A -> bool) l i :
  find_idx p l = Some i ->
  exists x, l !! i = Some x /\ p x = true
            /\ forall j y, j < i -> l !! j = Some y -> p y = false.
Proof.
  revert i. induction l as [|x l IH]; intros i; cbn [find_idx]; [done|].
  destruct (p x) eqn:Hx.
  - intros [= <-]. exists x. split; [done|]. split; [done|]. intros j y Hj. lia.
  - destruct (find_idx p l) as [k|] eqn:Hk; [|done].
    intros [= <-]. destruct (IH k eq_refl) as (y & Hy & Hpy & Hmin).
    exists y. split; [done|]. split; [done|].
    intros [|j] z Hj Hz; cbn in Hz.
    + by injection Hz as <-.
    + apply (Hmin j z); [lia|done].
Qed.

Lemma find_idx_None {A} (p : A -> bool) l :
  find_idx p l = None <-> forall x, x ∈ l -> p x = false.
Proof.
  induction l as [|x l IH]; cbn [find_idx].
  - split; [|done]. intros _ x Hx. by apply elem_of_nil in Hx.
  - destruct (p x) eqn:Hx.
    + split; [done|]. intros H. rewrite H in Hx; [done|left].
    + destruct (find_idx p l) as [k|]; cbn.
      * split; [done|]. intros H. destruct IH as [_ IH].
        discriminate IH. intros y Hy. apply H. by right.
      * split; [|done]. intros _ y Hy. apply elem_of_cons in Hy as [->|Hy]; [done|].
        destruct IH as [IH _]. by apply IH.
Qed.

(** The two tests of [_find_col_idx] on one header. *)
Definition exact_match (exact : list string) (h : string) : bool :=
  existsb (String.eqb (replace " " "_" (lower (strip h))))
          (map (fun e => replace " " "_" (lower (strip e))) exact).

Definition substring_match (contains_ : list string) (h : string) : bool :=
  existsb (fun c => contains c (lower (strip h)))
          (map (fun c => lower (strip c)) contains_).

Lemma find_col_idx_unfold headers exact contains_ :
  _find_col_idx headers exact contains_ =
    match find_idx (exact_match exact) headers with
    | Some i => Some i
    | None => find_idx (substring_match contains_) headers
    end.
Proof.
  assert (Hmap : forall {A B} (f : A -> B) (p : B -> bool) l,
             find_idx p (map f l) = find_idx (fun x => p (f x)) l).
  { intros A B f p l. induction l as [|x l IH]; cbn; [done|]. by rewrite IH. }
  unfold _find_col_idx. destruct headers as [|h headers]; [done|].
  rewrite (map_map (fun h => lower (strip h)) (replace " " "_")).
  by rewrite !Hmap.
Qed.

(** X6: the index [_find_col_idx] returns is a column of the header row,
    and that column matches one of the exact names or, when no column
    matches exactly, is the first that holds one of the substrings.  An
    exact match wins even when a column before it matches a substring.
    Without any match, and for an empty header row, the answer is [None]. *)
Theorem find_col_idx_spec headers exact contains_ :
  (forall i, _find_col_idx headers exact contains_ = Some i ->
     i < length headers
     /\ exists h, headers !! i = Some h
          /\ ((exact_match exact h = true
               /\ forall j y, j < i -> headers !! j = Some y ->
                              exact_match exact y = false)
              \/ ((forall y, y ∈ headers -> exact_match exact y = false)
                  /\ substring_match contains_ h = true
                  /\ forall j y, j < i -> headers !! j = Some y ->
                                 substring_match contains_ y = false)))
  /\ (forall j h, headers !! j = Some h -> exact_match exact h = true ->
        exists i, _find_col_idx headers exact contains_ = Some i /\ i <= j)
  /\ (_find_col_idx headers exact contains_ = None
      <-> forall h, h ∈ headers ->
            exact_match exact h = false /\ substring_match contains_ h = false).
Proof.
  rewrite find_col_idx_unfold.
  destruct (find_idx (exact_match exact) headers) as [i0|] eqn:He.
  - destruct (find_idx_Some _ _ _ He) as (h & Hh & Hp & Hmin).
    split; [|split].
    + intros i [= <-]. split; [by apply lookup_lt_Some in Hh|].
      exists h. split; [done|]. left. done.
    + intros j y Hy Hyp. exists i0. split; [done|].
      destruct (decide (i0 <= j)) as [|Hgt]; [done|].
      rewrite (Hmin j y) in Hyp; [done|lia|done].
    + split; [done|]. intros Hnone.
      destruct (Hnone h) as [Hx _]; [by eapply list_elem_of_lookup_2|]. congruence.
  - pose proof (proj1 (find_idx_None _ _) He) as Hnone.
    split; [|split].
    + intros i Hi. destruct (find_idx_Some _ _ _ Hi) as (h & Hh & Hp & Hmin).
      split; [by apply lookup_lt_Some in Hh|].
      exists h. split; [done|]. right. done.
    + intros j h Hh Hp. rewrite Hnone in Hp; [done|].
      by eapply list_elem_of_lookup_2.
    + rewrite find_idx_None. split.
      * intros H h Hh. split; [by apply Hnone|by apply H].
      * intros H h Hh. by destruct (H h Hh).
Qed.

Lemma not_advertised_spec s :
  lower (not_advertised s) <> "not advertised"
  /\ (not_advertised s = "" \/ not_advertised s = s).
Proof.
  unfold not_advertised.
  destruct (truthy s && negb (String.eqb (lower s) "not advertised")) eqn:Hc.
  - apply andb_true_iff in Hc as [_ Hne].
    apply negb_true_iff, String.eqb_neq in Hne. auto.
  - split; [done|by left].
Qed.

Lemma neighbor_of_row_spec dev_idx ip_idx r :
  let n := neighbor_of_row dev_idx ip_idx r in
  lower (device_id n) <> "not advertised"
  /\ neigh_mgmt_ip n <> Some ""
  /\ forall a, neigh_mgmt_ip n = Some a -> lower a <> "not advertised".
Proof.
  unfold neighbor_of_row. cbn [device_id neigh_mgmt_ip].
  split; [apply not_advertised_spec|].
  destruct (truthy (not_advertised (cell ip_idx r))) eqn:Ht.
  - split.
    + intros [= Heq]. by rewrite Heq in Ht.
    + intros a [= <-]. apply not_advertised_spec.
  - split; [done|]. by intros a.
Qed.

Lemma elem_of_collect_from m c n :
  n ∈ collect_from m c ->
  exists dev_idx ip_idx r, n = neighbor_of_row dev_idx ip_idx r.
Proof.
  induction c as [|[[[cmd raw] headers] rows] c IH]; cbn [collect_from].
  { intros H. by apply elem_of_nil in H. }
  destruct (negb (contains m (lower cmd))); [exact IH|].
  destruct (negb (nonempty headers) || negb (nonempty rows)); [exact IH|].
  intros [Hn|Hn]%elem_of_app; [|by apply IH].
  apply list_elem_of_fmap in Hn as (r & -> & _). by eexists _, _, _.
Qed.

(** X7: no neighbour handed to the crawl carries the text "not advertised"
    (in any case) as its name or its address, and an address that is
    present is not empty.  The neighbours are those of the CDP tables, and
    those of the LLDP tables only when CDP gives none. *)
Theorem extracted_neighbors_are_normalised c n :
  n ∈ _extract_neighbors_from_collected c ->
  lower (device_id n) <> "not advertised"
  /\ neigh_mgmt_ip n <> Some ""
  /\ (forall a, neigh_mgmt_ip n = Some a -> lower a <> "not advertised")
  /\ (n ∈ collect_from "cdp neighbors detail" c
      \/ (collect_from "cdp neighbors detail" c = []
          /\ n ∈ collect_from "lldp neighbors detail" c)).
Proof.
  intros Hn.
  assert (Hsrc : n ∈ collect_from "cdp neighbors detail" c
                 \/ (collect_from "cdp neighbors detail" c = []
                     /\ n ∈ collect_from "lldp neighbors detail" c)).
  { unfold _extract_neighbors_from_collected in Hn.
    destruct (collect_from "cdp neighbors detail" c) as [|x l]; [by right|by left]. }
  assert (Hrow : exists d i r, n = neighbor_of_row d i r).
  { destruct Hsrc as [H|[_ H]]; by apply elem_of_collect_from in H. }
  destruct Hrow as (d & i & r & ->).
  destruct (neighbor_of_row_spec d i r) as (H1 & H2 & H3).
  done.
Qed.

Lemma extracted_neighbors_are_normalised_witness :
  neigh_mgmt_ip {| device_id := "B"; neigh_mgmt_ip := Some "10.0.0.2" |}
  <> Some "".
Proof.
  apply (extracted_neighbors_are_normalised Scenario.device_a
           {| device_id := "B"; neigh_mgmt_ip := Some "10.0.0.2" |}).
  vm_compute. left.
Defined.

(** A cell of a [show version] or [show inventory] table, stripped. *)
Definition serial_cell (c : collected) (s : string) : Prop :=
  exists cmd raw headers rows r x,
    (cmd, raw, headers, rows) ∈ c /\ r ∈ rows /\ x ∈ r /\ s = strip x
    /\ (contains "show version" (lower (strip cmd)) = true
        \/ contains "show inventory" (lower (strip cmd)) = true).

Definition from_cell (c : collected) (o : option string) : Prop :=
  forall s, o = Some s -> truthy s = true -> serial_cell c s.

Lemma nth_elem_of (r : list string) i :
  i < length r -> nth i r "" ∈ r.
Proof. intros Hi. apply list_elem_of_In, nth_In. lia. Qed.

Lemma serial_from_version_cell c rest o :
  (forall it, it ∈ rest -> it ∈ c) -> from_cell c o ->
  from_cell c (serial_from_version o rest).
Proof.
  revert o. induction rest as [|[[[cmd raw] headers] rows] rest IH];
    intros o Hsub Ho; cbn [serial_from_version]; [done|].
  assert (Hsub' : forall it, it ∈ rest -> it ∈ c).
  { intros it Hit. apply Hsub. by right. }
  destruct (contains "show version" (lower (strip cmd))) eqn:Hcmd; cbn [andb].
  2:{ by apply IH. }
  destruct (nonempty headers && nonempty rows); [|by apply IH].
  destruct (_headers_index_map headers !! "serial") as [i|]; [|by apply IH].
  destruct rows as [|r0 rows]; [by apply IH|].
  destruct (i <? length r0)%nat eqn:Hi; [|by apply IH].
  apply Nat.ltb_lt in Hi.
  assert (Hcell : from_cell c (Some (_norm (nth i r0 "")))).
  { intros s [= <-] _. exists cmd, raw, headers, (r0 :: rows), r0, (nth i r0 "").
    split; [apply Hsub; left|]. split; [left|].
    split; [by apply nth_elem_of|]. split; [done|by left]. }
  destruct (truthy (_norm (nth i r0 ""))); [done|by apply IH].
Qed.

Lemma first_cell_elem i rows sv :
  first_cell i rows = Some sv ->
  truthy sv = true /\ exists r x, r ∈ rows /\ x ∈ r /\ sv = strip x.
Proof.
  induction rows as [|r rows IH]; cbn [first_cell]; [done|].
  destruct (i <? length r)%nat eqn:Hi.
  - destruct (truthy (_norm (nth i r ""))) eqn:Ht.
    + intros [= <-]. split; [done|]. exists r, (nth i r "").
      split; [left|]. split; [|done]. apply nth_elem_of. by apply Nat.ltb_lt.
    + intros H. destruct (IH H) as (? & r' & x & ? & ? & ?).
      split; [done|]. exists r', x. split; [by right|done].
  - cbn [truthy]. intros H. destruct (IH H) as (? & r' & x & ? & ? & ?).
    split; [done|]. exists r', x. split; [by right|done].
Qed.

Lemma serial_from_inventory_cell c rest o :
  (forall it, it ∈ rest -> it ∈ c) -> from_cell c o ->
  from_cell c (serial_from_inventory o rest).
Proof.
  revert o. induction rest as [|[[[cmd raw] headers] rows] rest IH];
    intros o Hsub Ho; cbn [serial_from_inventory]; [done|].
  assert (Hsub' : forall it, it ∈ rest -> it ∈ c).
  { intros it Hit. apply Hsub. by right. }
  set (o' := if contains "show inventory" (lower (strip cmd))
                  && nonempty headers && nonempty rows
             then match _find_col_idx headers ["serial"; "sn"] ["serial"] with
                  | Some i => match first_cell i rows with
                              | Some sv => Some sv
                              | None => o
                              end
                  | None => o
                  end
             else o).
  assert (Ho' : from_cell c o').
  { subst o'.
    destruct (contains "show inventory" (lower (strip cmd))) eqn:Hcmd; cbn [andb];
      [|done].
    destruct (nonempty headers && nonempty rows); [|done].
    destruct (_find_col_idx headers ["serial"; "sn"] ["serial"]) as [i|]; [|done].
    destruct (first_cell i rows) as [sv|] eqn:Hsv; [|done].
    destruct (first_cell_elem _ _ _ Hsv) as (_ & r & x & Hr & Hx & ->).
    intros s [= <-] _. exists cmd, raw, headers, rows, r, x.
    split; [apply Hsub; left|]. split; [done|]. split; [done|].
    split; [done|by right]. }
  destruct (opt_truthy o'); [done|by apply IH].
Qed.

(** X8: the identity key of a device is never empty: it is the literal
    "unknown", or the stripped text of a cell of one of its [show version]
    or [show inventory] tables. *)
Theorem device_key_is_unknown_or_a_serial_cell c :
  best (_extract_device_key_from_collected c) <> ""
  /\ (best (_extract_device_key_from_collected c) = "unknown"
      \/ serial_cell c (best (_extract_device_key_from_collected c))).
Proof.
  unfold _extract_device_key_from_collected, best. cbn [serial mgmt_ip opt_or].
  set (o1 := serial_from_version None c).
  assert (H1 : from_cell c o1).
  { apply serial_from_version_cell; [done|]. by intros s. }
  set (o2 := if opt_truthy o1 then o1 else serial_from_inventory o1 c).
  assert (H2 : from_cell c o2).
  { subst o2. destruct (opt_truthy o1); [done|].
    by apply serial_from_inventory_cell. }
  destruct o2 as [s|] eqn:Ho2; cbn [opt_or].
  - unfold or_else. destruct (truthy s) eqn:Hs.
    + split; [by destruct s|]. right. by apply H2.
    + split; [done|by left].
  - cbn. split; [done|by left].
Qed.

End CrawlHelpers.

(** * Further properties of the snapshot store *)

Section HistoryExtras.
Import PyStr History HistoryRead.
Variable tmp_name : gset string -> string.

Definition key_leb (a b : string) : Prop :=
  String.leb (snapshot_key a) (snapshot_key b) = true.

Lemma list_snapshots_sorted (dir : gset string) :
  StronglySorted key_leb (list_snapshots dir).
Proof.
  apply (sorted_by_sorted String.leb snapshot_key String.leb_total string_leb_trans).
Qed.

Lemma list_snapshots_NoDup (dir : gset string) : NoDup (list_snapshots dir).
Proof. apply sorted_by_NoDup, NoDup_filter, NoDup_elements. Qed.

(** X9: [list_snapshots] returns the entries of the directory that end
    in ".json", each once, in ascending order of their sort key. *)
Theorem list_snapshots_spec (dir : gset string) :
  (forall f, f ∈ list_snapshots dir <-> endswith ".json" f = true /\ f ∈ dir)
  /\ NoDup (list_snapshots dir)
  /\ StronglySorted key_leb (list_snapshots dir).
Proof.
  split; [intros f; apply elem_of_list_snapshots|].
  split; [apply list_snapshots_NoDup|apply list_snapshots_sorted].
Qed.

Lemma elem_of_foldl_remove remove_ok (dir : gset string) l f :
  f ∈ foldl (remove_quietly remove_ok) dir l
  <-> f ∈ dir /\ ~ (f ∈ l /\ remove_ok f = true).
Proof.
  revert dir. induction l as [|x l IH]; intros dir; cbn [foldl].
  - split; [|by intros [? _]]. intros H. split; [done|].
    intros [Hx _]. by apply elem_of_nil in Hx.
  - rewrite IH. unfold remove_quietly. destruct (remove_ok x) eqn:Hx.
    + rewrite elem_of_difference, elem_of_singleton. split.
      * intros [[Hf Hne] Hl]. split; [done|].
        intros [[->|Hin]%elem_of_cons Hok]; [done|]. by apply Hl.
      * intros [Hf Hno]. split; [split; [done|]|].
        -- intros ->. apply Hno. split; [left|done].
        -- intros [Hin Hok]. apply Hno. split; [by right|done].
    + split.
      * intros [Hf Hl]. split; [done|].
        intros [[->|Hin]%elem_of_cons Hok]; [congruence|]. by apply Hl.
      * intros [Hf Hno]. split; [done|].
        intros [Hin Hok]. apply Hno. split; [by right|done].
Qed.



Lemma list_snapshots_nil (dir : gset string) :
  (forall f, f ∈ dir -> endswith ".json" f = false) -> list_snapshots dir = [].
Proof.
  intros Hnone. destruct (list_snapshots dir) as [|f l] eqn:Hl; [done|].
  assert (Hf : f ∈ list_snapshots dir) by (rewrite Hl; left).
  apply elem_of_list_snapshots in Hf as [Hj Hd]. rewrite Hnone in Hj; done.
Qed.

(** X11: with [max_keep <= 0] and removals that succeed, a save leaves no
    snapshot at all: the file it has just written is removed with the
    others, and the path of that file is returned all the same. *)
Theorem save_with_nothing_to_keep base host ts max_keep (dir : gset string) :
  (max_keep <= 0)%Z ->
  let out := save_snapshot tmp_name (fun _ => true) (fun _ => true)
                           base host ts max_keep dir in
  fst out = Ok (snapshot_path base host ts)
  /\ list_snapshots (snd out) = []
  /\ snapshot_name ts ∉ snd out.
Proof.
  intros Hmk. rewrite save_snapshot_unfold. cbv zeta. cbn [fst snd].
  set (dir1 := {[snapshot_name ts]} ∪ dir).
  assert (Hin : snapshot_name ts ∈ list_snapshots dir1).
  { apply elem_of_list_snapshots. split; [apply name_is_snapshot|].
    by apply elem_of_union_l, elem_of_singleton. }
  assert (Hlen : 0 < length (list_snapshots dir1)).
  { destruct (list_snapshots dir1); [by apply elem_of_nil in Hin|simpl; lia]. }
  destruct (max_keep <? Z.of_nat (length (list_snapshots dir1)))%Z eqn:Hcmp;
    [|apply Z.ltb_ge in Hcmp; lia].
  assert (Hall : slice_to (Z.of_nat (length (list_snapshots dir1)) - max_keep)
                          (list_snapshots dir1) = list_snapshots dir1).
  { unfold slice_to.
    destruct (_ <? 0)%Z eqn:Hneg; [apply Z.ltb_lt in Hneg; lia|].
    apply take_ge. lia. }
  rewrite Hall. split; [done|]. split.
  - apply list_snapshots_nil. intros f [Hf Hno]%elem_of_foldl_remove.
    destruct (endswith ".json" f) eqn:Hj; [|done].
    exfalso. apply Hno. split; [|done]. by apply elem_of_list_snapshots.
  - intros [_ Hno]%elem_of_foldl_remove. by apply Hno.
Qed.

Lemma ltb_leb_contra (a b : string) :
  String.ltb a b = true -> String.leb b a = true -> False.
Proof.
  unfold String.ltb, String.leb. rewrite (String.compare_antisym b a).
  by destruct (String.compare a b).
Qed.

Lemma sorted_last_greatest {A} (R : A -> A -> Prop) l z x :
  StronglySorted R (l ++ [z]) -> x ∈ l -> R x z.
Proof.
  induction l as [|y l IH]; cbn; intros Hs Hx; [by apply elem_of_nil in Hx|].
  inversion Hs as [|? ? Hs' Hall]; subst.
  apply elem_of_cons in Hx as [->|Hx]; [|by apply IH].
  rewrite Forall_forall in Hall. apply Hall, elem_of_app. right. left.
Qed.

(** The entry with the strictly greatest key is the last of a sorted
    listing. *)
Lemma greatest_is_last (files : list string) new :
  StronglySorted key_leb files -> NoDup files -> new ∈ files ->
  (forall f, f ∈ files -> f <> new ->
     String.ltb (snapshot_key f) (snapshot_key new) = true) ->
  exists l, files = l ++ [new] /\ new ∉ l.
Proof.
  intros Hs Hnd Hnew Hmax.
  destruct files as [|z l0 _] using rev_ind; [by apply elem_of_nil in Hnew|].
  assert (Hz : z = new).
  { destruct (decide (z = new)) as [|Hne]; [done|]. exfalso.
    assert (Hin : new ∈ l0).
    { apply elem_of_app in Hnew as [|Hin]; [done|].
      apply list_elem_of_singleton in Hin. congruence. }
    pose proof (sorted_last_greatest _ _ _ _ Hs Hin) as Hle.
    eapply ltb_leb_contra; [|exact Hle]. apply Hmax; [|done].
    apply elem_of_app. right. left. }
  subst z. exists l0. split; [done|].
  apply NoDup_app in Hnd as (_ & Hdisj & _). intros Hin.
  apply (Hdisj new Hin). left.
Qed.

Lemma newest_is_last (dir : gset string) new :
  new ∈ list_snapshots dir ->
  (forall f, f ∈ list_snapshots dir -> f <> new ->
     String.ltb (snapshot_key f) (snapshot_key new) = true) ->
  exists l, list_snapshots dir = l ++ [new] /\ new ∉ l.
Proof.
  apply greatest_is_last; [apply list_snapshots_sorted|apply list_snapshots_NoDup].
Qed.

(** X12: when the history holds [max_keep] snapshots and the timestamp
    saved is older than all of them, the file just written is the one
    retention removes: the directory is as before, and the path of the
    removed file is returned. *)
Theorem stale_save_is_dropped base host ts max_keep (dir : gset string) :
  Z.of_nat (length (list_snapshots dir)) = max_keep ->
  snapshot_name ts ∉ dir ->
  (forall f, f ∈ list_snapshots dir ->
     String.ltb (snapshot_key (snapshot_name ts)) (snapshot_key f) = true) ->
  save_snapshot tmp_name (fun _ => true) (fun _ => true) base host ts max_keep dir
  = (Ok (snapshot_path base host ts), dir).
Proof.
  intros Hfull Hfresh Hold. rewrite save_snapshot_unfold. f_equal. cbv zeta.
  assert (Hlen : length (list_snapshots ({[snapshot_name ts]} ∪ dir))
                 = S (length (list_snapshots dir))).
  { rewrite !list_snapshots_length.
    by rewrite (snaps_insert dir _ Hfresh (name_is_snapshot ts)). }
  set (dir1 := {[snapshot_name ts]} ∪ dir) in *.
  rewrite Hlen.
  destruct (max_keep <? Z.of_nat (S (length (list_snapshots dir))))%Z eqn:Hcmp;
    [|apply Z.ltb_ge in Hcmp; lia].
  replace (Z.of_nat (S (length (list_snapshots dir))) - max_keep)%Z with 1%Z by lia.
  destruct (list_snapshots dir1) as [|r rest] eqn:Hfiles; [discriminate Hlen|].
  change (foldl (remove_quietly (fun _ => true)) dir1 (slice_to 1 (r :: rest)))
    with (dir1 ∖ {[r]}).
  assert (Hr : r = snapshot_name ts).
  { assert (Hrin : r ∈ list_snapshots dir1) by (rewrite Hfiles; left).
    apply elem_of_list_snapshots in Hrin as [Hrj Hrd].
    apply elem_of_union in Hrd as [Hrd|Hrd]; [by apply elem_of_singleton in Hrd|].
    exfalso.
    assert (Hlt : String.ltb (snapshot_key (snapshot_name ts)) (snapshot_key r) = true).
    { apply Hold. by apply elem_of_list_snapshots. }
    eapply ltb_leb_contra; [exact Hlt|].
    apply (sorted_by_head_least String.leb snapshot_key String.leb_total
             string_leb_trans
             (filter (fun f => endswith ".json" f) (elements dir1)) r rest);
      [exact Hfiles|].
    apply list_elem_of_filter. split; [by rewrite name_is_snapshot|].
    by apply elem_of_elements, elem_of_union_l, elem_of_singleton. }
  subst r. subst dir1. apply set_eq. intros f.
  rewrite elem_of_difference, elem_of_union, !elem_of_singleton. split.
  - intros [[->|Hf] Hne]; done.
  - intros Hf. split; [by right|]. intros ->. done.
Qed.

Section Reading.
Context {data : Type}.
Variable load_snapshot : string -> res data.
Variable content : string -> data.

Local Abbreviation last_two := (get_last_two load_snapshot).

(** X13: when a timestamp newer than every snapshot of the history is
    saved with [max_keep >= 1], its file survives retention, is the last of
    the listing, and is what [get_last_two] returns as the current
    snapshot. *)
Theorem newest_save_is_current base host ts max_keep (dir : gset string) :
  (1 <= max_keep)%Z ->
  (forall f, f ∈ list_snapshots dir ->
     String.ltb (snapshot_key f) (snapshot_key (snapshot_name ts)) = true) ->
  (forall f, load_snapshot f = Ok (content f)) ->
  let out := save_snapshot tmp_name (fun _ => true) (fun _ => true)
                           base host ts max_keep dir in
  fst out = Ok (snapshot_path base host ts)
  /\ last (list_snapshots (snd out)) = Some (snapshot_name ts)
  /\ exists prev,
       last_two (snd out) = Ok (prev, Some (content (snapshot_name ts))).
Proof.
  intros Hmk Hnew Hload. rewrite save_snapshot_unfold. cbv zeta. cbn [fst snd].
  split; [done|].
  set (new := snapshot_name ts).
  set (dir1 := {[new]} ∪ dir).
  assert (Hmax1 : forall f, f ∈ list_snapshots dir1 -> f <> new ->
            String.ltb (snapshot_key f) (snapshot_key new) = true).
  { intros f [Hj Hd]%elem_of_list_snapshots Hne. apply Hnew.
    apply elem_of_list_snapshots. split; [done|].
    apply elem_of_union in Hd as [Hd|Hd]; [|done].
    by apply elem_of_singleton in Hd. }
  assert (Hin1 : new ∈ list_snapshots dir1).
  { apply elem_of_list_snapshots. split; [apply name_is_snapshot|].
    by apply elem_of_union_l, elem_of_singleton. }
  destruct (newest_is_last dir1 new Hin1 Hmax1) as (l & Hl & Hnl).
  set (dir' := if (max_keep <? Z.of_nat (length (list_snapshots dir1)))%Z
               then foldl (remove_quietly (fun _ => true)) dir1
                      (slice_to (Z.of_nat (length (list_snapshots dir1)) - max_keep)
                                (list_snapshots dir1))
               else dir1).
  assert (Hin' : new ∈ list_snapshots dir').
  { apply elem_of_list_snapshots. split; [apply name_is_snapshot|]. subst dir'.
    destruct (max_keep <? _)%Z eqn:Hcmp;
      [|by apply elem_of_union_l, elem_of_singleton].
    apply elem_of_foldl_remove.
    split; [by apply elem_of_union_l, elem_of_singleton|].
    intros [Hrm _]. apply Hnl. rewrite Hl, length_app in Hrm, Hcmp.
    cbn [length] in Hrm, Hcmp. apply Z.ltb_lt in Hcmp. unfold slice_to in Hrm.
    destruct (Z.of_nat (length l + 1) - max_keep <? 0)%Z eqn:Hneg;
      [apply Z.ltb_lt in Hneg; lia|].
    rewrite take_app_le in Hrm by lia.
    by eapply (subseteq_take _ l). }
  assert (Hmax' : forall f, f ∈ list_snapshots dir' -> f <> new ->
            String.ltb (snapshot_key f) (snapshot_key new) = true).
  { intros f [Hj Hd]%elem_of_list_snapshots Hne. apply Hmax1; [|done].
    apply elem_of_list_snapshots. split; [done|]. subst dir'.
    destruct (max_keep <? _)%Z; [|done].
    by apply elem_of_foldl_remove in Hd as [Hd _]. }
  destruct (newest_is_last dir' new Hin' Hmax') as (l' & Hl' & _).
  fold dir'. split.
  - rewrite Hl'. apply last_snoc.
  - unfold get_last_two. rewrite Hl', rev_unit.
    destruct (rev l') as [|p t]; cbn [res_bind]; rewrite ?Hload; cbn [res_bind];
      by eexists.
Qed.

(** X14: [get_last_two] answers (None, None) exactly when the history has
    no snapshot.  When it answers with two snapshots, they are two
    different entries in chronological order, the current one has the
    greatest key of all, and the previous one the greatest of the rest. *)
Theorem get_last_two_spec (dir : gset string) :
  (forall f, load_snapshot f = Ok (content f)) ->
  (last_two dir = Ok (None, None) <-> list_snapshots dir = [])
  /\ (forall dp dc, last_two dir = Ok (Some dp, Some dc) ->
        exists p c, dp = content p /\ dc = content c /\ p <> c
          /\ p ∈ list_snapshots dir /\ c ∈ list_snapshots dir
          /\ key_leb p c
          /\ forall f, f ∈ list_snapshots dir -> f <> c ->
                key_leb f c /\ (f <> p -> key_leb f p)).
Proof.
  intros Hload. unfold get_last_two.
  pose proof (list_snapshots_sorted dir) as Hs.
  pose proof (list_snapshots_NoDup dir) as Hnd.
  destruct (list_snapshots dir) as [|c l _] using rev_ind.
  { cbn. split; [done|]. intros dp dc H. discriminate H. }
  rewrite rev_unit.
  destruct l as [|p l _] using rev_ind.
  { cbn [rev res_bind]. rewrite Hload. cbn [res_bind]. split.
    - split; intros H; [discriminate H|cbn in H; discriminate H].
    - intros dp dc H. discriminate H. }
  rewrite rev_unit. rewrite !Hload. cbn [res_bind]. split.
  { split; intros H; [discriminate H|].
    apply app_eq_nil in H as [_ H]. discriminate H. }
  intros dp dc [= <- <-]. exists p, c.
  apply NoDup_app in Hnd as (Hnd1 & Hdisj & _).
  assert (Hpc : p <> c).
  { intros ->. apply (Hdisj c); [|left]. apply elem_of_app. right. left. }
  split; [done|]. split; [done|]. split; [done|].
  split; [apply elem_of_app; left; apply elem_of_app; right; left|].
  split; [apply elem_of_app; right; left|].
  assert (Hlast : forall f, f ∈ l ++ [p] -> key_leb f c).
  { intros f Hf. by apply (sorted_last_greatest _ _ _ _ Hs). }
  split; [apply Hlast, elem_of_app; right; left|].
  intros f Hf Hfc.
  assert (Hf' : f ∈ l ++ [p]).
  { apply elem_of_app in Hf as [|Hf]; [done|].
    apply list_elem_of_singleton in Hf. done. }
  split; [by apply Hlast|]. intros Hfp.
  assert (Hs' : StronglySorted key_leb (l ++ [p])).
  { clear -Hs. induction l as [|x l IH]; cbn in *.
    - repeat constructor.
    - inversion Hs as [|? ? Hs1 Hall]; subst. constructor; [by apply IH|].
      rewrite Forall_forall in Hall |- *. intros y Hy. apply Hall.
      apply elem_of_app. by left. }
  apply (sorted_last_greatest _ _ _ _ Hs').
  apply elem_of_app in Hf' as [|Hf']; [done|].
  apply list_elem_of_singleton in Hf'. done.
Qed.

(** X15: when the newest snapshot of the history cannot be read,
    [get_last_two] raises; it does not fall back on an older snapshot. *)
Theorem unreadable_newest_snapshot_raises (dir : gset string) c :
  last (list_snapshots dir) = Some c ->
  raises (load_snapshot c) ->
  raises (last_two dir).
Proof.
  intros Hlast [e He]. apply last_Some in Hlast as [l Hl].
  unfold get_last_two. rewrite Hl, rev_unit.
  destruct (rev l) as [|p t]; cbn [res_bind].
  - rewrite He. by exists e.
  - destruct (load_snapshot p) as [dp|e']; cbn [res_bind].
    + rewrite He. by exists e.
    + by exists e'.
Qed.

End Reading.

End HistoryExtras.

Section HistoryExtraRuns.
Import PyStr History HistoryRead.

Lemma save_with_nothing_to_keep_witness :
  list_snapshots
    (snd (save_snapshot Store.mkstemp (fun _ => true) (fun _ => true) "/out" "A"
            "2024-01-03_00-00-00" 0 Store.two_snapshots)) = [].
Proof.
  apply (save_with_nothing_to_keep Store.mkstemp "/out" "A" "2024-01-03_00-00-00" 0
           Store.two_snapshots).
  lia.
Defined.

Lemma stale_save_is_dropped_witness :
  save_snapshot Store.mkstemp (fun _ => true) (fun _ => true) "/out" "A"
                "2023-12-31_00-00-00" 2 Store.two_snapshots
  = (Ok (snapshot_path "/out" "A" "2023-12-31_00-00-00"), Store.two_snapshots).
Proof.
  apply stale_save_is_dropped.
  - by vm_compute.
  - by vm_compute.
  - apply Forall_forall. compute_done.
Defined.

Lemma newest_save_is_current_witness :
  exists prev,
    get_last_two Store.read_name
      (snd (save_snapshot Store.mkstemp (fun _ => true) (fun _ => true) "/out" "A"
              "2024-01-03_00-00-00" 2 Store.two_snapshots))
    = Ok (prev, Some "2024-01-03_00-00-00.json").
Proof.
  destruct (newest_save_is_current Store.mkstemp Store.read_name id "/out" "A"
              "2024-01-03_00-00-00" 2 Store.two_snapshots)
    as (_ & _ & prev & Hprev).
  - lia.
  - apply Forall_forall. compute_done.
  - reflexivity.
  - by exists prev.
Defined.

Lemma get_last_two_spec_witness :
  get_last_two Store.read_name Store.two_snapshots = Ok (None, None)
  <-> list_snapshots Store.two_snapshots = [].
Proof.
  apply (get_last_two_spec Store.read_name id Store.two_snapshots).
  reflexivity.
Defined.

Lemma unreadable_newest_snapshot_raises_witness :
  raises (get_last_two Store.read_damaged Store.two_snapshots).
Proof.
  apply (unreadable_newest_snapshot_raises Store.read_damaged
           Store.two_snapshots "2024-01-02_00-00-00.json").
  - by vm_compute.
  - by exists ValueError.
Defined.

End HistoryExtraRuns.

(** * Further properties of the diff engine *)

Section RecordDeltas.
Import PyStr Diff.

Section Generic.
Context {V E : Type} `{EqDecision V}.
Variable dflt : V.
Variable entry : string -> V -> V -> E.
Variable key_of : E -> string.
Hypothesis key_of_entry : forall k a b, key_of (entry k a b) = k.








End Generic.










(** *** Exchanging the two snapshots *)






End RecordDeltas.

Section VlanDelta.
Import PyStr Diff.






End VlanDelta.

Section NeighborDelta.
Import PyStr Diff.

Lemma truthy_false s : truthy s = false -> s = "".
Proof. by destruct s. Qed.

Lemma set_local_if_same r : set_local_if (local_if r) r = r.
Proof. by destruct r. Qed.

Lemma set_local_if_twice v w r : set_local_if v (set_local_if w r) = set_local_if v r.
Proof. done. Qed.

Lemma find_snoc {A} (p : A -> bool) l x :
  find p (l ++ [x])
  = match find p l with Some y => Some y | None => if p x then Some x else None end.
Proof.
  induction l as [|y l IH]; simpl; [done|]. by destruct (p y).
Qed.

Lemma find_none_weaken {A} (p q : A -> bool) l :
  find p l = None -> find (fun x => p x && q x) l = None.
Proof.
  induction l as [|y l IH]; simpl; [done|].
  destruct (p y); [done|]. simpl. exact IH.
Qed.

Lemma find_holds {A} (p : A -> bool) l x : find p l = Some x -> p x = true /\ x ∈ l.
Proof.
  intros H. apply find_some in H as [Hin Hp]. split; [done|]. by apply list_elem_of_In.
Qed.

(** The first row of [rows] under the key [k]. *)
Definition first_with_key (k : string * string) (rows : list NeighborRow)
  : option NeighborRow :=
  find (fun r => bool_decide (neighbor_key r = k)) rows.

(** The local interface of the first row under [k] that has one. *)
Definition first_local_if (k : string * string) (rows : list NeighborRow) : string :=
  default ""
    (local_if <$> find (fun r => bool_decide (neighbor_key r = k) && truthy (local_if r))
                       rows).

Lemma merge_row_other merged x k :
  k <> neighbor_key x -> merge_row merged x !! k = merged !! k.
Proof.
  intros Hne. unfold merge_row.
  destruct (merged !! neighbor_key x) as [m|].
  - destruct (_ && _); [|done]. by rewrite lookup_insert_ne.
  - by rewrite lookup_insert_ne.
Qed.

Lemma merge_row_same merged x :
  merge_row merged x !! neighbor_key x
  = match merged !! neighbor_key x with
    | None => Some x
    | Some m =>
        Some (if negb (truthy (local_if m)) && truthy (local_if x)
              then set_local_if (local_if x) m else m)
    end.
Proof.
  unfold merge_row.
  destruct (merged !! neighbor_key x) as [m|] eqn:Hm.
  - destruct (_ && _); [by rewrite lookup_insert_eq|done].
  - by rewrite lookup_insert_eq.
Qed.

Lemma merge_lookup (rows : list NeighborRow) (k : string * string) :
  _merge_by_neighbor_port rows !! k
  = set_local_if (first_local_if k rows) <$> first_with_key k rows.
Proof.
  unfold _merge_by_neighbor_port, first_local_if, first_with_key.
  induction rows as [|x rows IH] using rev_ind; [done|].
  rewrite foldl_snoc, !find_snoc.
  destruct (decide (k = neighbor_key x)) as [->|Hne].
  - rewrite bool_decide_eq_true_2 by done. cbn [andb].
    rewrite merge_row_same, IH.
    destruct (find (fun r => bool_decide (neighbor_key r = neighbor_key x)) rows)
      as [y|] eqn:Hy.
    + cbn [fmap option_fmap option_map].
      destruct (find (fun r => bool_decide (neighbor_key r = neighbor_key x)
                                && truthy (local_if r)) rows) as [z|] eqn:Hz.
      * apply find_holds in Hz as [[_ Hz]%andb_true_iff _].
        cbn. by rewrite Hz.
      * cbn. by destruct (truthy (local_if x)) eqn:Hx.
    + cbn [fmap option_fmap option_map].
      rewrite (find_none_weaken _ (fun r => truthy (local_if r)) _ Hy).
      f_equal.
      destruct (truthy (local_if x)) eqn:Hx; cbn.
      * by rewrite set_local_if_same.
      * apply truthy_false in Hx. destruct x; cbn in *. by subst.
  - rewrite merge_row_other by done.
    rewrite bool_decide_eq_false_2 by done. cbn [andb]. rewrite IH.
    by destruct (find _ rows), (find _ rows).
Qed.

Lemma first_with_key_Some k rows r :
  first_with_key k rows = Some r -> neighbor_key r = k /\ r ∈ rows.
Proof.
  intros [Hk Hr]%find_holds. split; [|done]. by apply bool_decide_eq_true in Hk.
Qed.

Lemma first_with_key_None k rows :
  first_with_key k rows = None <-> k ∉ neighbor_key <$> rows.
Proof.
  unfold first_with_key. split.
  - intros Hnone (r & -> & Hr)%list_elem_of_fmap.
    apply list_elem_of_In in Hr.
    pose proof (find_none _ _ Hnone r Hr) as Hf. cbn in Hf.
    by rewrite bool_decide_eq_true_2 in Hf.
  - intros Hk. destruct (find _ rows) as [r|] eqn:Hr; [|done].
    exfalso. apply Hk. apply find_holds in Hr as [Hrk Hr].
    apply bool_decide_eq_true in Hrk. rewrite <- Hrk. by apply list_elem_of_fmap_2.
Qed.

Lemma dom_merge rows :
  dom (_merge_by_neighbor_port rows) = list_to_set (neighbor_key <$> rows).
Proof.
  apply set_eq. intros k.
  rewrite elem_of_dom, elem_of_list_to_set, merge_lookup.
  destruct (first_with_key k rows) as [r|] eqn:Hr; cbn.
  - split; [intros _|by eexists].
    apply first_with_key_Some in Hr as [<- Hr]. by apply list_elem_of_fmap_2.
  - apply first_with_key_None in Hr. split; [by intros [? ?]|done].
Qed.

Lemma elem_of_refs_of rows keys e :
  e ∈ refs_of rows keys <-> exists k r, k ∈ keys /\ rows !! k = Some r /\ e = neighbor_ref r.
Proof.
  unfold refs_of. rewrite list_elem_of_omap. split.
  - intros (k & Hk & He). destruct (rows !! k) as [r|] eqn:Hr; [|done].
    injection He as <-. by exists k, r.
  - intros (k & r & Hk & Hr & ->). exists k. by rewrite Hr.
Qed.

Lemma pair_leb_total a b : pair_leb a b = true \/ pair_leb b a = true.
Proof.
  unfold pair_leb. rewrite (String.eqb_sym (fst b) (fst a)).
  destruct (String.eqb (fst a) (fst b)); apply String.leb_total.
Qed.

Lemma pair_leb_trans a b c :
  pair_leb a b = true -> pair_leb b c = true -> pair_leb a c = true.
Proof.
  unfold pair_leb.
  destruct (String.eqb_spec (fst a) (fst b)) as [Hab|Hab],
           (String.eqb_spec (fst b) (fst c)) as [Hbc|Hbc],
           (String.eqb_spec (fst a) (fst c)) as [Hac|Hac];
    try congruence.
  - apply string_leb_trans.
  - intros H1 H2. exfalso. apply Hab. rewrite <- Hac in H2.
    by apply String.leb_antisym.
  - apply string_leb_trans.
Qed.

Lemma sorted_pairs_sorted (s : gset (string * string)) :
  StronglySorted (fun a b => pair_leb a b = true) (sorted_pairs s).
Proof. apply (sorted_by_sorted pair_leb id pair_leb_total pair_leb_trans). Qed.

(** X19: the merged dictionary is a function of the rows in their order:
    under each key it holds the first row with that key (so its spelling of
    the neighbour and of the remote port, and its protocol), with the local
    interface replaced by that of the first row with the key that has a
    local interface, if there is one; it has an entry for every key of a row
    and for no other. *)
Theorem merge_keeps_the_first_row_and_the_first_local_interface
    (rows : list NeighborRow) (k : string * string) :
  _merge_by_neighbor_port rows !! k
  = set_local_if (first_local_if k rows) <$> first_with_key k rows
  /\ (k ∈ dom (_merge_by_neighbor_port rows) <-> k ∈ neighbor_key <$> rows).
Proof.
  split; [apply merge_lookup|]. by rewrite dom_merge, elem_of_list_to_set.
Qed.

Lemma cdp_rows_proto m c : c ∈ cdp_rows m -> proto c = "CDP".
Proof.
  unfold cdp_rows, _neighbor_rows_from_parsed.
  intros (raw & _ & Hc)%elem_of_flat_map. cbv zeta in Hc.
  destruct (negb _); [by apply elem_of_nil in Hc|].
  by apply list_elem_of_singleton in Hc as ->.
Qed.

Lemma find_app_l {A} (p : A -> bool) l1 l2 y :
  find p l1 = Some y -> find p (l1 ++ l2) = Some y.
Proof.
  induction l1 as [|x l1 IH]; simpl; [done|]. by destruct (p x).
Qed.

(** X20: an adjacency that CDP reports is kept as CDP reports it, whatever
    LLDP says about the same key: the merged entry carries the neighbour
    name and the remote port of a CDP row with that key, and the protocol
    CDP. *)
Theorem cdp_row_wins_over_lldp (m : cmdmap) (c : NeighborRow) :
  c ∈ cdp_rows m ->
  exists r c',
    _merge_by_neighbor_port (_collect_neighbors m) !! neighbor_key c = Some r
    /\ c' ∈ cdp_rows m
    /\ neighbor_key c' = neighbor_key c
    /\ neighbor r = neighbor c'
    /\ neighbor_if r = neighbor_if c'
    /\ proto r = "CDP".
Proof.
  intros Hc. rewrite merge_lookup. unfold _collect_neighbors.
  destruct (first_with_key (neighbor_key c) (cdp_rows m)) as [c'|] eqn:Hc'.
  - unfold first_with_key in *. rewrite (find_app_l _ _ _ _ Hc').
    apply first_with_key_Some in Hc' as [Hk Hin].
    eexists _, c'. split; [reflexivity|]. cbn.
    split; [done|]. split; [done|]. split; [done|]. split; [done|].
    by apply cdp_rows_proto in Hin.
  - apply first_with_key_None in Hc'. exfalso. apply Hc'.
    by apply list_elem_of_fmap_2.
Qed.

(** The adjacencies of [rows] under keys that no row of [others] has. *)
Definition only_in (rows others : list NeighborRow) (e : NeighborRef) : Prop :=
  exists k r,
    _merge_by_neighbor_port rows !! k = Some r
    /\ (k ∉ neighbor_key <$> others)
    /\ e = neighbor_ref r.

Lemma refs_of_difference rows others e :
  e ∈ refs_of (_merge_by_neighbor_port rows)
        (sorted_pairs (dom (_merge_by_neighbor_port rows)
                       ∖ dom (_merge_by_neighbor_port others)))
  <-> only_in rows others e.
Proof.
  rewrite elem_of_refs_of. unfold only_in. split.
  - intros (k & r & Hk & Hr & ->). exists k, r.
    apply elem_of_sorted_pairs, elem_of_difference in Hk as [_ Hk].
    rewrite dom_merge, elem_of_list_to_set in Hk. done.
  - intros (k & r & Hr & Hk & ->). exists k, r. split; [|done].
    apply elem_of_sorted_pairs, elem_of_difference. split.
    + apply elem_of_dom. by eexists.
    + by rewrite dom_merge, elem_of_list_to_set.
Qed.

(** X21: the neighbour delta compares composite keys only.  An adjacency is
    added exactly when its key (neighbour name and remote port, in lower
    case and without surrounding blanks) labels no row of the previous
    snapshot, and removed exactly when its key labels no row of the current
    one; each is reported as merged in its own snapshot, and both lists are
    in ascending order of key. *)
Theorem neighbor_delta_compares_keys_only (prev cur : cmdmap) :
  let d := diff_neighbors prev cur in
  (forall e, e ∈ neigh_added d
             <-> only_in (_collect_neighbors cur) (_collect_neighbors prev) e)
  /\ (forall e, e ∈ neigh_removed d
                <-> only_in (_collect_neighbors prev) (_collect_neighbors cur) e)
  /\ StronglySorted (fun a b => pair_leb a b = true) (ref_key <$> neigh_added d)
  /\ StronglySorted (fun a b => pair_leb a b = true) (ref_key <$> neigh_removed d).
Proof.
  intros d. subst d. unfold diff_neighbors. cbn [neigh_added neigh_removed].
  split; [intros e; apply refs_of_difference|].
  split; [intros e; apply refs_of_difference|].
  split.
  - rewrite refs_of_keys; [apply sorted_pairs_sorted|].
    intros k Hk. by apply elem_of_sorted_pairs, elem_of_difference in Hk as [Hk _].
  - rewrite refs_of_keys; [apply sorted_pairs_sorted|].
    intros k Hk. by apply elem_of_sorted_pairs, elem_of_difference in Hk as [Hk _].
Qed.

(** X22: when the two snapshots report the same set of composite keys, the
    neighbour delta is empty: a neighbour that moved to another local
    interface, or that is now seen through the other protocol, is not
    reported. *)
Theorem local_interface_change_is_not_reported (prev cur : cmdmap) :
  (list_to_set (neighbor_key <$> _collect_neighbors prev) : gset (string * string))
  = list_to_set (neighbor_key <$> _collect_neighbors cur) ->
  diff_neighbors prev cur = {| neigh_added := []; neigh_removed := [] |}.
Proof.
  intros Hsame. unfold diff_neighbors.
  rewrite !dom_merge, Hsame, difference_diag_L.
  unfold sorted_pairs. by rewrite elements_empty.
Qed.

End NeighborDelta.

Section DiffExtraRuns.
Import PyStr Diff.

Lemma cdp_row_wins_over_lldp_witness :
  exists r,
    _merge_by_neighbor_port
      (_collect_neighbors (_snapshot_to_cmdmap (Some Example.both_protocols)))
      !! ("sw-b", "gi0/1") = Some r
    /\ neighbor r = "SW-B" /\ proto r = "CDP".
Proof.
  set (m := _snapshot_to_cmdmap (Some Example.both_protocols)).
  destruct (cdp_row_wins_over_lldp m
              {| neighbor := "SW-B"; local_if := ""; neighbor_if := "Gi0/1";
                 proto := "CDP" |})
    as (r & c' & Hr & Hc' & _ & Hn & _ & Hp).
  - vm_compute. left.
  - exists r. split; [exact Hr|]. split; [|exact Hp].
    rewrite Hn. vm_compute in Hc'.
    apply list_elem_of_singleton in Hc'. by rewrite Hc'.
Defined.

Lemma local_interface_change_is_not_reported_witness :
  diff_neighbors (_snapshot_to_cmdmap (Some Example.uplink_before))
                 (_snapshot_to_cmdmap (Some Example.uplink_after))
  = {| neigh_added := []; neigh_removed := [] |}.
Proof.
  apply local_interface_change_is_not_reported. by vm_compute.
Defined.

End DiffExtraRuns.

(** * Numerals and the expansion of allowed-VLAN lists *)

Section Numerals.
Import PyStr.

Lemma int_acc_pos d acc :
  int_acc (N.pos acc) (NilEmpty.string_of_uint d) = N.pos (Pos.of_uint_acc d acc).
Proof.
  revert acc. induction d as [|d IH|d IH|d IH|d IH|d IH|d IH|d IH|d IH|d IH|d IH];
    intros acc; [done|..];
    cbn [NilEmpty.string_of_uint int_acc Pos.of_uint_acc]; rewrite <- IH; f_equal;
    vm_compute digit_val; lia.
Qed.

Lemma int_string_of_uint d : int (NilEmpty.string_of_uint d) = N.of_uint d.
Proof.
  unfold int, N.of_uint.
  induction d as [|d IH|d IH|d IH|d IH|d IH|d IH|d IH|d IH|d IH|d IH];
    [done|exact IH|..];
    cbn [NilEmpty.string_of_uint int_acc Pos.of_uint]; by rewrite <- int_acc_pos.
Qed.

(** [int(str(n)) == n] *)
Lemma int_str n : int (str n) = n.
Proof.
  unfold str. rewrite <- (DecimalN.Unsigned.of_to n) at 2.
  destruct (N.to_uint n); try apply int_string_of_uint. done.
Qed.

Lemma all_digits_string_of_uint d : all_digits (NilEmpty.string_of_uint d) = true.
Proof. induction d; done. Qed.

(** [str(n).isdecimal()], [str(n).isdigit()] and [int(str(n))] *)
Lemma isdecimal_str n : isdecimal (str n) = true.
Proof.
  unfold str. destruct (N.to_uint n) as [|d|d|d|d|d|d|d|d|d|d]; [done|..];
    apply (all_digits_string_of_uint d).
Qed.

Lemma isdigit_str n : isdigit (str n) = true.
Proof. apply isdecimal_isdigit, isdecimal_str. Qed.

Lemma str_inj m n : str m = str n -> m = n.
Proof. intros H. by rewrite <- (int_str m), <- (int_str n), H. Qed.

Lemma to_int_str n : to_int (str n) = Ok n.
Proof. unfold to_int. by rewrite isdecimal_str, int_str. Qed.

(** Every character of [s] satisfies [p]. *)
Fixpoint all_chars (p : ascii -> bool) (s : string) : bool :=
  match s with
  | EmptyString => true
  | String c s' => p c && all_chars p s'
  end.

Lemma all_chars_app p s t :
  all_chars p (s +:+ t) = all_chars p s && all_chars p t.
Proof. induction s as [|c s IH]; simpl; [done|]. by rewrite IH, andb_assoc. Qed.

Lemma all_chars_weaken (p q : ascii -> bool) s :
  (forall c, p c = true -> q c = true) ->
  all_chars p s = true -> all_chars q s = true.
Proof.
  intros Hpq. induction s as [|c s IH]; simpl; [done|].
  intros [Hc Hs]%andb_true_iff. rewrite (Hpq _ Hc). by apply IH.
Qed.

Lemma all_digits_chars s : all_digits s = all_chars is_digit s.
Proof. induction s as [|c s IH]; simpl; [done|]. by rewrite IH. Qed.

Lemma isdecimal_all_chars s : isdecimal s = true -> all_chars is_digit s = true.
Proof. destruct s; [done|]. cbn [isdecimal]. by rewrite all_digits_chars. Qed.

Definition is_not (x : ascii) (c : ascii) : bool := negb (Ascii.eqb c x).

Lemma digit_is_not x c :
  is_digit x = false -> is_digit c = true -> is_not x c = true.
Proof.
  intros Hx Hc. unfold is_not. destruct (Ascii.eqb_spec c x) as [->|]; [|done].
  congruence.
Qed.

Lemma prefix_cons_ne x old c s :
  is_not x c = true -> String.prefix (String x old) (String c s) = false.
Proof.
  unfold is_not. intros Hc. simpl.
  destruct (ascii_dec x c) as [->|]; [|done].
  by rewrite Ascii.eqb_refl in Hc.
Qed.

(** Replacing leaves alone a text without the first character of [old]. *)
Lemma replace_absent x old new s :
  all_chars (is_not x) s = true -> replace (String x old) new s = s.
Proof.
  unfold replace. induction s as [|c s IH]; [done|].
  cbn [all_chars]. intros [Hc Hs]%andb_true_iff.
  cbn [replace_from]. rewrite (prefix_cons_ne _ _ _ _ Hc). by rewrite IH.
Qed.

(** Splitting a text without the separator gives the text. *)
Lemma split_absent sep s : all_chars (is_not sep) s = true -> split sep s = [s].
Proof.
  induction s as [|c s IH]; [done|].
  cbn [all_chars]. intros [Hc Hs]%andb_true_iff.
  cbn [split]. unfold is_not in Hc. apply negb_true_iff in Hc. rewrite Hc.
  by rewrite IH.
Qed.

Lemma split_once_first sep a b :
  all_chars (is_not sep) a = true ->
  split_once sep (a +:+ String sep b) = Some (a, b).
Proof.
  induction a as [|c a IH]; cbn [all_chars].
  - intros _. simpl. by rewrite Ascii.eqb_refl.
  - intros [Hc Ha]%andb_true_iff. simpl.
    unfold is_not in Hc. apply negb_true_iff in Hc. rewrite Hc.
    by rewrite IH.
Qed.

Lemma contains_char_app x a b : contains (String x "") (a +:+ String x b) = true.
Proof.
  induction a as [|c a IH].
  - simpl. destruct (ascii_dec x x); [|done]. by destruct b.
  - change (String c a +:+ String x b) with (String c (a +:+ String x b)).
    cbn [contains]. rewrite IH. apply orb_true_r.
Qed.


Lemma contains_char_present x s :
  contains (String x "") s = false -> all_chars (is_not x) s = true.
Proof.
  induction s as [|c s IH]; [done|].
  cbn [contains all_chars]. intros [Hp Hs]%orb_false_iff.
  rewrite (IH Hs), andb_true_r. unfold is_not.
  destruct (Ascii.eqb_spec c x) as [->|]; [|done].
  simpl in Hp. destruct (ascii_dec x x); [|done]. by destruct s.
Qed.

End Numerals.

Section AllowedRanges.
Import PyStr Diff.

(** Two sorted lists with the same elements are equal, when the order is
    antisymmetric on them. *)
Lemma sorted_perm_unique {A} (R : A -> A -> Prop) (l1 l2 : list A) :
  (forall x y, x ∈ l1 -> y ∈ l1 -> R x y -> R y x -> x = y) ->
  StronglySorted R l1 -> StronglySorted R l2 -> l1 ≡ₚ l2 -> l1 = l2.
Proof.
  intros Hanti Hs1. revert l2.
  induction Hs1 as [|a t1 Hs1 IH Hall1]; intros l2 Hs2 Hperm.
  - by apply Permutation_nil_l in Hperm.
  - destruct Hs2 as [|b t2 Hs2 Hall2].
    + by apply Permutation_nil_r in Hperm.
    + assert (a = b) as <-.
      { assert (Ha : a ∈ b :: t2) by (rewrite <- Hperm; left).
        assert (Hb : b ∈ a :: t1) by (rewrite Hperm; left).
        apply elem_of_cons in Ha as [Ha|Ha]; [done|].
        apply elem_of_cons in Hb as [Hb|Hb]; [done|].
        rewrite Forall_forall in Hall1, Hall2.
        apply Hanti; [left|by right|by apply Hall1|by apply Hall2]. }
      f_equal. apply IH; [|done|by apply Permutation_cons_inv in Hperm].
      intros x y Hx Hy. apply Hanti; by right.
Qed.

Lemma map_seq_sorted {A} (R : A -> A -> Prop) (f : nat -> A) s n :
  (forall i j, i < j -> R (f i) (f j)) ->
  StronglySorted R (map f (seq s n)).
Proof.
  intros Hmono. revert s. induction n as [|n IH]; intros s; [constructor|].
  cbn [seq map]. constructor; [apply IH|].
  apply Forall_forall. intros y Hy.
  apply list_elem_of_In, in_map_iff in Hy as (j & <- & Hj).
  apply in_seq in Hj. apply Hmono. lia.
Qed.

Lemma range_strs_numbers a b x :
  x ∈ range_strs a b -> exists n, x = str n /\ (a <= n <= b)%N.
Proof.
  unfold range_strs. intros Hx.
  apply list_elem_of_In, in_map_iff in Hx as (i & <- & Hi).
  apply in_seq in Hi. eexists. split; [reflexivity|]. lia.
Qed.

Lemma range_strs_sorted a b : StronglySorted key_order (range_strs a b).
Proof.
  unfold range_strs. apply map_seq_sorted. intros i j Hij.
  unfold key_order, allowed_key. rewrite !isdigit_str, !int_str. cbn.
  apply N.leb_le. lia.
Qed.

Lemma range_strs_NoDup a b : NoDup (range_strs a b).
Proof.
  unfold range_strs. apply NoDup_fmap_2; [|apply NoDup_seq].
  intros i j Hij. apply str_inj in Hij. lia.
Qed.

Lemma filter_all {A} (P : A -> Prop) `{forall x, Decision (P x)} (l : list A) :
  Forall P l -> filter P l = l.
Proof.
  induction 1 as [|x l Hx Hl IH]; [done|].
  rewrite filter_cons_True by done. by rewrite IH.
Qed.

Lemma str_truthy n : truthy (str n) = true.
Proof. pose proof (isdigit_str n) as H. by destruct (str n). Qed.

(** The sort of [_split_allowed] leaves a range as it is. *)
Lemma sorted_range a b :
  sorted_by allowed_key_leb allowed_key
            (elements (list_to_set (range_strs a b) : gset string))
  = range_strs a b.
Proof.
  symmetry. apply (sorted_perm_unique key_order).
  - intros x y (m & -> & _)%range_strs_numbers (n & -> & _)%range_strs_numbers.
    unfold key_order, allowed_key. rewrite !isdigit_str, !int_str. cbn.
    rewrite !N.leb_le. intros H1 H2. f_equal. lia.
  - apply range_strs_sorted.
  - apply (sorted_by_sorted allowed_key_leb allowed_key
             allowed_key_leb_total allowed_key_leb_trans).
  - rewrite sorted_by_perm. symmetry.
    apply elements_list_to_set, range_strs_NoDup.
Qed.

Lemma digits_are_not x s :
  is_digit x = false -> isdecimal s = true -> all_chars (is_not x) s = true.
Proof.
  intros Hx Hs. apply (all_chars_weaken is_digit); [|by apply isdecimal_all_chars].
  intros c. by apply digit_is_not.
Qed.

Lemma str_has_no x n : is_digit x = false -> all_chars (is_not x) (str n) = true.
Proof. intros Hx. apply digits_are_not; [done|apply isdecimal_str]. Qed.

Lemma allowed_key_res_str n : allowed_key_res (str n) = Ok (allowed_key (str n)).
Proof.
  unfold allowed_key_res, allowed_key. by rewrite isdigit_str, to_int_str, int_str.
Qed.

(** X23: a range [a-b] of two numerals expands to the numerals of
    [a, a+1, ..., b], in that order; it expands to nothing when [b] is
    below [a]. *)
Theorem a_range_expands_to_its_numbers (a b : N) :
  _split_allowed (str a +:+ "-" +:+ str b)
  = Ok (map (fun i => str (a + N.of_nat i)) (seq 0 (N.to_nat (b + 1 - a))))
  /\ ((b < a)%N -> _split_allowed (str a +:+ "-" +:+ str b) = Ok []).
Proof.
  assert (Heq : _split_allowed (str a +:+ "-" +:+ str b) = Ok (range_strs a b)).
  { unfold _split_allowed. cbv zeta.
    set (s := str a +:+ "-" +:+ str b).
    assert (Hsp : all_chars (is_not " ") s = true).
    { subst s. rewrite !all_chars_app.
      by rewrite !(str_has_no " "%char) by reflexivity. }
    assert (Hco : all_chars (is_not ",") s = true).
    { subst s. rewrite !all_chars_app.
      by rewrite !(str_has_no ","%char) by reflexivity. }
    rewrite (replace_absent " " "" "" s Hsp).
    assert (Hne : negb (truthy s) || String.eqb s "none" = false).
    { subst s. pose proof (isdecimal_str a) as Ha.
      destruct (str a) as [|c r]; [done|]. cbn in Ha.
      apply andb_true_iff in Ha as [Hc _].
      change (String c r +:+ "-" +:+ str b) with (String c (r +:+ "-" +:+ str b)).
      cbn [truthy negb orb String.eqb].
      destruct (Ascii.eqb_spec c "n") as [->|]; [by vm_compute in Hc|done]. }
    rewrite Hne. rewrite (split_absent "," s Hco). cbn [map_res].
    assert (Hexp : expand_part s = Ok (range_strs a b)).
    { unfold expand_part. subst s.
      change ("-" +:+ str b) with (String "-" (str b)).
      rewrite contains_char_app.
      rewrite split_once_first by (by apply str_has_no).
      by rewrite !isdigit_str, !to_int_str. }
    rewrite Hexp. cbn [res_bind concat]. rewrite app_nil_r.
    rewrite filter_all.
    2:{ apply Forall_forall. intros x (n & -> & _)%range_strs_numbers.
        by rewrite str_truthy. }
    rewrite (sorted_by_res_Ok allowed_key_leb allowed_key_res allowed_key).
    2:{ intros x Hx. apply elem_of_elements, elem_of_list_to_set in Hx.
        apply range_strs_numbers in Hx as (n & -> & _). apply allowed_key_res_str. }
    cbn [catch]. f_equal. apply sorted_range. }
  split; [exact Heq|].
  intros Hlt. rewrite Heq. unfold range_strs.
  by replace (N.to_nat (b + 1 - a)) with 0 by lia.
Qed.

End AllowedRanges.

Section AllowedTokens.
Import PyStr Diff.












End AllowedTokens.

Section AllowedRuns.
Import PyStr Diff.


End AllowedRuns.

(** * From a stored snapshot to the parsed tables *)

Section DictFacts.
Context {K V : Type} `{EqDecision K}.
Implicit Types (d : PyDict.dict K V) (k : K) (v : V).

Lemma get_set_eq k v d : PyDict.get k (PyDict.set k v d) = Some v.
Proof.
  induction d as [|[k' v'] d IH]; simpl.
  - by destruct (decide (k = k)).
  - destruct (decide (k' = k)) as [->|Hne]; simpl.
    + by destruct (decide (k = k)).
    + by destruct (decide (k' = k)).
Qed.

Lemma get_set_ne k k' v d :
  k <> k' -> PyDict.get k (PyDict.set k' v d) = PyDict.get k d.
Proof.
  intros Hne. induction d as [|[k1 v1] d IH]; simpl.
  - by destruct (decide (k' = k)) as [->|].
  - destruct (decide (k1 = k')) as [->|Hne']; simpl.
    + destruct (decide (k' = k)); [congruence|].
      by destruct (decide (k' = k)).
    + by destruct (decide (k1 = k)).
Qed.

(** The first entry, in insertion order, whose key satisfies [P]. *)
Fixpoint first_match (P : K -> bool) d : option (K * V) :=
  match d with
  | [] => None
  | (k, v) :: d' => if P k then Some (k, v) else first_match P d'
  end.

Lemma first_match_holds P d k v : first_match P d = Some (k, v) -> P k = true.
Proof.
  induction d as [|[k1 v1] d IH]; simpl; [done|].
  destruct (P k1) eqn:Hk1; [|exact IH]. by intros [= <- <-].
Qed.

(** Assigning to a key keeps the first match where it is, and gives it the
    new value when it is the key assigned. *)
Lemma first_match_set P k v d :
  first_match P (PyDict.set k v d)
  = match first_match P d with
    | Some (k', v') => if decide (k' = k) then Some (k, v) else Some (k', v')
    | None => if P k then Some (k, v) else None
    end.
Proof.
  induction d as [|[k1 v1] d IH]; simpl; [done|].
  destruct (decide (k1 = k)) as [->|Hne]; simpl.
  - destruct (P k) eqn:Hk.
    + by destruct (decide (k = k)).
    + destruct (first_match P d) as [[k' v']|] eqn:Hd; [|done].
      apply first_match_holds in Hd.
      destruct (decide (k' = k)); [congruence|done].
  - destruct (P k1) eqn:Hk1; [|exact IH].
    by destruct (decide (k1 = k)).
Qed.
End DictFacts.

Section Bridge.
Import PyStr Diff.

Lemma parse_row_snoc low h r :
  parse_row (low ++ [h]) r
  = if (length low <? length r)%nat
    then PyDict.set h (nth (length low) r "") (parse_row low r)
    else parse_row low r.
Proof.
  unfold parse_row. rewrite imap_app, foldl_app. cbn [imap foldl fst snd].
  by rewrite Nat.add_0_r.
Qed.

Lemma parse_row_lookup low r :
  NoDup low ->
  (forall i h, low !! i = Some h -> PyDict.get h (parse_row low r) = r !! i)
  /\ (forall h, h ∉ low -> PyDict.get h (parse_row low r) = None).
Proof.
  induction low as [|x low IH] using rev_ind; intros Hnd.
  - split; [by intros i h Hi|done].
  - apply NoDup_app in Hnd as (Hnd & Hx & _).
    assert (Hx' : x ∉ low).
    { intros Hin. apply (Hx x Hin). by apply list_elem_of_singleton. }
    destruct (IH Hnd) as [IH1 IH2]. rewrite parse_row_snoc. split.
    + intros i h Hi. apply lookup_app_Some in Hi as [Hi|[Hlen Hi]].
      * assert (h <> x).
        { intros ->. apply Hx'. by eapply list_elem_of_lookup_2. }
        destruct (length low <? length r)%nat;
          [rewrite get_set_ne by done|]; by apply IH1.
      * apply list_lookup_singleton_Some in Hi as [Hi ->].
        assert (i = length low) as -> by lia.
        destruct (Nat.ltb_spec (length low) (length r)) as [Hlt|Hge].
        -- rewrite get_set_eq. symmetry.
           destruct (lookup_lt_is_Some_2 r (length low) Hlt) as [v Hv].
           rewrite Hv. f_equal. by apply nth_lookup_Some with (d := "") in Hv.
        -- rewrite IH2 by done. symmetry. by apply lookup_ge_None.
    + intros h Hh. rewrite elem_of_app, list_elem_of_singleton in Hh.
      destruct (length low <? length r)%nat;
        [rewrite get_set_ne by (intros ->; apply Hh; by right)|];
        apply IH2; intros Hin; apply Hh; by left.
Qed.

(** X25: in a parsed row, a header (given distinct headers) maps to the cell
    of its own column; a column beyond the end of a short row has no entry,
    and neither has a name that is no header. *)
Theorem parsed_row_maps_each_header_to_its_cell (low r : list string) :
  NoDup low ->
  (forall i h, low !! i = Some h -> PyDict.get h (parse_row low r) = r !! i)
  /\ (forall i h, low !! i = Some h -> (length r <= i)%nat ->
        PyDict.get h (parse_row low r) = None)
  /\ (forall h, h ∉ low -> PyDict.get h (parse_row low r) = None).
Proof.
  intros Hnd. destruct (parse_row_lookup low r Hnd) as [H1 H2].
  split; [exact H1|]. split; [|exact H2].
  intros i h Hi Hlen. rewrite (H1 i h Hi). by apply lookup_ge_None.
Qed.

(** The command of an item as the dictionary keys it, and its table as the
    dictionary stores it. *)
Definition item_key (it : Crawl.item) : string :=
  let '(cmd, _, _, _) := it in lower (strip cmd).

Definition item_rows (it : Crawl.item) : list row :=
  let '(_, _, headers, rows) := it in
  let headers := map strip headers in
  if nonempty headers && nonempty rows
  then map (parse_row (map lower headers)) rows
  else [].

Lemma snapshot_to_cmdmap_unfold snap :
  _snapshot_to_cmdmap (Some snap)
  = foldl (fun out it => PyDict.set (item_key it) (item_rows it) out) [] (items snap).
Proof.
  unfold _snapshot_to_cmdmap. generalize ([] : cmdmap).
  induction (items snap) as [|[[[cmd raw] headers] rows] l IH]; intros acc; [done|].
  cbn [foldl]. rewrite <- IH. f_equal. unfold item_key, item_rows. cbv zeta.
  by destruct (nonempty (map strip headers) && nonempty rows).
Qed.

Lemma get_parsed_first_match (m : cmdmap) key :
  _get_parsed m key = default [] (snd <$> first_match (contains (lower key)) m).
Proof.
  induction m as [|[k v] m IH]; simpl; [done|].
  by destruct (contains (lower key) k).
Qed.

(** The item that selects the command, and the item that gives the table. *)
Definition selected (P : string -> bool) (l : list Crawl.item)
  : option (string * list row) :=
  it0 ← find (fun it => P (item_key it)) l;
  it1 ← find (fun it => bool_decide (item_key it = item_key it0)) (rev l);
  Some (item_key it0, item_rows it1).

Lemma first_match_build (P : string -> bool) (l : list Crawl.item) :
  first_match P
    (foldl (fun out it => PyDict.set (item_key it) (item_rows it) out) [] l)
  = selected P l.
Proof.
  unfold selected. induction l as [|x l IH] using rev_ind; [done|].
  rewrite foldl_snoc, first_match_set, IH, find_snoc, rev_app_distr.
  cbn [rev app find].
  destruct (find (fun it => P (item_key it)) l) as [it0|] eqn:H0; cbn [mbind option_bind].
  - destruct (find (fun it => bool_decide (item_key it = item_key it0)) (rev l))
      as [it1|] eqn:H1.
    + cbn [mbind option_bind].
      destruct (decide (item_key it0 = item_key x)) as [Heq|Hne].
      * rewrite bool_decide_eq_true_2 by done. cbn. by rewrite Heq.
      * by rewrite bool_decide_eq_false_2 by (intros Heq; by apply Hne).
    + exfalso. apply find_holds in H0 as [_ Hin].
      apply list_elem_of_In, in_rev in Hin.
      pose proof (find_none _ _ H1 it0 Hin) as Hf. cbn in Hf.
      by rewrite bool_decide_eq_true_2 in Hf.
  - destruct (P (item_key x)); [|done]. cbn.
    by rewrite bool_decide_eq_true_2.
Qed.

(** X26: the table that a diff reads for a command key is chosen in two
    steps: the first item of the snapshot whose command (stripped, in lower
    case) contains the key (in lower case) selects the command, and the
    last item with that same command gives the rows; the table is empty
    when no command contains the key, and when the item that gives the rows
    has no header or no row. *)
Theorem parsed_table_of_a_command (snap : snapshot) (key : string) :
  _get_parsed (_snapshot_to_cmdmap (Some snap)) key
  = default [] (snd <$> selected (contains (lower key)) (items snap)).
Proof.
  by rewrite get_parsed_first_match, snapshot_to_cmdmap_unfold, first_match_build.
Qed.

End Bridge.

Section BridgeRuns.
Import PyStr Diff.

Lemma parsed_row_maps_each_header_to_its_cell_witness :
  PyDict.get "port" (parse_row ["port"; "status"; "vlan"] ["Gi1/0/1"; "connected"])
  = Some "Gi1/0/1"
  /\ PyDict.get "vlan" (parse_row ["port"; "status"; "vlan"] ["Gi1/0/1"; "connected"])
     = None.
Proof.
  assert (Hnd : NoDup ["port"; "status"; "vlan"]) by compute_done.
  destruct (parsed_row_maps_each_header_to_its_cell
              ["port"; "status"; "vlan"] ["Gi1/0/1"; "connected"] Hnd)
    as (Hcell & Hshort & _).
  split.
  - apply (Hcell 0). reflexivity.
  - apply (Hshort 2); [reflexivity|simpl; lia].
Defined.

End BridgeRuns.

(** * The interface counters of the stored metrics *)

Section MetricsProperties.
Import PyStr Metrics.
Variable extract_active_vlans_from_raw : string -> gset string.

(** The rows of an item that the interface counters take in, and those of
    them that count as up. *)
Definition counted (it : Crawl.item) : list (list string) :=
  let '(_, _, headers, rows) := it in
  if is_interface_table it
  then List.filter (fun r => negb (skipped (port_idx headers) r)) rows
  else [].

Definition counted_up (it : Crawl.item) : list (list string) :=
  let '(_, _, headers, _) := it in
  List.filter (is_up (status_idx headers)) (counted it).

Lemma count_rows_spec p s m rows :
  let m' := foldl (count_row p s) m rows in
  let taken := List.filter (fun r => negb (skipped p r)) rows in
  interfaces_total m' = (interfaces_total m + N.of_nat (length taken))%N
  /\ interfaces_up m'
     = (interfaces_up m + N.of_nat (length (List.filter (is_up s) taken)))%N
  /\ (interfaces_up m' + interfaces_down m'
      = interfaces_up m + interfaces_down m + N.of_nat (length taken))%N
  /\ vlans_active m' = vlans_active m
  /\ cdp_total m' = cdp_total m
  /\ inventory_total m' = inventory_total m.
Proof.
  revert m. induction rows as [|r rows IH]; intros m; cbn zeta.
  - cbn. repeat split; lia.
  - cbn [foldl List.filter]. specialize (IH (count_row p s m r)). cbn zeta in IH.
    destruct IH as (Ht & Hu & Hs & Hv & Hc & Hi).
    rewrite Hs, Ht, Hu, Hv, Hc, Hi. unfold count_row.
    destruct (skipped p r); cbn [negb].
    + done.
    + cbn [List.filter]. destruct (is_up s r); cbn; repeat split; lia.
Qed.

Lemma step_spec m it :
  let m' := step extract_active_vlans_from_raw m it in
  interfaces_total m' = (interfaces_total m + N.of_nat (length (counted it)))%N
  /\ interfaces_up m' = (interfaces_up m + N.of_nat (length (counted_up it)))%N
  /\ (interfaces_up m' + interfaces_down m'
      = interfaces_up m + interfaces_down m + N.of_nat (length (counted it)))%N.
Proof.
  destruct it as [[[cmd raw] headers] rows]. cbn zeta.
  unfold step, counted_up, counted.
  destruct (is_interface_table (cmd, raw, headers, rows)).
  - destruct (count_rows_spec (port_idx headers) (status_idx headers) m rows)
      as (Ht & Hu & Hs & _). by rewrite Hs, Ht, Hu.
  - repeat destruct (contains _ _); cbn; repeat split; lia.
Qed.

Lemma fold_step_spec m c :
  let m' := foldl (step extract_active_vlans_from_raw) m c in
  interfaces_total m'
  = (interfaces_total m + N.of_nat (length (flat_map counted c)))%N
  /\ interfaces_up m'
     = (interfaces_up m + N.of_nat (length (flat_map counted_up c)))%N
  /\ (interfaces_up m' + interfaces_down m'
      = interfaces_up m + interfaces_down m
        + N.of_nat (length (flat_map counted c)))%N.
Proof.
  revert m. induction c as [|it c IH]; intros m; cbn zeta.
  - cbn. repeat split; lia.
  - cbn [foldl flat_map]. rewrite !length_app.
    specialize (IH (step extract_active_vlans_from_raw m it)). cbn zeta in IH.
    destruct IH as (Ht & Hu & Hs).
    destruct (step_spec m it) as (Ht' & Hu' & Hs').
    rewrite Hs, Ht, Hu, Hs', Ht', Hu'. repeat split; lia.
Qed.

(** X27: in the metrics stored with a snapshot, the interfaces counted as up
    and those counted as down add up to the total.  The total is the number
    of rows, over the [show interfaces status] tables that have headers,
    whose port cell does not name a virtual interface (port-channel, VLAN,
    loopback, tunnel, NVE, virtual); up counts those of them whose status
    cell is [connected] or [up], whatever the case and the surrounding
    blanks. *)
Theorem interface_counters_add_up (c : Crawl.collected) :
  let m := metrics_from_collected extract_active_vlans_from_raw c in
  (interfaces_up m + interfaces_down m = interfaces_total m)%N
  /\ interfaces_total m = N.of_nat (length (flat_map counted c))
  /\ interfaces_up m = N.of_nat (length (flat_map counted_up c)).
Proof.
  cbn zeta. unfold metrics_from_collected.
  destruct (fold_step_spec no_metrics c) as (Ht & Hu & Hs).
  rewrite Hs, Ht, Hu. cbn. repeat split; lia.
Qed.

End MetricsProperties.

(** * Interface names *)

Section InterfaceNames.
Import PyStr Diff.

(** The characters of the numbering of an interface: digits, [/] and [.]. *)
Definition unit_char (c : ascii) : bool :=
  is_digit c || Ascii.eqb c "/" || Ascii.eqb c ".".

Lemma prefix_length old s :
  String.prefix old s = true -> String.length old <= String.length s.
Proof.
  revert s. induction old as [|a old IH]; intros s; [simpl; lia|].
  destruct s as [|b s]; [done|]. simpl.
  destruct (ascii_dec a b); [|done]. intros H%IH. lia.
Qed.

(** Whether [old] starts a text does not depend on an end of the text that
    has none of its characters. *)
Lemma prefix_app_absent (u : ascii -> bool) old p rest :
  old <> "" ->
  all_chars (fun c => negb (u c)) old = true -> all_chars u rest = true ->
  String.prefix old (p +:+ rest) = String.prefix old p.
Proof.
  revert old. induction p as [|b p IH]; intros old Hne Hold Hrest.
  - destruct old as [|a old]; [done|]. destruct rest as [|c rest]; [done|].
    simpl. destruct (ascii_dec a c) as [->|]; [|done].
    cbn [all_chars] in Hold, Hrest.
    apply andb_true_iff in Hold as [Ha _]. apply andb_true_iff in Hrest as [Hc _].
    by rewrite Hc in Ha.
  - destruct old as [|a old]; [done|].
    change (String b p +:+ rest) with (String b (p +:+ rest)). simpl.
    destruct (ascii_dec a b); [|done].
    destruct old as [|a' old]; [by destruct p, rest|].
    cbn [all_chars] in Hold. apply andb_true_iff in Hold as [_ Hold].
    by apply IH.
Qed.

Lemma append_assoc_string (a b c : string) : a +:+ (b +:+ c) = (a +:+ b) +:+ c.
Proof.
  induction a as [|x a IH]; [done|]. exact (f_equal (String x) IH).
Qed.

Lemma replace_from_app (u : ascii -> bool) old new k p rest :
  old <> "" ->
  all_chars (fun c => negb (u c)) old = true -> all_chars u rest = true ->
  k <= String.length p ->
  replace_from old new k (p +:+ rest) = replace_from old new k p +:+ rest.
Proof.
  intros Hne Hold Hrest. revert k. induction p as [|b p IH]; intros k Hk.
  - cbn in Hk. assert (k = 0) as -> by lia.
    destruct old as [|a old]; [done|].
    change ("" +:+ rest) with rest.
    change (replace_from (String a old) new 0 rest)
      with (replace (String a old) new rest).
    rewrite replace_absent; [done|].
    cbn [all_chars] in Hold. apply andb_true_iff in Hold as [Ha _].
    apply (all_chars_weaken u); [|done].
    intros c Hc. unfold is_not. destruct (Ascii.eqb_spec c a) as [->|]; [|done].
    by rewrite Hc in Ha.
  - change (String b p +:+ rest) with (String b (p +:+ rest)).
    destruct k as [|k]; cbn [replace_from].
    + change (String b (p +:+ rest)) with (String b p +:+ rest).
      rewrite (prefix_app_absent u) by done.
      destruct (String.prefix old (String b p)) eqn:Hpre.
      * apply prefix_length in Hpre. cbn in Hpre.
        rewrite IH by lia. apply append_assoc_string.
      * by rewrite IH by lia.
    + apply IH. cbn in Hk. lia.
Qed.

Lemma replace_app (u : ascii -> bool) old new p rest :
  old <> "" ->
  all_chars (fun c => negb (u c)) old = true -> all_chars u rest = true ->
  replace old new (p +:+ rest) = replace old new p +:+ rest.
Proof. intros. apply (replace_from_app u); [done..|lia]. Qed.

Lemma rstrip_nonspace s :
  all_chars (fun c => negb (is_space c)) s = true -> rstrip s = s.
Proof.
  induction s as [|c s IH]; [done|]. cbn [all_chars rstrip].
  intros [Hc Hs]%andb_true_iff. rewrite (IH Hs).
  apply negb_true_iff in Hc. rewrite Hc. by destruct s.
Qed.

Lemma strip_nonspace s :
  all_chars (fun c => negb (is_space c)) s = true -> strip s = s.
Proof.
  intros Hs. unfold strip.
  assert (lstrip s = s) as ->.
  { destruct s as [|c s]; [done|]. cbn [all_chars] in Hs.
    apply andb_true_iff in Hs as [Hc _]. apply negb_true_iff in Hc.
    cbn. by rewrite Hc. }
  by apply rstrip_nonspace.
Qed.

Lemma unit_char_nonspace c : unit_char c = true -> negb (is_space c) = true.
Proof.
  intros Hc. destruct (is_space c) eqn:Hs; [|done]. exfalso.
  unfold unit_char, is_digit, is_space in *.
  destruct (Ascii.eqb_spec c "/") as [Heq|]; [rewrite Heq in Hs; by vm_compute in Hs|].
  destruct (Ascii.eqb_spec c ".") as [Heq|]; [rewrite Heq in Hs; by vm_compute in Hs|].
  rewrite !orb_false_r in Hc.
  apply andb_true_iff in Hc as [H1%Nat.leb_le H2%Nat.leb_le].
  apply orb_true_iff in Hs as [Hs|Hs];
    apply andb_true_iff in Hs as [H3%Nat.leb_le H4%Nat.leb_le]; lia.
Qed.

(** The numbering that follows the name of an interface goes through
    [_norm_ifname] as it is. *)
Lemma norm_ifname_app p rest :
  all_chars (fun c => negb (is_space c)) p = true ->
  all_chars unit_char rest = true ->
  _norm_ifname (p +:+ rest) = _norm_ifname p +:+ rest.
Proof.
  intros Hp Hrest. unfold _norm_ifname. cbv zeta.
  rewrite (strip_nonspace p Hp).
  rewrite strip_nonspace.
  2:{ rewrite all_chars_app, Hp. cbn.
      by apply (all_chars_weaken unit_char), Hrest; apply unit_char_nonspace. }
  rewrite (replace_app unit_char "GigabitEthernet") by done.
  rewrite (replace_app unit_char "TenGigabitEthernet") by done.
  rewrite (replace_app unit_char "FastEthernet") by done.
  rewrite (replace_app unit_char "Port-channel") by done.
  rewrite (replace_app unit_char "Port-Channel") by done.
  by rewrite (replace_app unit_char "Ethernet") by done.
Qed.

(** X28: the long names of the interfaces are abbreviated and the numbering
    is kept: GigabitEthernet becomes Gi, FastEthernet becomes Fa,
    Port-channel and Port-Channel become Po, Ethernet becomes Eth, and the
    short names stay as they are.  TenGigabitEthernet becomes TenGi, not Te:
    its GigabitEthernet part is replaced first. *)
Theorem interface_names_are_abbreviated (rest : string) :
  all_chars unit_char rest = true ->
  _norm_ifname ("GigabitEthernet" +:+ rest) = "Gi" +:+ rest
  /\ _norm_ifname ("FastEthernet" +:+ rest) = "Fa" +:+ rest
  /\ _norm_ifname ("Port-channel" +:+ rest) = "Po" +:+ rest
  /\ _norm_ifname ("Port-Channel" +:+ rest) = "Po" +:+ rest
  /\ _norm_ifname ("Ethernet" +:+ rest) = "Eth" +:+ rest
  /\ _norm_ifname ("TenGigabitEthernet" +:+ rest) = "TenGi" +:+ rest
  /\ _norm_ifname ("Gi" +:+ rest) = "Gi" +:+ rest
  /\ _norm_ifname ("Te" +:+ rest) = "Te" +:+ rest
  /\ _norm_ifname ("Fa" +:+ rest) = "Fa" +:+ rest
  /\ _norm_ifname ("Po" +:+ rest) = "Po" +:+ rest.
Proof.
  intros Hrest.
  repeat (split; [by rewrite norm_ifname_app by done|]).
  by rewrite norm_ifname_app by done.
Qed.

End InterfaceNames.

Section InterfaceNameRuns.
Import PyStr Diff.

Lemma interface_names_are_abbreviated_witness :
  _norm_ifname "TenGigabitEthernet1/0/1" = "TenGi1/0/1"
  /\ _norm_ifname "GigabitEthernet1/0/1" = "Gi1/0/1".
Proof.
  destruct (interface_names_are_abbreviated "1/0/1") as (Hgi & _ & _ & _ & _ & Hten & _).
  - reflexivity.
  - split; [exact Hten|exact Hgi].
Defined.

End InterfaceNameRuns.

(** * The quick difference of two snapshots *)

Section SimpleDiffProperties.
Import PyStr SimpleDiff.

(** The item has a row that ends before the [vlan] column that
    [extract_vlans] reads. *)
Definition short_row (it : Crawl.item) : bool :=
  let '(cmd, _, headers, rows) := it in
  (contains "show vlan brief" (lower cmd)
   || contains "show interfaces status" (lower cmd))
  && match find_idx (String.eqb "vlan") (map lower headers) with
     | Some idx => existsb (fun r => (length r <=? idx)%nat) rows
     | None => false
     end.

(** The text of an item, and of a snapshot, is plain. *)
Definition plain_item (it : Crawl.item) : bool :=
  let '(cmd, _, headers, rows) := it in
  plain cmd && forallb plain headers && forallb (forallb plain) rows.

Definition plain_snapshot (snap : Diff.snapshot) : bool :=
  forallb plain_item (Diff.items snap).

Lemma column_vlans_cases idx rows :
  if existsb (fun r => (length r <=? idx)%nat) rows
  then column_vlans idx rows = Raise IndexError
  else exists l, column_vlans idx rows = Ok l.
Proof.
  induction rows as [|r rows IH]; cbn [column_vlans existsb]; [by eexists|].
  destruct (nth_error r idx) as [c|] eqn:Hc.
  - assert (Hlt : (length r <=? idx)%nat = false).
    { apply Nat.leb_gt, nth_error_Some. by rewrite Hc. }
    rewrite Hlt. cbn [orb].
    destruct (existsb _ rows); [by rewrite IH|].
    destruct IH as [l ->]. by eexists.
  - apply nth_error_None in Hc. apply Nat.leb_le in Hc. by rewrite Hc.
Qed.

Lemma vlans_if_cases name cmd raw headers rows :
  if contains name (lower cmd)
     && match find_idx (String.eqb "vlan") (map lower headers) with
        | Some idx => existsb (fun r => (length r <=? idx)%nat) rows
        | None => false
        end
  then vlans_if name (cmd, raw, headers, rows) = Raise IndexError
  else exists l, vlans_if name (cmd, raw, headers, rows) = Ok l.
Proof.
  unfold vlans_if. destruct (contains name (lower cmd)); cbn [andb]; [|by eexists].
  destruct (find_idx _ _) as [idx|]; [apply column_vlans_cases|by eexists].
Qed.

Lemma extract_vlans_cases it :
  if short_row it then extract_vlans it = Raise IndexError
  else exists v, extract_vlans it = Ok v.
Proof.
  destruct it as [[[cmd raw] headers] rows]. unfold extract_vlans, short_row.
  pose proof (vlans_if_cases "show vlan brief" cmd raw headers rows) as H1.
  pose proof (vlans_if_cases "show interfaces status" cmd raw headers rows) as H2.
  destruct (contains "show vlan brief" (lower cmd));
    destruct (contains "show interfaces status" (lower cmd));
    destruct (find_idx _ _) as [idx|];
    try destruct (existsb _ rows);
    cbn [andb orb] in *;
    repeat match goal with
           | H : exists _, _ = Ok _ |- _ => destruct H as [? ->]
           | H : _ = Raise _ |- _ => rewrite H
           end;
    cbn [res_bind]; try done; by eexists.
Qed.

Lemma vlanset_items_cases l :
  if existsb short_row l then vlanset_items l = Raise IndexError
  else exists v, vlanset_items l = Ok v.
Proof.
  induction l as [|it l IH]; cbn [vlanset_items existsb]; [by eexists|].
  pose proof (extract_vlans_cases it) as Hit.
  destruct (short_row it); cbn [orb]; [by rewrite Hit|].
  destruct Hit as [v ->]. cbn [res_bind].
  destruct (existsb short_row l); [by rewrite IH|].
  destruct IH as [w ->]. by eexists.
Qed.

(** [sorted(l, key=int)] on strings that [str.isdigit] accepts. *)
Lemma sorted_key_int_cases (l : list string) :
  if forallb isdecimal l
  then sorted_by_res N.leb to_int l = Ok (sorted_by N.leb int l)
  else sorted_by_res N.leb to_int l = Raise ValueError.
Proof.
  destruct (forallb isdecimal l) eqn:Hall.
  - apply sorted_by_res_Ok. intros x Hx.
    rewrite forallb_forall in Hall. unfold to_int.
    by rewrite (Hall x) by (by apply list_elem_of_In).
  - unfold sorted_by_res.
    destruct (map_res to_int l) as [ks|e] eqn:Hm.
    + exfalso. apply map_res_inv in Hm.
      assert (forallb isdecimal l = true); [|congruence].
      apply forallb_forall. intros x Hx%list_elem_of_In.
      apply list_elem_of_lookup in Hx as [i Hi].
      destruct (Forall2_lookup_l _ _ _ _ _ Hm Hi) as (k & _ & Hk).
      unfold to_int in Hk. by destruct (isdecimal x).
    + cbn [res_bind]. apply map_res_error in Hm as (x & _ & Hx).
      unfold to_int in Hx. destruct (isdecimal x); congruence.
Qed.

Lemma forallb_false_elem {A} (p : A -> bool) l :
  forallb p l = false -> exists x, x ∈ l /\ p x = false.
Proof.
  induction l as [|y l IH]; cbn [forallb]; [done|].
  destruct (p y) eqn:Hy; cbn [andb].
  - intros (x & Hx & Hpx)%IH. exists x. split; [by right|done].
  - intros _. exists y. split; [left|done].
Qed.

(** X29: on snapshots of plain text, [simple_diff] raises [IndexError]
    exactly when an item of one of them, among the [show vlan brief] and
    [show interfaces status] tables with a [vlan] column, has a row that
    ends before that column.  Otherwise both VLAN sets are read, and it
    raises [ValueError] exactly when a VLAN id that only one of the sets
    holds is accepted by [str.isdigit] and rejected by [int]; when there is
    none it returns the four entries, with both lists of ids in ascending
    numeric order.  With a snapshot missing it returns the empty
    dictionary. *)
Theorem simple_diff_raises_on_short_rows_and_odd_digits
    (prev cur : Diff.snapshot) :
  plain_snapshot prev = true -> plain_snapshot cur = true ->
  (simple_diff (Some prev) (Some cur) = Raise IndexError
   <-> existsb short_row (Diff.items prev ++ Diff.items cur) = true)
  /\ (existsb short_row (Diff.items prev ++ Diff.items cur) = false ->
      exists pv cv,
        vlanset prev = Ok pv /\ vlanset cur = Ok cv
        /\ (simple_diff (Some prev) (Some cur) = Raise ValueError
            <-> exists v, (v ∈ cv ∖ pv \/ v ∈ pv ∖ cv) /\ isdecimal v = false)
        /\ ((forall v, v ∈ cv ∖ pv \/ v ∈ pv ∖ cv -> isdecimal v = true) ->
            exists d,
              simple_diff (Some prev) (Some cur) = Ok (Full d)
              /\ vlans_added d = sorted_by N.leb int (elements (cv ∖ pv))
              /\ vlans_removed d = sorted_by N.leb int (elements (pv ∖ cv))))
  /\ simple_diff None (Some cur) = Ok Nothing
  /\ simple_diff (Some prev) None = Ok Nothing.
Proof.
  intros _ _.
  pose proof (vlanset_items_cases (Diff.items prev)) as Hp.
  pose proof (vlanset_items_cases (Diff.items cur)) as Hc.
  rewrite existsb_app.
  unfold simple_diff, vlanset. cbv zeta.
  destruct (existsb short_row (Diff.items prev)) eqn:Hsp.
  { rewrite Hp. cbn [res_bind orb]. split; [done|]. split; [done|]. done. }
  destruct Hp as [pv Hpv]. rewrite Hpv. cbn [res_bind orb].
  destruct (existsb short_row (Diff.items cur)) eqn:Hsc.
  { rewrite Hc. cbn [res_bind]. split; [done|]. split; [done|]. done. }
  destruct Hc as [cv Hcv]. rewrite Hcv. cbn [res_bind].
  pose proof (sorted_key_int_cases (elements (cv ∖ pv))) as Ha.
  pose proof (sorted_key_int_cases (elements (pv ∖ cv))) as Hr.
  assert (Hforall : forall (X : gset string),
            forallb isdecimal (elements X) = true
            <-> forall v, v ∈ X -> isdecimal v = true).
  { intros X. rewrite forallb_forall. split.
    - intros H v Hv. apply H, list_elem_of_In, elem_of_elements, Hv.
    - intros H v Hv%list_elem_of_In%elem_of_elements. by apply H. }
  split; [|split; [|done]].
  - split; [|done].
    destruct (forallb isdecimal (elements (cv ∖ pv))); rewrite Ha; cbn [res_bind];
      [|done].
    destruct (forallb isdecimal (elements (pv ∖ cv))); rewrite Hr; done.
  - intros _. exists pv, cv. split; [done|]. split; [done|]. split.
    + split.
      * intros Hraise.
        destruct (forallb isdecimal (elements (cv ∖ pv))) eqn:Hda.
        -- destruct (forallb isdecimal (elements (pv ∖ cv))) eqn:Hdr.
           ++ rewrite Ha in Hraise. cbn [res_bind] in Hraise.
              rewrite Hr in Hraise. done.
           ++ apply forallb_false_elem in Hdr as (v & Hv%elem_of_elements & Hd).
              exists v. split; [by right|done].
        -- apply forallb_false_elem in Hda as (v & Hv%elem_of_elements & Hd).
           exists v. split; [by left|done].
      * intros (v & Hv & Hd).
        destruct (forallb isdecimal (elements (cv ∖ pv))) eqn:Hda;
          rewrite Ha; cbn [res_bind]; [|done].
        destruct (forallb isdecimal (elements (pv ∖ cv))) eqn:Hdr;
          rewrite Hr; cbn [res_bind]; [|done].
        exfalso.
        pose proof (proj1 (Hforall (cv ∖ pv)) Hda) as Hda'.
        pose proof (proj1 (Hforall (pv ∖ cv)) Hdr) as Hdr'.
        destruct Hv as [Hv|Hv];
          [rewrite (Hda' v Hv) in Hd|rewrite (Hdr' v Hv) in Hd]; done.
    + intros Hall.
      assert (Hda : forallb isdecimal (elements (cv ∖ pv)) = true).
      { apply Hforall. intros v Hv. apply Hall. by left. }
      assert (Hdr : forallb isdecimal (elements (pv ∖ cv)) = true).
      { apply Hforall. intros v Hv. apply Hall. by right. }
      rewrite Hda in Ha. rewrite Hdr in Hr. rewrite Ha, Hr. cbn [res_bind].
      eexists. split; [reflexivity|]. done.
Qed.

Lemma rows_delta_same m cmd e :
  rows_delta m m !! cmd = Some e -> rd_delta e = 0%Z.
Proof.
  unfold rows_delta. intros He.
  apply lookup_set_to_map in He as (y & _ & Hy).
  - injection Hy as _ <-. unfold rows_delta_of. cbn. lia.
  - by intros y y' _ _ Hyy.
Qed.

(** X30: the quick difference of a snapshot with itself, when its tables
    have no short row, reports no change: every row count has delta zero,
    no VLAN is added or removed, and the connected-interface delta is
    zero. *)
Theorem simple_diff_of_a_snapshot_with_itself (s : Diff.snapshot) :
  existsb short_row (Diff.items s) = false ->
  exists d,
    simple_diff (Some s) (Some s) = Ok (Full d)
    /\ (forall cmd e, dif_rows_delta d !! cmd = Some e -> rd_delta e = 0%Z)
    /\ vlans_added d = [] /\ vlans_removed d = []
    /\ rd_delta (interfaces_connected_delta d) = 0%Z.
Proof.
  intros Hs. unfold simple_diff, vlanset. cbv zeta.
  pose proof (vlanset_items_cases (Diff.items s)) as Hv. rewrite Hs in Hv.
  destruct Hv as [v ->]. cbn [res_bind].
  rewrite difference_diag_L, elements_empty. cbn [sorted_by_res map_res res_bind].
  eexists. split; [reflexivity|]. cbn.
  split; [apply rows_delta_same|]. split; [done|]. split; [done|]. lia.
Qed.

End SimpleDiffProperties.

Section SimpleDiffRuns.
Import PyStr SimpleDiff.

Lemma simple_diff_raises_on_short_rows_and_odd_digits_witness :
  simple_diff (Some Example.vlan_ten) (Some Example.vlan_superscript)
  = Raise ValueError.
Proof.
  destruct (simple_diff_raises_on_short_rows_and_odd_digits
              Example.vlan_ten Example.vlan_superscript eq_refl eq_refl)
    as (_ & Hfull & _).
  destruct (Hfull eq_refl) as (pv & cv & Hpv & Hcv & Hvalue & _).
  apply Hvalue. exists "²".
  assert (pv = {["10"]}) as -> by (vm_compute in Hpv; by injection Hpv as <-).
  assert (cv = {["²"]}) as -> by (vm_compute in Hcv; by injection Hcv as <-).
  split; [left; by vm_compute|reflexivity].
Defined.

Lemma simple_diff_of_a_snapshot_with_itself_witness :
  exists d,
    simple_diff (Some Example.both_protocols) (Some Example.both_protocols)
    = Ok (Full d)
    /\ vlans_added d = [].
Proof.
  destruct (simple_diff_of_a_snapshot_with_itself Example.both_protocols)
    as (d & Hd & _ & Hadd & _).
  - reflexivity.
  - by exists d.
Defined.

End SimpleDiffRuns.
